(** * TrafficTelligence: feature engineering, preprocessing pipeline,
      random-forest regressor and prediction wrapper

    A shallow embedding of the training script (pandas / scikit-learn
    pipeline) and of the [TrafficVolumePredictor] class, with the
    properties of the feature-engineering + train/predict contract.

    Numbers.  A finite float64 is a rational number, so floats are
    embedded as [Q]; integers are [Z].  Statistics (means, variances,
    standardization, the metrics) are taken with exact arithmetic.  The
    rounding of float64 is modelled where the code reads a result off a
    float conversion or a float sum: [float(str)] of a cell and the
    average the forest returns ([binary64], round to nearest, ties to
    even).  Results beyond the range of float64 lie outside the model.
    The only float primitive that leaves the rationals, [np.sqrt], is a
    section variable wherever it is used.

    Frames.  A frame is a list of rows.  [read_csv] types every column
    uniformly, numbers or strings, and so does the one-row frame that
    [predict] builds from its dict; the dtype of a column is therefore
    the kind of its cells.  Strings are ASCII.

    Library calls.  The script is glue over pandas and scikit-learn; the
    library operations it configures ([StandardScaler], [OneHotEncoder],
    [ColumnTransformer], [RandomForestRegressor], [Pipeline],
    [mean_squared_error]) are embedded after their documented behaviour,
    with the parameters the script passes. *)

From Stdlib Require Import ZArith QArith Qround Qabs Lqa Lia List String Ascii Bool
  Sorted Permutation.
From stdpp Require Import gmap strings.
Import ListNotations.
Local Open Scope Q_scope.

(** ** Exceptions and results *)

(** The Python exceptions the modelled code can raise. *)
Inductive exception : Type :=
| KeyError | ValueError | TypeError | IndexError | FileNotFoundError.

(** A computation either returns a value or raises. *)
Inductive result (A : Type) : Type :=
| Ok (a : A)
| Raise (e : exception).
Arguments Ok {A} a.
Arguments Raise {A} e.

#[global] Instance result_ret : MRet result := @Ok.
#[global] Instance result_bind : MBind result := fun A B f m =>
  match m with Ok a => f a | Raise e => Raise e end.

(** [[f(x) for x in l]], stopping at the first exception. *)
Fixpoint traverse {A B : Type} (f : A -> result B) (l : list A) : result (list B) :=
  match l with
  | [] => Ok []
  | x :: l' => y ← f x; ys ← traverse f l'; Ok (y :: ys)
  end.

Definition is_ok {A : Type} (r : result A) : bool :=
  match r with Ok _ => true | Raise _ => false end.

(** ** Values, rows and frames *)

(** A cell of a DataFrame row or an entry of the [inputs] dict: a number
    (int or float) or a string. *)
Inductive value : Type :=
| VNum (q : Q)
| VStr (s : string).

(** [==] on cells: numbers by value, strings by content, a number never
    equals a string. *)
Definition value_eqb (a b : value) : bool :=
  match a, b with
  | VNum x, VNum y => Qeq_bool x y
  | VStr s, VStr t => String.eqb s t
  | _, _ => false
  end.

(** The order numpy sorts a uniformly typed column by. *)
Definition value_leb (a b : value) : bool :=
  match a, b with
  | VNum x, VNum y => Qle_bool x y
  | VStr s, VStr t => String.leb s t
  | VNum _, VStr _ => true
  | VStr _, VNum _ => false
  end.

Definition is_num (v : value) : bool :=
  match v with VNum _ => true | VStr _ => false end.

(** One row of a DataFrame, or the [inputs] dict of [predict]:
    column name -> cell. *)
Abbreviation row := (gmap string value).

(** ** Feature engineering (script lines 28-36) *)

(** A parsed [date_time] (what [pd.to_datetime] yields for one cell). *)
Record Timestamp : Type := mkTimestamp {
  ts_year : Z; ts_month : Z; ts_day : Z;
  ts_hour : Z; ts_minute : Z; ts_second : Z
}.

Definition is_leap_year (y : Z) : bool :=
  ((y mod 4 =? 0) && negb (y mod 100 =? 0) || (y mod 400 =? 0))%Z.

Definition days_in_month (y m : Z) : Z :=
  (if m =? 2 then (if is_leap_year y then 29 else 28)
   else if (m =? 4) || (m =? 6) || (m =? 9) || (m =? 11) then 30
   else 31)%Z.

(** The timestamps [pd.to_datetime] can produce: a calendar date and a
    time of day. *)
Definition valid_timestamp (t : Timestamp) : bool :=
  ((1 <=? ts_month t) && (ts_month t <=? 12) &&
   (1 <=? ts_day t) && (ts_day t <=? days_in_month (ts_year t) (ts_month t)) &&
   (0 <=? ts_hour t) && (ts_hour t <=? 23) &&
   (0 <=? ts_minute t) && (ts_minute t <=? 59) &&
   (0 <=? ts_second t) && (ts_second t <=? 59))%Z.

(** [.dt.hour] *)
Definition dt_hour (t : Timestamp) : Z := ts_hour t.

(** [.dt.month] *)
Definition dt_month (t : Timestamp) : Z := ts_month t.

Definition sakamoto_arr : list Z := [0; 3; 2; 5; 0; 3; 5; 1; 4; 6; 2; 4]%Z.

(** [.dt.dayofweek], Monday = 0 .. Sunday = 6, computed as pandas does
    (Sakamoto's method, then shifted from Sunday = 0 to Monday = 0). *)
Definition dt_dayofweek (t : Timestamp) : Z :=
  let m := ts_month t in
  let y := (if m <? 3 then ts_year t - 1 else ts_year t)%Z in
  let day := ((y + y / 4 - y / 100 + y / 400
               + nth (Z.to_nat (m - 1)) sakamoto_arr 0 + ts_day t) mod 7)%Z in
  ((day + 6) mod 7)%Z.

(** [lambda x: 1 if x >= 5 else 0] *)
Definition is_weekend (x : Z) : Z := (if x >=? 5 then 1 else 0)%Z.

(** [lambda x: 1 if (7 <= x <= 9) or (16 <= x <= 18) else 0] *)
Definition is_rush_hour (x : Z) : Z :=
  (if (7 <=? x) && (x <=? 9) || (16 <=? x) && (x <=? 18) then 1 else 0)%Z.

Definition VInt (z : Z) : value := VNum (inject_Z z).

(** Lines 32-36 on one row whose [date_time] cell parsed to [t]: the five
    derived columns are added, in the script's order. *)
Definition feature_engineering (t : Timestamp) (r : row) : row :=
  let r1 := <["hour" := VInt (dt_hour t)]> r in
  let r2 := <["day_of_week" := VInt (dt_dayofweek t)]> r1 in
  let r3 := <["month" := VInt (dt_month t)]> r2 in
  let r4 := <["is_weekend" := VInt (is_weekend (dt_dayofweek t))]> r3 in
  <["is_rush_hour" := VInt (is_rush_hour (dt_hour t))]> r4.

(** ** Column statistics *)

Definition qsum (xs : list Q) : Q := fold_right Qplus 0 xs.

(** [np.mean] of a column. *)
Definition mean (xs : list Q) : Q := qsum xs / inject_Z (Z.of_nat (length xs)).

(** [np.var] of a column (population variance, [ddof = 0]). *)
Definition variance (xs : list Q) : Q :=
  mean (map (fun x => (x - mean xs) * (x - mean xs)) xs).

(** Column [j] of a matrix given by its rows. *)
Definition column (j : nat) (X : list (list Q)) : list Q :=
  map (fun x => nth j x 0) X.

(** The columns of a matrix whose rows have [n] entries. *)
Definition columns (n : nat) (X : list (list Q)) : list (list Q) :=
  map (fun j => column j X) (seq 0 n).

(** A matrix is a non-empty list of rows of one length; its shape is
    checked when the array is built. *)
Definition rectangular (n : nat) (X : list (list Q)) : bool :=
  forallb (fun x => Nat.eqb (length x) n) X.

(** ** Float arithmetic *)

(** [2^e] for an integer exponent. *)
Definition pow2 (e : Z) : Q :=
  match e with
  | Z0 => 1
  | Zpos p => inject_Z (Z.pow_pos 2 p)
  | Zneg p => 1 # (2 ^ p)
  end.

(** The nearest integer, a tie going to the even neighbour. *)
Definition round_half_even (x : Q) : Z :=
  let f := Qfloor x in
  match Qcompare (x - inject_Z f) (1 # 2) with
  | Lt => f
  | Eq => if Z.even f then f else (f + 1)%Z
  | Gt => (f + 1)%Z
  end.

(** The float64 nearest to a real number: 53 significant bits down to
    the exponent of the subnormals, ties to even; in lowest terms. *)
Definition binary64 (x : Q) : Q :=
  let x := Qred x in
  match Qnum x with
  | Z0 => 0
  | _ =>
      let a := Qabs x in
      let e0 := (Z.log2 (Qnum a) - Z.log2 (Zpos (Qden a)))%Z in
      let e := if Qle_bool (pow2 e0) a then e0 else (e0 - 1)%Z in
      let q := Z.max (e - 52) (-1074) in
      let r := inject_Z (round_half_even (a / pow2 q)) * pow2 q in
      Qred (if Qle_bool 0 x then r else - r)
  end.

(** A sum accumulated in float64, as [out += prediction] does. *)
Definition float_sum (xs : list Q) : Q :=
  fold_left (fun acc x => binary64 (acc + x)) xs 0.

(** ** [float(str)]

    What Python's [float] makes of a string, which is how a string cell
    of a numeric column becomes a float64: surrounding whitespace is
    dropped, single underscores may separate digits, and what is left is
    a decimal literal with an optional sign, fraction and exponent, or an
    infinity or a nan. *)

(** The value of a literal. *)
Inductive float_literal : Type :=
| Finite (q : Q)
| Infinite
| NaN
| Malformed.

Definition is_space (a : ascii) : bool :=
  let n := nat_of_ascii a in
  (Nat.leb 9 n && Nat.leb n 13) || Nat.eqb n 32.

Definition is_digit (a : ascii) : bool :=
  let n := nat_of_ascii a in Nat.leb 48 n && Nat.leb n 57.

Definition digit_value (a : ascii) : Z := Z.of_nat (nat_of_ascii a - 48).

Definition is_underscore (a : ascii) : bool := Ascii.eqb a "_".

Definition to_lower (a : ascii) : ascii :=
  let n := nat_of_ascii a in
  if Nat.leb 65 n && Nat.leb n 90 then ascii_of_nat (n + 32) else a.

Fixpoint lstrip (l : list ascii) : list ascii :=
  match l with
  | a :: l' => if is_space a then lstrip l' else l
  | [] => []
  end.

Definition strip (l : list ascii) : list ascii := rev (lstrip (rev (lstrip l))).

Fixpoint remove_underscores (prev : option ascii) (l : list ascii)
  : option (list ascii) :=
  match l with
  | [] =>
      match prev with
      | Some p => if is_underscore p then None else Some []
      | None => Some []
      end
  | a :: l' =>
      if is_underscore a then
        match prev with
        | Some p => if is_digit p then remove_underscores (Some a) l' else None
        | None => None
        end
      else
        match prev with
        | Some p =>
            if is_underscore p && negb (is_digit a) then None
            else option_map (cons a) (remove_underscores (Some a) l')
        | None => option_map (cons a) (remove_underscores (Some a) l')
        end
  end.

Fixpoint span_digits (l : list ascii) : list ascii * list ascii :=
  match l with
  | a :: l' =>
      if is_digit a then let (ds, rest) := span_digits l' in (a :: ds, rest)
      else ([], l)
  | [] => ([], [])
  end.

Definition digits_value (ds : list ascii) : Z :=
  fold_left (fun acc d => (10 * acc + digit_value d)%Z) ds 0%Z.

Definition take_sign (l : list ascii) : bool * list ascii :=
  match l with
  | a :: l' =>
      if Ascii.eqb a "-" then (true, l')
      else if Ascii.eqb a "+" then (false, l')
      else (false, l)
  | [] => (false, [])
  end.

Definition decimal (m e : Z) : Q :=
  match e with
  | Z0 => inject_Z m
  | Zpos p => inject_Z (m * Z.pow_pos 10 p)
  | Zneg p => m # (10 ^ p)
  end.

Definition float64_overflow : Q := inject_Z (2 ^ 1024).

Definition finite_or_inf (x : Q) : float_literal :=
  let r := binary64 x in
  if Qle_bool float64_overflow (Qabs r) then Infinite else Finite r.

Definition parse_number (l : list ascii) : float_literal :=
  let (neg, l1) := take_sign l in
  let (int_part, l2) := span_digits l1 in
  let (frac_part, l3) :=
    match l2 with
    | a :: l2' => if Ascii.eqb a "." then span_digits l2' else ([], l2)
    | [] => ([], [])
    end in
  match int_part ++ frac_part with
  | [] => Malformed
  | mantissa =>
      let m := digits_value mantissa in
      let m := if neg then (- m)%Z else m in
      let shift := (- Z.of_nat (List.length frac_part))%Z in
      match l3 with
      | [] => finite_or_inf (decimal m shift)
      | a :: l4 =>
          if Ascii.eqb (to_lower a) "e" then
            let (eneg, l5) := take_sign l4 in
            match span_digits l5 with
            | (d :: ds, []) =>
                let e := digits_value (d :: ds) in
                let e := if eneg then (- e)%Z else e in
                finite_or_inf (decimal m (e + shift))
            | _ => Malformed
            end
          else Malformed
      end
  end.

Definition float_of_string (s : string) : float_literal :=
  match strip (list_ascii_of_string s) with
  | [] => Malformed
  | l =>
      match remove_underscores None l with
      | None => Malformed
      | Some l' =>
          let (_, body) := take_sign l' in
          let name := string_of_list_ascii (map to_lower body) in
          if String.eqb name "inf" || String.eqb name "infinity" then Infinite
          else if String.eqb name "nan" then NaN
          else parse_number l'
      end
  end.

(** ** [StandardScaler()] (line 100) *)

Module StandardScaler.

Record t : Type := mk { mean_ : list Q; var_ : list Q; scale_ : list Q }.

Section Fit.
Variable np_sqrt : Q -> Q.

(** The machine epsilon of float64. *)
Definition eps : Q := 1 # (2 ^ 52).

(** [_is_constant_feature]: the variance is within the rounding error of
    the variance of a constant column of that mean. *)
Definition is_constant_feature (var mean : Q) (n_samples : nat) : bool :=
  let n := inject_Z (Z.of_nat n_samples) in
  Qle_bool var (n * eps * var + (n * mean * eps) * (n * mean * eps)).

(** [_handle_zeros_in_scale]: a constant column cannot be scaled to unit
    variance; it is left as it is, with a scaling factor of 1. *)
Definition handle_zeros_in_scale (scale : Q) (constant_mask : bool) : Q :=
  if constant_mask then 1 else scale.

(** The scale of a column: its standard deviation, with 1 for a constant
    column. *)
Definition column_scale (c : list Q) : Q :=
  handle_zeros_in_scale (np_sqrt (variance c))
    (is_constant_feature (variance c) (mean c) (length c)).

(** [fit]: per column the mean, the variance and the scale. *)
Definition fit (X : list (list Q)) : result t :=
  match X with
  | [] => Raise ValueError
  | x0 :: _ =>
      if rectangular (length x0) X then
        let cols := columns (length x0) X in
        Ok {| mean_ := map mean cols;
              var_ := map variance cols;
              scale_ := map column_scale cols |}
      else Raise ValueError
  end.

End Fit.

(** One entry of [(X - mean_) / scale_].  numpy divides by a zero scale
    into inf or nan, which the regressor's input validation rejects with
    a ValueError; [Q] has neither, so the model raises at the division. *)
Definition standardize (m s x : Q) : result Q :=
  if Qeq_bool s 0 then Raise ValueError else Ok ((x - m) / s).

Fixpoint standardize_all (ms ss xs : list Q) : result (list Q) :=
  match ms, ss, xs with
  | [], [], [] => Ok []
  | m :: ms', s :: ss', x :: xs' =>
      y ← standardize m s x; ys ← standardize_all ms' ss' xs'; Ok (y :: ys)
  | _, _, _ => Raise ValueError
  end.

(** [transform] of one sample. *)
Definition transform (st : t) (x : list Q) : result (list Q) :=
  standardize_all (mean_ st) (scale_ st) x.

Fixpoint unstandardize_all (ms ss vs : list Q) : list Q :=
  match ms, ss, vs with
  | m :: ms', s :: ss', v :: vs' => (v * s + m) :: unstandardize_all ms' ss' vs'
  | _, _, _ => []
  end.

(** [inverse_transform] of one sample: [v * scale_ + mean_]. *)
Definition inverse_transform (st : t) (v : list Q) : list Q :=
  unstandardize_all (mean_ st) (scale_ st) v.

End StandardScaler.

(** ** [OneHotEncoder(handle_unknown='ignore')] (line 101) *)

Module OneHotEncoder.

(** The [handle_unknown] parameter: ['error'] (the default) or ['ignore']. *)
Inductive handle_unknown_t : Type := unknown_error | unknown_ignore.

Record t : Type := mk {
  handle_unknown : handle_unknown_t;
  categories_ : list (list value)
}.

(** The value is one of the categories recorded at fit time. *)
Definition known (cats : list value) (v : value) : bool :=
  existsb (fun c => value_eqb c v) cats.

(** The indicator vector of [v] over the categories. *)
Definition one_hot (cats : list value) (v : value) : list Q :=
  map (fun c => if value_eqb c v then 1 else 0) cats.

Definition zeros (n : nat) : list Q := repeat 0 n.

(** The block of one categorical field.  A cell of a numeric column
    cannot be looked up in categories that are not numbers: numpy
    raises TypeError, whatever [handle_unknown] says. *)
Definition encode (hu : handle_unknown_t) (cats : list value) (v : value)
  : result (list Q) :=
  if is_num v && negb (forallb is_num cats) then Raise TypeError
  else if known cats v then Ok (one_hot cats v)
  else match hu with
       | unknown_error => Raise ValueError
       | unknown_ignore => Ok (zeros (length cats))
       end.

Fixpoint encode_blocks (hu : handle_unknown_t) (cats : list (list value))
  (x : list value) : result (list (list Q)) :=
  match cats, x with
  | [], [] => Ok []
  | c :: cats', v :: x' =>
      b ← encode hu c v; bs ← encode_blocks hu cats' x'; Ok (b :: bs)
  | _, _ => Raise ValueError
  end.

(** [transform] of one sample: the blocks side by side. *)
Definition transform (enc : t) (x : list value) : result (list Q) :=
  bs ← encode_blocks (handle_unknown enc) (categories_ enc) x; Ok (concat bs).

Fixpoint insert_sorted (v : value) (l : list value) : list value :=
  match l with
  | [] => [v]
  | c :: l' => if value_leb v c then v :: l else c :: insert_sorted v l'
  end.

(** The sorted distinct values of a column. *)
Definition unique (col : list value) : list value :=
  fold_right (fun v acc => if known acc v then acc else insert_sorted v acc) [] col.

(** A column is encoded when it is uniformly numbers or uniformly strings. *)
Definition uniform (col : list value) : bool :=
  forallb is_num col || forallb (fun v => negb (is_num v)) col.

Definition column (j : nat) (X : list (list value)) : list value :=
  map (fun x => nth j x (VStr "")) X.

Definition columns (n : nat) (X : list (list value)) : list (list value) :=
  map (fun j => column j X) (seq 0 n).

(** [fit]: per column the categories observed. *)
Definition fit (hu : handle_unknown_t) (X : list (list value)) : result t :=
  match X with
  | [] => Raise ValueError
  | x0 :: _ =>
      if forallb (fun x => Nat.eqb (length x) (length x0)) X then
        if forallb uniform (columns (length x0) X)
        then Ok {| handle_unknown := hu;
                   categories_ := map unique (columns (length x0) X) |}
        else Raise TypeError
      else Raise ValueError
  end.

End OneHotEncoder.

(** ** The preprocessor: [ColumnTransformer] (lines 95-102) *)

Definition numeric_features : list string := ["temp"; "rain_1h"; "snow_1h"]%string.
Definition categorical_features : list string :=
  ["holiday"; "weather_main"; "month"; "hour"; "day_of_week"]%string.

Module ColumnTransformer.

(** The fitted transformers [('num', StandardScaler(), numeric_features)]
    and [('cat', OneHotEncoder(...), categorical_features)]; every other
    column is dropped ([remainder='drop'], the default). *)
Record t : Type := mk { num : StandardScaler.t; cat : OneHotEncoder.t }.

(** A cell of a column selected by name ([X.loc[:, columns]]): a missing
    column raises KeyError. *)
Definition get_cell (r : row) (c : string) : result value :=
  match r !! c with
  | Some v => Ok v
  | None => Raise KeyError
  end.

(** The conversion of a cell to float64: a number as it is, a string
    through [float], which raises ValueError on a string that spells no
    number.  A string that spells an infinity is refused by the scaler's
    input check; one that spells a nan passes the scaler and is refused
    by the regressor's input validation, with a ValueError both; [Q] has
    neither, so the model raises at the conversion. *)
Definition to_float (v : value) : result Q :=
  match v with
  | VNum q => Ok q
  | VStr s =>
      match float_of_string s with
      | Finite q => Ok q
      | _ => Raise ValueError
      end
  end.

(** A cell of a numeric column, as a float. *)
Definition get_numeric (r : row) (c : string) : result Q :=
  v ← get_cell r c; to_float v.

(** [transform] of a one-row frame: the standardized numeric fields
    followed by the one-hot blocks.  The transformers run one after the
    other, each on its own columns: the numeric columns are selected and
    scaled, then the categorical columns selected and encoded.  A frame
    with no column at all raises TypeError. *)
Definition transform (ct : t) (r : row) : result (list Q) :=
  if Nat.eqb (size r) 0 then Raise TypeError
  else
    cn ← traverse (get_cell r) numeric_features;
    xn ← traverse to_float cn;
    a ← StandardScaler.transform (num ct) xn;
    xc ← traverse (get_cell r) categorical_features;
    b ← OneHotEncoder.transform (cat ct) xc;
    Ok (a ++ b).

(** [X[numeric_features]] and [X[categorical_features]] of a frame. *)
Definition numeric_frame (X : list row) : result (list (list Q)) :=
  traverse (fun r => traverse (get_numeric r) numeric_features) X.

Definition categorical_frame (X : list row) : result (list (list value)) :=
  traverse (fun r => traverse (get_cell r) categorical_features) X.

Section Fit.
Variable np_sqrt : Q -> Q.

(** [fit]: the columns of both transformers are looked up first, and a
    missing one raises ValueError, as a cell that is no finite number
    does in the scaler; then the scaler and the encoder are fitted. *)
Definition fit (X : list row) : result t :=
  match numeric_frame X, categorical_frame X with
  | Ok Xn, Ok Xc =>
      s ← StandardScaler.fit np_sqrt Xn;
      e ← OneHotEncoder.fit OneHotEncoder.unknown_ignore Xc;
      Ok {| num := s; cat := e |}
  | _, _ => Raise ValueError
  end.

End Fit.

(** Number of columns [transform] produces. *)
Definition n_features_out (ct : t) : nat :=
  (length (StandardScaler.mean_ (num ct))
   + length (concat (OneHotEncoder.categories_ (cat ct))))%nat.

End ColumnTransformer.

(** ** [RandomForestRegressor(n_estimators=100, random_state=42)] (line 107) *)

(** A fitted regression tree, with the per-node statistics the library
    keeps: the node's impurity (the variance of its targets) and its
    weighted number of samples. *)
Inductive tree : Type :=
| Leaf (leaf_value : Q) (impurity : Q) (n_node_samples : nat)
| Node (feature : nat) (threshold : Q) (impurity : Q) (n_node_samples : nat)
       (left right : tree).

Definition node_impurity (t : tree) : Q :=
  match t with Leaf _ i _ => i | Node _ _ i _ _ _ => i end.

Definition node_samples (t : tree) : Q :=
  inject_Z (Z.of_nat
    match t with Leaf _ _ n => n | Node _ _ _ n _ _ => n end).

Fixpoint node_count (t : tree) : nat :=
  match t with
  | Leaf _ _ _ => 1
  | Node _ _ _ _ l r => S (node_count l + node_count r)
  end.

(** A sample goes left when its feature is at most the threshold. *)
Fixpoint tree_predict (t : tree) (x : list Q) : Q :=
  match t with
  | Leaf v _ _ => v
  | Node f th _ _ l r =>
      if Qle_bool (nth f x 0) th then tree_predict l x else tree_predict r x
  end.

(** [v[f] += d] *)
Fixpoint add_at (f : nat) (d : Q) (v : list Q) : list Q :=
  match v, f with
  | [], _ => []
  | a :: v', O => (a + d) :: v'
  | a :: v', S f' => a :: add_at f' d v'
  end.

Fixpoint vadd (u v : list Q) : list Q :=
  match u, v with
  | a :: u', b :: v' => (a + b) :: vadd u' v'
  | _, _ => []
  end.

(** The weighted impurity decrease of every split, accumulated on the
    split's feature. *)
Fixpoint impurity_decreases (nf : nat) (t : tree) : list Q :=
  match t with
  | Leaf _ _ _ => repeat 0 nf
  | Node f _ _ _ l r =>
      add_at f (node_samples t * node_impurity t
                - node_samples l * node_impurity l
                - node_samples r * node_impurity r)
             (vadd (impurity_decreases nf l) (impurity_decreases nf r))
  end.

(** A tree's [feature_importances_]: the decreases relative to the root's
    samples, normalised when their total is positive. *)
Definition tree_feature_importances (nf : nat) (t : tree) : list Q :=
  let imp := map (fun d => d / node_samples t) (impurity_decreases nf t) in
  let normalizer := qsum imp in
  if Qlt_le_dec 0 normalizer then map (fun d => d / normalizer) imp else imp.

Module RandomForestRegressor.

Record t : Type := mk { estimators_ : list tree; n_features_in_ : nat }.

(** The average the forest returns: the trees' predictions are added up
    in float64, one tree after the other, and the sum is divided by the
    number of trees. *)
Definition average (ps : list Q) : Q :=
  binary64 (float_sum ps / inject_Z (Z.of_nat (length ps))).

(** [predict] of one sample: the average of the trees' predictions; a
    sample of another width than the one seen at fit time is rejected.
    Over no trees the average is nan, which no caller accepts ([int(nan)]
    and the metrics raise ValueError); the model raises in its place. *)
Definition predict (rf : t) (x : list Q) : result Q :=
  if negb (Nat.eqb (length x) (n_features_in_ rf)) then Raise ValueError
  else match estimators_ rf with
       | [] => Raise ValueError
       | _ :: _ => Ok (average (map (fun t => tree_predict t x) (estimators_ rf)))
       end.

(** Column-wise mean of a list of vectors of length [nf]. *)
Definition vmean (nf : nat) (vs : list (list Q)) : list Q :=
  map (fun v => v / inject_Z (Z.of_nat (length vs)))
      (fold_right vadd (repeat 0 nf) vs).

(** The [feature_importances_] property: the mean over the trees that
    have a split, divided by its total; all zeros when no tree has a
    split.  [None] stands for the array of nan that the division yields
    when the total is zero. *)
Definition feature_importances_ (rf : t) : option (list Q) :=
  let nf := n_features_in_ rf in
  let all_importances :=
    map (tree_feature_importances nf)
        (List.filter (fun t => Nat.ltb 1 (node_count t)) (estimators_ rf)) in
  match all_importances with
  | [] => Some (repeat 0 nf)
  | _ =>
      let m := vmean nf all_importances in
      if Qeq_bool (qsum m) 0 then None
      else Some (map (fun v => v / qsum m) m)
  end.

Section Fit.
(** The random stream behind [random_state]: draw [i] of tree [k]. *)
Variable rng : nat -> nat -> nat.
(** The splitter of tree [k]: the feature and threshold it picks for a
    node's samples, if it finds a split. *)
Variable best_split : nat -> list (list Q * Q) -> option (nat * Q).

(** The bootstrap resample of tree [k]: as many draws, with replacement,
    as there are samples. *)
Definition bootstrap (k : nat) (D : list (list Q * Q)) : list (list Q * Q) :=
  map (fun i => nth (rng k i mod length D) D ([], 0)) (seq 0 (length D)).

(** Grow a tree on the samples [D]: a node with fewer than two samples or
    with no impurity is a leaf predicting the mean of its targets;
    otherwise the samples are divided at the split and both sides grown. *)
Fixpoint build (k : nat) (fuel : nat) (D : list (list Q * Q)) : tree :=
  let ys := map snd D in
  let leaf := Leaf (mean ys) (variance ys) (length D) in
  match fuel with
  | O => leaf
  | S fuel' =>
      if Nat.ltb (length D) 2 || Qeq_bool (variance ys) 0 then leaf
      else match best_split k D with
           | None => leaf
           | Some (f, th) =>
               let goes_left := fun s : list Q * Q => Qle_bool (nth f (fst s) 0) th in
               let L := List.filter goes_left D in
               let R := List.filter (fun s => negb (goes_left s)) D in
               if Nat.eqb (length L) 0 || Nat.eqb (length R) 0 then leaf
               else Node f th (variance ys) (length D)
                         (build k fuel' L) (build k fuel' R)
           end
  end.

Definition fit (n_estimators : nat) (X : list (list Q)) (y : list Q) : result t :=
  match X with
  | [] => Raise ValueError
  | x0 :: _ =>
      if negb (rectangular (length x0) X) then Raise ValueError
      else if negb (Nat.eqb (length X) (length y)) then Raise ValueError
      else if Nat.eqb n_estimators 0 then Raise ValueError
      else Ok {| estimators_ :=
                   map (fun k => build k (length X) (bootstrap k (combine X y)))
                       (seq 0 n_estimators);
                 n_features_in_ := length x0 |}
  end.

End Fit.

End RandomForestRegressor.

(** ** The model: [Pipeline] of preprocessor and regressor (lines 105-111) *)

Module Pipeline.

Record t : Type := mk {
  preprocessor : ColumnTransformer.t;
  regressor : RandomForestRegressor.t
}.

Definition predict_row (m : t) (r : row) : result Q :=
  x ← ColumnTransformer.transform (preprocessor m) r;
  RandomForestRegressor.predict (regressor m) x.

(** [model.predict(X)]: one prediction per row. *)
Definition predict (m : t) (X : list row) : result (list Q) :=
  traverse (predict_row m) X.

Section Fit.
Variable np_sqrt : Q -> Q.
Variable rng : nat -> nat -> nat.
Variable best_split : nat -> list (list Q * Q) -> option (nat * Q).

(** [model.fit(X_train, y_train)]: fit the preprocessor, transform the
    training rows with it, fit the forest of 100 trees on the result. *)
Definition fit (X : list row) (y : list Q) : result t :=
  pre ← ColumnTransformer.fit np_sqrt X;
  Xt ← traverse (ColumnTransformer.transform pre) X;
  reg ← RandomForestRegressor.fit rng best_split 100 Xt y;
  Ok {| preprocessor := pre; regressor := reg |}.

End Fit.

End Pipeline.

(** ** Features, target and evaluation (lines 84-87, 113-117) *)

Definition feature_columns : list string :=
  ["holiday"; "temp"; "rain_1h"; "snow_1h"; "weather_main";
   "month"; "hour"; "day_of_week"; "is_weekend"; "is_rush_hour"]%string.

(** [df[cols]] on one row: the listed columns and no other; a missing
    column raises KeyError. *)
Fixpoint select (cols : list string) (r : row) : result row :=
  match cols with
  | [] => Ok ∅
  | c :: cols' =>
      match r !! c with
      | Some v => acc ← select cols' r; Ok (<[c := v]> acc)
      | None => Raise KeyError
      end
  end.

(** [features = df[[...]]], row by row. *)
Definition features (r : row) : result row := select feature_columns r.

(** [target = df['traffic_volume']], row by row. *)
Definition target (r : row) : result Q :=
  match r !! "traffic_volume"%string with
  | Some (VNum q) => Ok q
  | Some (VStr _) => Raise ValueError
  | None => Raise KeyError
  end.

Fixpoint squared_errors (y_true y_pred : list Q) : list Q :=
  match y_true, y_pred with
  | a :: t, b :: p => ((a - b) * (a - b)) :: squared_errors t p
  | _, _ => []
  end.

(** [mean_squared_error(y_true, y_pred)] *)
Definition mean_squared_error (y_true y_pred : list Q) : result Q :=
  if negb (Nat.eqb (length y_true) (length y_pred)) then Raise ValueError
  else if Nat.eqb (length y_true) 0 then Raise ValueError
  else Ok (mean (squared_errors y_true y_pred)).

Section Evaluate.
Variable np_sqrt : Q -> Q.


End Evaluate.

(** ** [class TrafficVolumePredictor] (lines 128-161) *)

(** A name of an encoded feature: a numeric column, or
    [<column>_<category>] of a one-hot column. *)
Inductive feature_name : Type :=
| Numeric (c : string)
| Category (c : string) (v : value).

(** Python's [int(x)] on a float: truncation toward zero. *)
Definition int (x : Q) : Z := Z.quot (Qnum x) (Zpos (Qden x)).

(** Python's [round(x)] on a float: the nearest integer, a tie going to
    the even neighbour.  The code does not call it; it is the rounding
    that [predict] is compared with. *)
Definition round (x : Q) : Z :=
  let f := Qfloor x in
  let d := x - inject_Z f in
  if Qlt_le_dec d (1 # 2) then f
  else if Qlt_le_dec (1 # 2) d then (f + 1)%Z
  else if Z.even f then f else (f + 1)%Z.

Fixpoint names_out (cols : list string) (cats : list (list value))
  : result (list feature_name) :=
  match cols, cats with
  | [], [] => Ok []
  | c :: cols', vs :: cats' =>
      ns ← names_out cols' cats'; Ok (map (Category c) vs ++ ns)
  | _, _ => Raise ValueError
  end.

(** Insert an entry into a list sorted by descending score, before the
    first entry that does not score higher. *)
Fixpoint insert_desc (e : feature_name * Q) (l : list (feature_name * Q))
  : list (feature_name * Q) :=
  match l with
  | [] => [e]
  | h :: l' => if Qle_bool (snd h) (snd e) then e :: l else h :: insert_desc e l'
  end.

(** [Series.sort_values(ascending=False)] *)
Definition sort_values_desc (l : list (feature_name * Q)) : list (feature_name * Q) :=
  fold_right insert_desc [] l.

(** [pd.Series(values, index=names)]: as many values as names. *)
Definition Series (values : list Q) (index : list feature_name)
  : result (list (feature_name * Q)) :=
  if Nat.eqb (length values) (length index) then Ok (combine index values)
  else Raise ValueError.

Module TrafficVolumePredictor.

Record t : Type := mk {
  model : Pipeline.t;
  weather_options : list string;
  holiday_options : list string
}.

Section Init.
(** [joblib.load] against the files present: the pipeline pickled at a
    path, or the exception of a missing file. *)
Variable joblib_load : string -> result Pipeline.t.

Definition __init__ (model_path : string) : result t :=
  m ← joblib_load model_path;
  Ok {| model := m;
        weather_options := ["Clear"; "Clouds"; "Rain"; "Snow"; "Mist"; "Drizzle"]%string;
        holiday_options := ["None"; "Christmas"; "New Year"; "Thanksgiving";
                            "Independence Day"]%string |}.

End Init.

(** [predict(self, inputs)]: a one-row frame of the dict, the model's
    prediction for it, truncated and clamped at zero. *)
Definition predict (self : t) (inputs : row) : result Z :=
  let input_df := [inputs] in
  ps ← Pipeline.predict (model self) input_df;
  match ps with
  | prediction :: _ => Ok (Z.max 0 (int prediction))
  | [] => Raise IndexError
  end.

(** [get_feature_importance(self)]: the ten highest importances with
    their feature names, highest first.  [None] stands for a series of
    nan (see [feature_importances_]). *)
Definition get_feature_importance (self : t)
  : result (option (list (feature_name * Q))) :=
  let ohe := ColumnTransformer.cat (Pipeline.preprocessor (model self)) in
  cat_feature_names ← names_out categorical_features (OneHotEncoder.categories_ ohe);
  let all_feature_names := map Numeric numeric_features ++ cat_feature_names in
  match RandomForestRegressor.feature_importances_ (Pipeline.regressor (model self)) with
  | None =>
      if Nat.eqb (RandomForestRegressor.n_features_in_ (Pipeline.regressor (model self)))
                 (length all_feature_names)
      then Ok None else Raise ValueError
  | Some importances =>
      feature_importance ← Series importances all_feature_names;
      Ok (Some (firstn 10 (sort_values_desc feature_importance)))
  end.

End TrafficVolumePredictor.

(** ** Well-formed inputs and artifacts *)

(** A well-formed row: every numeric column holds a finite number, as a
    number or as a string that spells one, and every categorical column
    is present. *)
Definition well_formed (r : row) : bool :=
  forallb (fun c => is_ok (ColumnTransformer.get_numeric r c)) numeric_features
  && forallb (fun c => is_ok (ColumnTransformer.get_cell r c)) categorical_features.

Definition nonzero (s : Q) : bool := negb (Qeq_bool s 0).

Definition ignores_unknown (e : OneHotEncoder.t) : bool :=
  match OneHotEncoder.handle_unknown e with
  | OneHotEncoder.unknown_ignore => true
  | OneHotEncoder.unknown_error => false
  end.

(** The shape of a preprocessor state that [ColumnTransformer.fit]
    produces: statistics for the three numeric columns with usable
    scales, categories for the five categorical columns, unknown
    categories ignored. *)
Definition fitted_preprocessor (ct : ColumnTransformer.t) : bool :=
  let sc := ColumnTransformer.num ct in
  Nat.eqb (length (StandardScaler.mean_ sc)) (length numeric_features)
  && Nat.eqb (length (StandardScaler.scale_ sc)) (length numeric_features)
  && forallb nonzero (StandardScaler.scale_ sc)
  && Nat.eqb (length (OneHotEncoder.categories_ (ColumnTransformer.cat ct)))
             (length categorical_features)
  && ignores_unknown (ColumnTransformer.cat ct).

(** A cell can be looked up in the categories of its column: it is a
    string, or the categories are numbers. *)
Definition compatible (cats : list value) (v : value) : bool :=
  negb (is_num v) || forallb is_num cats.

(** A row the preprocessor can read: it is well formed and no
    categorical cell is a number where the categories of its column are
    not. *)
Definition readable (ct : ColumnTransformer.t) (r : row) : bool :=
  well_formed r
  && forallb (fun cc : string * list value =>
                match r !! fst cc with
                | Some v => compatible (snd cc) v
                | None => false
                end)
             (combine categorical_features
                      (OneHotEncoder.categories_ (ColumnTransformer.cat ct))).


(** The regressor expects as many features as the preprocessor produces. *)
Definition matching (m : Pipeline.t) : bool :=
  Nat.eqb (RandomForestRegressor.n_features_in_ (Pipeline.regressor m))
          (ColumnTransformer.n_features_out (Pipeline.preprocessor m)).

(** No column of the fitted matrix counts as constant without being
    constant: where the scale is 1 in place of the standard deviation,
    the variance is 0. *)
Definition scales_are_deviations (st : StandardScaler.t) (n_samples : nat) : Prop :=
  forall j, (j < length (StandardScaler.mean_ st))%nat ->
    StandardScaler.is_constant_feature (nth j (StandardScaler.var_ st) 0)
      (nth j (StandardScaler.mean_ st) 0) n_samples = true ->
    nth j (StandardScaler.var_ st) 0 == 0.


(** Every categorical column of a frame is uniformly numbers or
    uniformly strings. *)
Definition uniform_categories (X : list row) : bool :=
  match ColumnTransformer.categorical_frame X with
  | Ok Xc =>
      forallb OneHotEncoder.uniform
              (OneHotEncoder.columns (length categorical_features) Xc)
  | Raise _ => false
  end.

(** A frame the pipeline can be fitted on: at least one row, every row
    well formed, every categorical column uniformly typed. *)
Definition trainable (X : list row) : bool :=
  negb (Nat.eqb (length X) 0) && forallb well_formed X && uniform_categories X.

(** Two rows that differ at most in column [c]. *)
Definition agree_except (c : string) (r1 r2 : row) : Prop :=
  forall c' : string, c' <> c -> r1 !! c' = r2 !! c'.

(** ** Concrete data *)

(** The script's [example_input] (lines 169-180). *)
Definition example_input : row :=
  <["holiday" := VStr "None"]> (<["temp" := VNum (45 # 2)]>
  (<["rain_1h" := VNum 0]> (<["snow_1h" := VNum 0]>
  (<["weather_main" := VStr "Clouds"]> (<["month" := VInt 6]>
  (<["hour" := VInt 17]> (<["day_of_week" := VInt 2]>
  (<["is_weekend" := VInt 0]> (<["is_rush_hour" := VInt 1]> ∅))))))))).

(** The first observation of the data set: 2012-10-02 09:00:00. *)
Definition first_timestamp : Timestamp := mkTimestamp 2012 10 2 9 0 0.

(** A rounded-down square root on the rationals, standing in for
    [np.sqrt] where a concrete one is needed:
    [floor (sqrt (n * d) * 2^26) / (d * 2^26)] for [n / d]. *)
Definition sqrt_down (x : Q) : Q :=
  Z.sqrt (Qnum x * Zpos (Qden x) * 4 ^ 26) # (Qden x * 2 ^ 26).

(** A random stream that draws every sample once, and a splitter that
    finds no split. *)
Definition rng_identity (k i : nat) : nat := i.
Definition no_split (k : nat) (D : list (list Q * Q)) : option (nat * Q) := None.

(** Four observations under the conditions of [example_input], with
    traffic volumes 1, 2, 2, 2. *)
Definition small_frame : list row :=
  [example_input; example_input; example_input; example_input].
Definition small_target : list Q := [1; 2; 2; 2].

(** A preprocessor state fitted where every observation is
    [example_input]: constant numeric columns (scale 1) and one category
    per categorical column; eight output columns. *)
Definition example_preprocessor : ColumnTransformer.t :=
  {| ColumnTransformer.num :=
       {| StandardScaler.mean_ := [45 # 2; 0; 0];
          StandardScaler.var_ := [0; 0; 0];
          StandardScaler.scale_ := [1; 1; 1] |};
     ColumnTransformer.cat :=
       {| OneHotEncoder.handle_unknown := OneHotEncoder.unknown_ignore;
          OneHotEncoder.categories_ :=
            [[VStr "None"]; [VStr "Clouds"]; [VInt 6]; [VInt 17]; [VInt 2]] |} |}.

(** A forest of one leaf. *)
Definition constant_forest (v : Q) (n_features : nat) : RandomForestRegressor.t :=
  {| RandomForestRegressor.estimators_ := [Leaf v 0 1];
     RandomForestRegressor.n_features_in_ := n_features |}.

(** An artifact whose regressor answers -7/2 for every sample. *)
Definition negative_model : Pipeline.t :=
  {| Pipeline.preprocessor := example_preprocessor;
     Pipeline.regressor := constant_forest (-7 # 2) 8 |}.

(** An artifact whose regressor expects three features while its
    preprocessor produces eight. *)
Definition mismatched_model : Pipeline.t :=
  {| Pipeline.preprocessor := example_preprocessor;
     Pipeline.regressor := constant_forest 3000 3 |}.

(** A file system holding one pickled pipeline. *)
Definition single_file (path : string) (m : Pipeline.t) (p : string)
  : result Pipeline.t :=
  if String.eqb p path then Ok m else Raise FileNotFoundError.

(** A preprocessor state with eight categories: eleven output columns. *)
Definition eleven_column_preprocessor : ColumnTransformer.t :=
  {| ColumnTransformer.num :=
       {| StandardScaler.mean_ := [45 # 2; 0; 0];
          StandardScaler.var_ := [4; 0; 0];
          StandardScaler.scale_ := [2; 1; 1] |};
     ColumnTransformer.cat :=
       {| OneHotEncoder.handle_unknown := OneHotEncoder.unknown_ignore;
          OneHotEncoder.categories_ :=
            [[VStr "Christmas"; VStr "None"]; [VStr "Clear"; VStr "Clouds"];
             [VInt 6; VInt 7]; [VInt 17]; [VInt 2]] |} |}.

(** A tree with one split, on feature [j] at threshold 0, grown on two
    samples with targets 0 and 2. *)
Definition stump (j : nat) : tree := Node j 0 1 2 (Leaf 0 0 1) (Leaf 2 0 1).

(** An artifact of eleven features whose forest has one stump per
    feature. *)
Definition eleven_feature_model : Pipeline.t :=
  {| Pipeline.preprocessor := eleven_column_preprocessor;
     Pipeline.regressor :=
       {| RandomForestRegressor.estimators_ := map stump (seq 0 11);
          RandomForestRegressor.n_features_in_ := 11 |} |}.

(** A list of scores is in descending order. *)
Definition descending (l : list (feature_name * Q)) : Prop :=
  StronglySorted (fun a b => snd b <= snd a) l.

(** Some tree of the forest has a split. *)
Definition has_split (rf : RandomForestRegressor.t) : Prop :=
  exists t, In t (RandomForestRegressor.estimators_ rf) /\ (1 < node_count t)%nat.

(** The scores of a series. *)
Definition scores (l : list (feature_name * Q)) : list Q := map snd l.

(** Two observations that differ in temperature and hour, and the
    preprocessor fitted on them. *)
Definition varied_frame : list row :=
  [example_input; <["temp" := VNum 10]> (<["hour" := VInt 3]> example_input)].

Definition varied_preprocessor : ColumnTransformer.t :=
  match ColumnTransformer.fit sqrt_down varied_frame with
  | Ok ct => ct
  | Raise _ => example_preprocessor
  end.

(** A training matrix whose second column is constant. *)
Definition small_matrix : list (list Q) := [[45 # 2; 0; 1]; [10; 0; 3]].

(** A column of two neighbouring floats: 1e8 and the next float after
    it. *)
Definition near_constant_matrix : list (list Q) :=
  [[100000000]; [100000000 + (1 # 2 ^ 26)]].




(** ** Further parts of the script *)


(** The columns that line 32-36 add. *)
Definition derived_columns : list string :=
  ["hour"; "day_of_week"; "month"; "is_weekend"; "is_rush_hour"]%string.

(** The columns of the data set that [features] keeps. *)
Definition raw_feature_columns : list string :=
  ["holiday"; "temp"; "rain_1h"; "snow_1h"; "weather_main"]%string.

(** No two categories are equal. *)
Fixpoint distinct (cats : list value) : bool :=
  match cats with
  | [] => true
  | c :: cats' => negb (OneHotEncoder.known cats' c) && distinct cats'
  end.

(** [X[ind]]: the rows at the given positions; a position outside the
    frame raises IndexError. *)
Definition take_rows {A : Type} (X : list A) (ind : list nat) : result (list A) :=
  traverse (fun i => match nth_error X i with
                     | Some x => Ok x
                     | None => Raise IndexError
                     end) ind.

(** The size of the test set for [test_size=0.2]: [ceil(0.2 * n)].  (The
    float product [0.2 * n] rounds to [n / 5] exactly when 5 divides [n]
    and otherwise stays strictly between the same two integers as
    [n / 5], so the ceiling is that of the exact quotient.) *)
Definition n_test_samples (n : nat) : nat :=
  Z.to_nat (Qceiling ((1 # 5) * inject_Z (Z.of_nat n))).

Section Split.
(** [rng.permutation(n)] for the seeded generator. *)
Variable permutation : nat -> list nat.

(** Lines 90-92, [train_test_split(features, target, test_size=0.2,
    random_state=42)]: the first [n_test] positions of the permutation
    are the test set, the rest the training set; an empty training set is
    refused.  The result is [(X_train, X_test, y_train, y_test)]. *)
Definition train_test_split {A B : Type} (X : list A) (y : list B)
  : result (list A * list A * list B * list B) :=
  let n := length X in
  if negb (Nat.eqb (length y) n) then Raise ValueError
  else
    let n_test := n_test_samples n in
    let n_train := (n - n_test)%nat in
    if Nat.eqb n_train 0 then Raise ValueError
    else
      let p := permutation n in
      let ind_test := firstn n_test p in
      let ind_train := firstn n_train (skipn n_test p) in
      X_train ← take_rows X ind_train;
      X_test ← take_rows X ind_test;
      y_train ← take_rows y ind_train;
      y_test ← take_rows y ind_test;
      Ok (X_train, X_test, y_train, y_test).

End Split.


Section Script.
Variable np_sqrt : Q -> Q.
Variable rng : nat -> nat -> nat.
Variable best_split : nat -> list (list Q * Q) -> option (nat * Q).
Variable permutation : nat -> list nat.


End Script.

(** Every leaf value of a tree lies between two bounds. *)
Fixpoint leaves_within (lo hi : Q) (t : tree) : Prop :=
  match t with
  | Leaf v _ _ => lo <= v /\ v <= hi
  | Node _ _ _ _ l r => leaves_within lo hi l /\ leaves_within lo hi r
  end.

(** The samples that the leaves of a tree hold, in total. *)
Fixpoint leaf_samples (t : tree) : nat :=
  match t with
  | Leaf _ _ n => n
  | Node _ _ _ _ l r => (leaf_samples l + leaf_samples r)%nat
  end.

(** The reversed order, a permutation to split by. *)
Definition reversed (n : nat) : list nat := rev (seq 0 n).

(** Two categorical observations: holiday and hour. *)
Definition small_categories : list (list value) :=
  [[VStr "None"; VInt 17]; [VStr "None"; VInt 3]].

(** Traffic volumes for [varied_frame], the model fitted on them, and its
    output for [example_input]. *)
Definition varied_target : list Q := [4000; 300].

Definition varied_model : Pipeline.t :=
  match Pipeline.fit sqrt_down rng_identity no_split varied_frame varied_target with
  | Ok m => m
  | Raise _ => negative_model
  end.

Definition varied_output : Q :=
  match Pipeline.predict varied_model [example_input] with
  | Ok (v :: _) => v
  | _ => 0
  end.

(** A splitter that always splits on the standardized temperature at 0,
    and the model fitted with it on [varied_frame]: every tree separates
    the two observations. *)
Definition split_on_temp (k : nat) (D : list (list Q * Q)) : option (nat * Q) :=
  Some (0%nat, 0).

Definition split_model : Pipeline.t :=
  match Pipeline.fit sqrt_down rng_identity split_on_temp varied_frame varied_target with
  | Ok m => m
  | Raise _ => negative_model
  end.

(** ** Results: elementary facts *)

Lemma bind_ok {A B : Type} (m : result A) (f : A -> result B) (b : B) :
  (x ← m; f x) = Ok b -> exists a, m = Ok a /\ f a = Ok b.
Proof. destruct m as [a|e]; simpl; intros H; [eauto | discriminate]. Qed.

Ltac inv_bind H :=
  let a := fresh "a" in
  let Ha := fresh "Ha" in
  apply bind_ok in H; destruct H as (a & Ha & H).

Lemma traverse_length {A B : Type} (f : A -> result B) (l : list A) (ys : list B) :
  traverse f l = Ok ys -> length ys = length l.
Proof.
  revert ys; induction l as [|x l IH]; simpl; intros ys H.
  - inversion H; reflexivity.
  - destruct (f x) as [y|e]; simpl in H; [|discriminate].
    destruct (traverse f l) as [zs|e]; simpl in H; [|discriminate].
    inversion H; subst; simpl; f_equal; apply IH; reflexivity.
Qed.

Lemma traverse_ext {A B : Type} (f g : A -> result B) (l : list A) :
  (forall x, In x l -> f x = g x) -> traverse f l = traverse g l.
Proof.
  induction l as [|x l IH]; simpl; intros H; [reflexivity|].
  rewrite (H x) by (left; reflexivity).
  rewrite IH by (intros y Hy; apply H; right; exact Hy).
  reflexivity.
Qed.

Lemma traverse_ok_all {A B : Type} (f : A -> result B) (l : list A) :
  (forall x, In x l -> is_ok (f x) = true) -> exists ys, traverse f l = Ok ys.
Proof.
  induction l as [|x l IH]; simpl; intros H; [eauto|].
  destruct (f x) as [y|e] eqn:E.
  - destruct IH as [ys Hys]; [intros z Hz; apply H; right; exact Hz|].
    rewrite Hys; simpl; eauto.
  - specialize (H x (or_introl eq_refl)); rewrite E in H; discriminate.
Qed.

Lemma traverse_In {A B : Type} (f : A -> result B) (l : list A) (ys : list B) (x : A) :
  traverse f l = Ok ys -> In x l -> exists y, f x = Ok y /\ In y ys.
Proof.
  revert ys; induction l as [|a l IH]; simpl; intros ys H Hin; [contradiction|].
  destruct (f a) as [y|e] eqn:E; simpl in H; [|discriminate].
  destruct (traverse f l) as [zs|e]; simpl in H; [|discriminate].
  inversion H; subst; clear H.
  destruct Hin as [->|Hin].
  - exists y; split; [exact E | left; reflexivity].
  - destruct (IH zs eq_refl Hin) as (y' & Hy' & Hin').
    exists y'; split; [exact Hy' | right; exact Hin'].
Qed.

(** ** Feature engineering *)

Lemma dt_dayofweek_range (t : Timestamp) : (0 <= dt_dayofweek t <= 6)%Z.
Proof.
  unfold dt_dayofweek; cbv zeta.
  match goal with
  | |- (0 <= ?a mod 7 <= 6)%Z => pose proof (Z.mod_pos_bound a 7 ltac:(lia)); lia
  end.
Qed.

Lemma VInt_inj (a b : Z) : VInt a = VInt b -> a = b.
Proof. unfold VInt, inject_Z; intros H; inversion H; reflexivity. Qed.

Lemma is_weekend_iff (x : Z) : (0 <= x <= 6)%Z ->
  (is_weekend x = 1%Z <-> x = 5%Z \/ x = 6%Z).
Proof.
  intros Hx; unfold is_weekend.
  destruct (Z.geb_spec x 5) as [Hge|Hlt]; split; intros Hq; try lia; discriminate.
Qed.

Lemma is_rush_hour_iff (x : Z) :
  is_rush_hour x = 1%Z <-> In x [7; 8; 9; 16; 17; 18]%Z.
Proof.
  unfold is_rush_hour; simpl.
  destruct (Z.leb_spec 7 x) as [H1|H1], (Z.leb_spec x 9) as [H2|H2],
    (Z.leb_spec 16 x) as [H3|H3], (Z.leb_spec x 18) as [H4|H4];
    simpl; split; intros Hq; try lia; try discriminate; try reflexivity.
Qed.

Lemma flag_is_bit_weekend (x : Z) : is_weekend x = 0%Z \/ is_weekend x = 1%Z.
Proof. unfold is_weekend; destruct (x >=? 5)%Z; auto. Qed.

Lemma flag_is_bit_rush (x : Z) : is_rush_hour x = 0%Z \/ is_rush_hour x = 1%Z.
Proof. unfold is_rush_hour; destruct (_ || _)%bool; auto. Qed.

(** C4.  For every valid timestamp the derived columns hold the hour
    (0..23) and the day of the week (0..6) of the timestamp, the
    [is_weekend] flag is 1 exactly when the day of the week is 5 or 6
    and is 0 otherwise, and the [is_rush_hour] flag is 1 exactly when
    the hour is one of 7, 8, 9, 16, 17, 18 and is 0 otherwise. *)
Theorem derived_flags_iff (t : Timestamp) (r : row) :
  valid_timestamp t = true ->
  let r' := feature_engineering t r in
  let dow := dt_dayofweek t in
  let h := dt_hour t in
  r' !! "day_of_week"%string = Some (VInt dow)
  /\ r' !! "hour"%string = Some (VInt h)
  /\ (0 <= dow <= 6)%Z /\ (0 <= h <= 23)%Z
  /\ (r' !! "is_weekend"%string = Some (VInt 1) <-> dow = 5%Z \/ dow = 6%Z)
  /\ (r' !! "is_weekend"%string = Some (VInt 0) <-> ~ (dow = 5%Z \/ dow = 6%Z))
  /\ (r' !! "is_rush_hour"%string = Some (VInt 1) <-> In h [7; 8; 9; 16; 17; 18]%Z)
  /\ (r' !! "is_rush_hour"%string = Some (VInt 0) <-> ~ In h [7; 8; 9; 16; 17; 18]%Z).
Proof.
  intros Hv r' dow h.
  assert (Hd : (0 <= dow <= 6)%Z) by apply dt_dayofweek_range.
  assert (Hh : (0 <= h <= 23)%Z).
  { unfold valid_timestamp in Hv. subst h; unfold dt_hour.
    repeat (apply andb_prop in Hv; destruct Hv as [Hv ?]). lia. }
  assert (Ew : r' !! "is_weekend"%string = Some (VInt (is_weekend dow))).
  { subst r'; unfold feature_engineering; cbv zeta.
    rewrite lookup_insert_ne by discriminate. apply lookup_insert_eq. }
  assert (Er : r' !! "is_rush_hour"%string = Some (VInt (is_rush_hour h))).
  { subst r'; unfold feature_engineering; cbv zeta. apply lookup_insert_eq. }
  pose proof (is_weekend_iff dow Hd) as Hw.
  pose proof (is_rush_hour_iff h) as Hr.
  repeat split; try lia.
  - subst r'; unfold feature_engineering; cbv zeta.
    do 3 (rewrite lookup_insert_ne by discriminate). apply lookup_insert_eq.
  - subst r'; unfold feature_engineering; cbv zeta.
    do 4 (rewrite lookup_insert_ne by discriminate). apply lookup_insert_eq.
  - rewrite Ew; intros H; apply Hw, VInt_inj; congruence.
  - rewrite Ew; intros H; apply Hw in H; rewrite H; reflexivity.
  - rewrite Ew; intros H H'; apply Hw in H'; rewrite H' in H;
      inversion H.
  - rewrite Ew; intros H. destruct (flag_is_bit_weekend dow) as [E|E];
      [rewrite E; reflexivity | exfalso; apply H, Hw, E].
  - rewrite Er; intros H; apply Hr, VInt_inj; congruence.
  - rewrite Er; intros H; apply Hr in H; rewrite H; reflexivity.
  - rewrite Er; intros H H'; apply Hr in H'; rewrite H' in H; inversion H.
  - rewrite Er; intros H. destruct (flag_is_bit_rush h) as [E|E];
      [rewrite E; reflexivity | exfalso; apply H, Hr, E].
Qed.

Lemma derived_flags_iff_witness :
  valid_timestamp first_timestamp = true
  /\ feature_engineering first_timestamp example_input !! "is_rush_hour"%string
     = Some (VInt 1).
Proof.
  split; [reflexivity|].
  apply (derived_flags_iff first_timestamp example_input eq_refl).
  vm_compute; tauto.
Defined.

(** ** The preprocessor on well-formed rows *)

Lemma traverse_nth {A B : Type} (f : A -> result B) (l : list A) (ys : list B)
  (j : nat) (a : A) :
  traverse f l = Ok ys -> nth_error l j = Some a ->
  exists y, nth_error ys j = Some y /\ f a = Ok y.
Proof.
  revert ys j; induction l as [|x l IH]; intros ys j H Hj.
  - destruct j; discriminate.
  - simpl in H. destruct (f x) as [y|e] eqn:E; simpl in H; [|discriminate].
    destruct (traverse f l) as [zs|e]; simpl in H; [|discriminate].
    inversion H; subst; clear H.
    destruct j as [|j]; simpl in *.
    + inversion Hj; subst; eauto.
    + eapply IH; eauto.
Qed.

Lemma well_formed_numeric (r : row) :
  well_formed r = true ->
  exists xn, traverse (ColumnTransformer.get_numeric r) numeric_features = Ok xn
             /\ length xn = length numeric_features.
Proof.
  intros H; apply andb_prop in H; destruct H as [H _].
  destruct (traverse_ok_all (ColumnTransformer.get_numeric r) numeric_features) as [xn Hx].
  - intros c Hc. rewrite forallb_forall in H. apply H, Hc.
  - exists xn; split; [exact Hx | eapply traverse_length; eauto].
Qed.

Lemma well_formed_cells (r : row) :
  well_formed r = true ->
  exists xc, traverse (ColumnTransformer.get_cell r) categorical_features = Ok xc
             /\ length xc = length categorical_features.
Proof.
  intros H; apply andb_prop in H; destruct H as [_ H].
  destruct (traverse_ok_all (ColumnTransformer.get_cell r) categorical_features) as [xc Hx].
  - intros c Hc. rewrite forallb_forall in H. apply H, Hc.
  - exists xc; split; [exact Hx | eapply traverse_length; eauto].
Qed.

Lemma standardize_all_ok (ms ss xs : list Q) :
  length ms = length xs -> length ss = length xs -> forallb nonzero ss = true ->
  exists v, StandardScaler.standardize_all ms ss xs = Ok v /\ length v = length xs.
Proof.
  revert ss xs; induction ms as [|m ms IH]; intros [|s ss] [|x xs] Hm Hs Hnz;
    simpl in *; try discriminate.
  - exists []; split; reflexivity.
  - apply andb_prop in Hnz; destruct Hnz as [Hz Hnz].
    unfold StandardScaler.standardize. unfold nonzero in Hz.
    destruct (Qeq_bool s 0); [discriminate|]. simpl.
    destruct (IH ss xs) as (v & Hv & Hl); [lia | lia | exact Hnz |].
    rewrite Hv; simpl. eexists; split; [reflexivity | simpl; lia].
Qed.

Lemma encode_ignore_ok (cats : list value) (v : value) :
  compatible cats v = true ->
  exists b, OneHotEncoder.encode OneHotEncoder.unknown_ignore cats v = Ok b
            /\ length b = length cats.
Proof.
  intros Hc. unfold OneHotEncoder.encode.
  assert (E : is_num v && negb (forallb is_num cats) = false).
  { unfold compatible in Hc. destruct (is_num v), (forallb is_num cats);
      try reflexivity; discriminate. }
  rewrite E. destruct (OneHotEncoder.known cats v).
  - eexists; split; [reflexivity|]. unfold OneHotEncoder.one_hot. apply length_map.
  - eexists; split; [reflexivity|]. unfold OneHotEncoder.zeros. apply repeat_length.
Qed.

Lemma encode_blocks_ok (cats : list (list value)) (x : list value) :
  Forall2 (fun c v => compatible c v = true) cats x ->
  exists bs, OneHotEncoder.encode_blocks OneHotEncoder.unknown_ignore cats x = Ok bs
             /\ length (concat bs) = length (concat cats).
Proof.
  induction 1 as [|c v cats x Hcv _ IH]; simpl.
  - exists []; split; reflexivity.
  - destruct (encode_ignore_ok c v Hcv) as (b & Hb & Hl). rewrite Hb; simpl.
    destruct IH as (bs & Hbs & Hls). rewrite Hbs; simpl.
    eexists; split; [reflexivity|]. simpl. rewrite !length_app. lia.
Qed.

Lemma encode_blocks_nth (hu : OneHotEncoder.handle_unknown_t)
  (cats : list (list value)) (x : list value) (bs : list (list Q))
  (j : nat) (c : list value) (v : value) :
  OneHotEncoder.encode_blocks hu cats x = Ok bs ->
  nth_error cats j = Some c -> nth_error x j = Some v ->
  exists b, nth_error bs j = Some b /\ OneHotEncoder.encode hu c v = Ok b.
Proof.
  revert x bs j; induction cats as [|c0 cats IH]; intros [|v0 x] bs j H Hc Hv;
    simpl in H; try discriminate.
  - destruct j; discriminate.
  - destruct (OneHotEncoder.encode hu c0 v0) as [b0|e] eqn:E; simpl in H; [|discriminate].
    destruct (OneHotEncoder.encode_blocks hu cats x) as [bs0|e] eqn:E2; simpl in H; [|discriminate].
    inversion H; subst; clear H.
    destruct j as [|j]; simpl in *.
    + inversion Hc; inversion Hv; subst. eauto.
    + eapply IH; eauto.
Qed.

Lemma fitted_preprocessor_parts (ct : ColumnTransformer.t) :
  fitted_preprocessor ct = true ->
  length (StandardScaler.mean_ (ColumnTransformer.num ct)) = length numeric_features
  /\ length (StandardScaler.scale_ (ColumnTransformer.num ct)) = length numeric_features
  /\ forallb nonzero (StandardScaler.scale_ (ColumnTransformer.num ct)) = true
  /\ length (OneHotEncoder.categories_ (ColumnTransformer.cat ct)) = length categorical_features
  /\ OneHotEncoder.handle_unknown (ColumnTransformer.cat ct) = OneHotEncoder.unknown_ignore.
Proof.
  unfold fitted_preprocessor; cbv zeta; intros H.
  repeat (apply andb_prop in H; destruct H as [H ?]).
  repeat split; try (apply Nat.eqb_eq; assumption); try assumption.
  unfold ignores_unknown in *.
  destruct (OneHotEncoder.handle_unknown (ColumnTransformer.cat ct)); [discriminate | reflexivity].
Qed.

Lemma traverse_bind {A B C : Type} (f : A -> result B) (g : B -> result C)
  (l : list A) (zs : list C) :
  traverse (fun a => b ← f a; g b) l = Ok zs <->
  exists ys, traverse f l = Ok ys /\ traverse g ys = Ok zs.
Proof.
  revert zs; induction l as [|a l IH]; intros zs; cbn [traverse].
  - split.
    + intros H. exists []. split; [reflexivity | exact H].
    + intros (ys & Hy & Hz). inversion Hy; subst. exact Hz.
  - split.
    + intros H. destruct (f a) as [b|e]; cbn [mbind result_bind] in H; [|discriminate].
      destruct (g b) as [c|e] eqn:Eg; cbn [mbind result_bind] in H; [|discriminate].
      destruct (traverse (fun a0 => b0 ← f a0; g b0) l) as [zs'|e] eqn:Et;
        cbn [mbind result_bind] in H; [|discriminate].
      destruct (proj1 (IH zs') eq_refl) as (ys & Hy & Hz).
      exists (b :: ys). rewrite Hy. cbn [mbind result_bind traverse].
      rewrite Eg, Hz. cbn [mbind result_bind]. split; [reflexivity | exact H].
    + intros (ys & Hy & Hz).
      destruct (f a) as [b|e]; cbn [mbind result_bind] in Hy; [|discriminate].
      destruct (traverse f l) as [ys'|e] eqn:Et; cbn [mbind result_bind] in Hy;
        [|discriminate].
      inversion Hy; subst ys; clear Hy. cbn [traverse mbind result_bind] in Hz |- *.
      destruct (g b) as [c|e]; cbn [mbind result_bind] in Hz |- *; [|discriminate].
      destruct (traverse g ys') as [zs'|e] eqn:Eg; cbn [mbind result_bind] in Hz;
        [|discriminate].
      rewrite (proj2 (IH zs')) by (exists ys'; split; [reflexivity | exact Eg]).
      exact Hz.
Qed.

Lemma size_nonzero (r : row) (c : string) (v : value) :
  r !! c = Some v -> Nat.eqb (size r) 0 = false.
Proof.
  intros H. apply Nat.eqb_neq. intros E. apply map_size_empty_iff in E.
  rewrite E, lookup_empty in H. discriminate.
Qed.

(** The transform of a row whose cells of both kinds can be read. *)
Lemma transform_staged (ct : ColumnTransformer.t) (r : row) (xn : list Q)
  (xc : list value) :
  traverse (ColumnTransformer.get_numeric r) numeric_features = Ok xn ->
  traverse (ColumnTransformer.get_cell r) categorical_features = Ok xc ->
  ColumnTransformer.transform ct r
  = (a ← StandardScaler.transform (ColumnTransformer.num ct) xn;
     b ← OneHotEncoder.transform (ColumnTransformer.cat ct) xc;
     Ok (a ++ b)).
Proof.
  intros Hn Hc. unfold ColumnTransformer.transform.
  destruct (r !! "holiday"%string) as [v|] eqn:Ev.
  - rewrite (size_nonzero r _ v Ev).
    apply (proj1 (traverse_bind (ColumnTransformer.get_cell r) ColumnTransformer.to_float
                    numeric_features xn)) in Hn.
    destruct Hn as (cn & Hcn & Hxn). rewrite Hcn. cbn [mbind result_bind].
    rewrite Hxn. cbn [mbind result_bind].
    destruct (StandardScaler.transform (ColumnTransformer.num ct) xn);
      cbn [mbind result_bind]; [|reflexivity].
    rewrite Hc. reflexivity.
  - exfalso. unfold categorical_features in Hc. cbn [traverse] in Hc.
    assert (E : ColumnTransformer.get_cell r "holiday" = Raise KeyError)
      by (unfold ColumnTransformer.get_cell; rewrite Ev; reflexivity).
    rewrite E in Hc. discriminate.
Qed.

Lemma standardize_all_length (ms ss xs v : list Q) :
  StandardScaler.standardize_all ms ss xs = Ok v -> length v = length ms.
Proof.
  revert ss xs v; induction ms as [|m ms IH]; intros [|s ss] [|x xs] v H;
    simpl in H; try discriminate.
  - inversion H; reflexivity.
  - destruct (StandardScaler.standardize m s x); cbn [mbind result_bind] in H;
      [|discriminate].
    destruct (StandardScaler.standardize_all ms ss xs) as [v'|e] eqn:E;
      cbn [mbind result_bind] in H; [|discriminate].
    inversion H; subst. simpl. f_equal. apply (IH ss xs v' E).
Qed.

Lemma encode_length (hu : OneHotEncoder.handle_unknown_t) (cats : list value)
  (v : value) (b : list Q) :
  OneHotEncoder.encode hu cats v = Ok b -> length b = length cats.
Proof.
  unfold OneHotEncoder.encode.
  destruct (is_num v && negb (forallb is_num cats)); [discriminate|].
  destruct (OneHotEncoder.known cats v).
  - intros H; inversion H. unfold OneHotEncoder.one_hot. apply length_map.
  - destruct hu; [discriminate|]. intros H; inversion H.
    unfold OneHotEncoder.zeros. apply repeat_length.
Qed.

Lemma encode_blocks_length (hu : OneHotEncoder.handle_unknown_t)
  (cats : list (list value)) (x : list value) (bs : list (list Q)) :
  OneHotEncoder.encode_blocks hu cats x = Ok bs ->
  length bs = length cats /\ length (concat bs) = length (concat cats).
Proof.
  revert x bs; induction cats as [|c cats IH]; intros [|v x] bs H; simpl in H;
    try discriminate.
  - inversion H; split; reflexivity.
  - destruct (OneHotEncoder.encode hu c v) as [b|e] eqn:E; cbn [mbind result_bind] in H;
      [|discriminate].
    destruct (OneHotEncoder.encode_blocks hu cats x) as [bs'|e] eqn:E2;
      cbn [mbind result_bind] in H; [|discriminate].
    inversion H; subst. destruct (IH x bs' E2) as [L1 L2].
    apply encode_length in E. simpl. rewrite !length_app. split; lia.
Qed.

(** What a successful transform is made of. *)
Lemma transform_inv (ct : ColumnTransformer.t) (r : row) (x : list Q) :
  ColumnTransformer.transform ct r = Ok x ->
  exists xn xc a bs,
    traverse (ColumnTransformer.get_numeric r) numeric_features = Ok xn
    /\ traverse (ColumnTransformer.get_cell r) categorical_features = Ok xc
    /\ StandardScaler.transform (ColumnTransformer.num ct) xn = Ok a
    /\ OneHotEncoder.encode_blocks
         (OneHotEncoder.handle_unknown (ColumnTransformer.cat ct))
         (OneHotEncoder.categories_ (ColumnTransformer.cat ct)) xc = Ok bs
    /\ x = a ++ concat bs.
Proof.
  unfold ColumnTransformer.transform. intros H.
  destruct (Nat.eqb (size r) 0); [discriminate|].
  destruct (traverse (ColumnTransformer.get_cell r) numeric_features) as [cn|e] eqn:Ecn;
    cbn [mbind result_bind] in H; [|discriminate].
  destruct (traverse ColumnTransformer.to_float cn) as [xn|e] eqn:Exn;
    cbn [mbind result_bind] in H; [|discriminate].
  destruct (StandardScaler.transform (ColumnTransformer.num ct) xn) as [a|e] eqn:Ea;
    cbn [mbind result_bind] in H; [|discriminate].
  destruct (traverse (ColumnTransformer.get_cell r) categorical_features) as [xc|e] eqn:Exc;
    cbn [mbind result_bind] in H; [|discriminate].
  unfold OneHotEncoder.transform in H.
  destruct (OneHotEncoder.encode_blocks _ _ xc) as [bs|e] eqn:Eb;
    cbn [mbind result_bind] in H; [|discriminate].
  inversion H; subst x; clear H.
  exists xn, xc, a, bs. split.
  { apply (proj2 (traverse_bind (ColumnTransformer.get_cell r) ColumnTransformer.to_float
                    numeric_features xn)). exists cn. split; assumption. }
  split; [reflexivity|]. split; [exact Ea|]. split; [exact Eb | reflexivity].
Qed.

Lemma transform_length (ct : ColumnTransformer.t) (r : row) (x : list Q) :
  ColumnTransformer.transform ct r = Ok x ->
  length x = ColumnTransformer.n_features_out ct.
Proof.
  intros H. destruct (transform_inv ct r x H) as (xn & xc & a & bs & _ & _ & Ha & Hb & ->).
  unfold StandardScaler.transform in Ha. apply standardize_all_length in Ha.
  apply encode_blocks_length in Hb. destruct Hb as [_ Hb].
  unfold ColumnTransformer.n_features_out. rewrite length_app. lia.
Qed.

Lemma readable_well_formed (ct : ColumnTransformer.t) (r : row) :
  readable ct r = true -> well_formed r = true.
Proof. unfold readable. intros H. apply andb_prop in H. apply H. Qed.

Lemma cells_compatible (r : row) (cols : list string) (catss : list (list value))
  (xc : list value) :
  traverse (ColumnTransformer.get_cell r) cols = Ok xc ->
  length catss = length cols ->
  forallb (fun cc : string * list value =>
             match r !! fst cc with
             | Some v => compatible (snd cc) v
             | None => false
             end) (combine cols catss) = true ->
  Forall2 (fun c v => compatible c v = true) catss xc.
Proof.
  revert catss xc; induction cols as [|c cols IH]; intros [|cats catss] xc Ht Hl Hf;
    simpl in Hl; try discriminate.
  - inversion Ht; subst. constructor.
  - cbn [traverse] in Ht.
    cbn [combine forallb fst snd] in Hf. apply andb_prop in Hf. destruct Hf as [Hv Hf].
    destruct (r !! c) as [v|] eqn:Ev; [|discriminate Hv].
    assert (E : ColumnTransformer.get_cell r c = Ok v)
      by (unfold ColumnTransformer.get_cell; rewrite Ev; reflexivity).
    rewrite E in Ht. cbn [mbind result_bind] in Ht.
    destruct (traverse (ColumnTransformer.get_cell r) cols) as [xc'|e] eqn:Et;
      cbn [mbind result_bind] in Ht; [|discriminate].
    inversion Ht; subst xc; clear Ht.
    constructor; [exact Hv | apply IH; [reflexivity | lia | exact Hf]].
Qed.

(** A fitted preprocessor transforms every row it can read, into as many
    columns as it announces. *)
Lemma transform_ok (ct : ColumnTransformer.t) (r : row) :
  fitted_preprocessor ct = true -> readable ct r = true ->
  exists x, ColumnTransformer.transform ct r = Ok x
            /\ length x = ColumnTransformer.n_features_out ct.
Proof.
  intros Hf Hrd. pose proof (readable_well_formed ct r Hrd) as Hr.
  destruct (fitted_preprocessor_parts ct Hf) as (Hm & Hs & Hnz & Hc & Hu).
  destruct (well_formed_numeric r Hr) as (xn & Hxn & Ln).
  destruct (well_formed_cells r Hr) as (xc & Hxc & Lc).
  rewrite (transform_staged ct r xn xc Hxn Hxc).
  unfold StandardScaler.transform.
  destruct (standardize_all_ok (StandardScaler.mean_ (ColumnTransformer.num ct))
              (StandardScaler.scale_ (ColumnTransformer.num ct)) xn) as (a & Ha & La);
    [congruence | congruence | exact Hnz |].
  rewrite Ha; simpl.
  unfold OneHotEncoder.transform. rewrite Hu.
  unfold readable in Hrd. apply andb_prop in Hrd. destruct Hrd as [_ Hcomp].
  destruct (encode_blocks_ok (OneHotEncoder.categories_ (ColumnTransformer.cat ct)) xc)
    as (bs & Hbs & Lb).
  { apply (cells_compatible r categorical_features _ xc Hxc Hc Hcomp). }
  rewrite Hbs; simpl.
  eexists; split; [reflexivity|].
  unfold ColumnTransformer.n_features_out. rewrite length_app. lia.
Qed.



(** A regressor of another width than the preprocessor's output rejects
    whatever the preprocessor produces. *)
Lemma predict_row_mismatch (m : Pipeline.t) (r : row) (x : list Q) :
  matching m = false ->
  ColumnTransformer.transform (Pipeline.preprocessor m) r = Ok x ->
  Pipeline.predict_row m r = Raise ValueError.
Proof.
  intros Hm Hx. pose proof (transform_length _ r x Hx) as Lx.
  unfold Pipeline.predict_row. rewrite Hx; simpl.
  unfold RandomForestRegressor.predict.
  unfold matching in Hm. rewrite Lx, Nat.eqb_sym, Hm. reflexivity.
Qed.

(** ** The prediction wrapper *)

Lemma predict_unfold (self : TrafficVolumePredictor.t) (inputs : row) :
  TrafficVolumePredictor.predict self inputs
  = (v ← Pipeline.predict_row (TrafficVolumePredictor.model self) inputs;
     Ok (Z.max 0 (int v))).
Proof.
  unfold TrafficVolumePredictor.predict, Pipeline.predict; simpl.
  destruct (Pipeline.predict_row _ inputs); reflexivity.
Qed.

Lemma int_floor_nonneg (v : Q) : 0 <= v -> int v = Qfloor v.
Proof.
  destruct v as [n d]; unfold Qle, int, Qfloor; simpl; intros H.
  apply Z.quot_div_nonneg; lia.
Qed.

Lemma int_nonpos (v : Q) : v <= 0 -> (int v <= 0)%Z.
Proof.
  destruct v as [n d]; unfold Qle, int; simpl; intros H.
  replace n with (- (- n))%Z by lia.
  rewrite Z.quot_opp_l by lia.
  pose proof (Z.quot_pos (- n) (Z.pos d)). lia.
Qed.

Lemma clamp_int_floor (v : Q) : Z.max 0 (int v) = Z.max 0 (Qfloor v).
Proof.
  destruct (Qlt_le_dec v 0) as [Hneg|Hpos].
  - pose proof (int_nonpos v (Qlt_le_weak _ _ Hneg)) as Hi.
    assert (Hf : (Qfloor v <= 0)%Z).
    { change 0%Z with (Qfloor 0). apply Qfloor_resp_le, Qlt_le_weak, Hneg. }
    lia.
  - rewrite (int_floor_nonneg v Hpos); reflexivity.
Qed.

(** C1.  Whatever [predict] returns is a non-negative integer; when the
    raw output of the regression model is negative the result is 0; and
    whenever the regression model returns a raw output, negative or not,
    [predict] returns, and what it returns is not negative. *)
Theorem predict_nonneg (self : TrafficVolumePredictor.t) (inputs : row) :
  (forall n, TrafficVolumePredictor.predict self inputs = Ok n -> (0 <= n)%Z)
  /\ (forall v, Pipeline.predict (TrafficVolumePredictor.model self) [inputs] = Ok [v] ->
        v < 0 -> TrafficVolumePredictor.predict self inputs = Ok 0%Z)
  /\ (forall v, Pipeline.predict (TrafficVolumePredictor.model self) [inputs] = Ok [v] ->
        exists n, TrafficVolumePredictor.predict self inputs = Ok n /\ (0 <= n)%Z).
Proof.
  split; [|split].
  - intros n H. rewrite predict_unfold in H.
    destruct (Pipeline.predict_row _ inputs) as [v|e]; simpl in H; [|discriminate].
    inversion H; subst. apply Z.le_max_l.
  - intros v H Hneg. unfold TrafficVolumePredictor.predict; cbv zeta.
    rewrite H; simpl. f_equal.
    pose proof (int_nonpos v (Qlt_le_weak _ _ Hneg)). lia.
  - intros v H. unfold TrafficVolumePredictor.predict; cbv zeta.
    rewrite H; simpl. eexists; split; [reflexivity | apply Z.le_max_l].
Qed.

Lemma predict_nonneg_witness :
  Pipeline.predict negative_model [example_input] = Ok [-7 # 2]
  /\ TrafficVolumePredictor.predict
       (TrafficVolumePredictor.mk negative_model [] []) example_input = Ok 0%Z
  /\ exists n, TrafficVolumePredictor.predict
                 (TrafficVolumePredictor.mk negative_model [] []) example_input = Ok n
               /\ (0 <= n)%Z.
Proof.
  split; [vm_compute; reflexivity|]. split.
  - apply (proj1 (proj2 (predict_nonneg (TrafficVolumePredictor.mk negative_model [] [])
                           example_input)) (-7 # 2)); [vm_compute; reflexivity | reflexivity].
  - apply (proj2 (proj2 (predict_nonneg (TrafficVolumePredictor.mk negative_model [] [])
                           example_input)) (-7 # 2)). vm_compute; reflexivity.
Defined.

(** C2 fails as stated: on the model trained on four observations with
    traffic volumes 1, 2, 2, 2 the raw output for [example_input] is
    7/4; [predict] returns 1, while [max(0, round(7/4))] is 2. *)
Lemma predict_is_not_rounding :
  exists m v,
    Pipeline.fit sqrt_down rng_identity no_split small_frame small_target = Ok m
    /\ Pipeline.predict m [example_input] = Ok [v]
    /\ v == 7 # 4
    /\ TrafficVolumePredictor.predict (TrafficVolumePredictor.mk m [] []) example_input
       = Ok 1%Z
    /\ Z.max 0 (round v) = 2%Z.
Proof.
  eexists. eexists.
  split; [vm_compute; reflexivity|].
  split; [vm_compute; reflexivity|].
  split; [vm_compute; reflexivity|].
  split; vm_compute; reflexivity.
Qed.

(** C2, amended.  [predict] raises what the model raises, and otherwise
    returns [max(0, int(v))] for the raw output [v] of the model: the
    fractional part of [v] is dropped, not rounded, so the result is
    [max(0, floor(v))], the integer [n] with [n <= v < n + 1] when [v] is
    not negative and 0 when [v] is not positive. *)
Theorem predict_truncates (self : TrafficVolumePredictor.t) (inputs : row) :
  TrafficVolumePredictor.predict self inputs
  = (v ← Pipeline.predict_row (TrafficVolumePredictor.model self) inputs;
     Ok (Z.max 0 (int v)))
  /\ forall v : Q,
       Z.max 0 (int v) = Z.max 0 (Qfloor v)
       /\ (0 <= v -> inject_Z (Z.max 0 (int v)) <= v
                     /\ v < inject_Z (Z.max 0 (int v) + 1))
       /\ (v <= 0 -> Z.max 0 (int v) = 0%Z).
Proof.
  split; [apply predict_unfold|].
  intros v. split; [apply clamp_int_floor|]. split.
  - intros Hv. rewrite (int_floor_nonneg v Hv).
    assert (Hf : (0 <= Qfloor v)%Z).
    { change 0%Z with (Qfloor 0). apply Qfloor_resp_le, Hv. }
    rewrite Z.max_r by exact Hf.
    split; [apply Qfloor_le | apply Qlt_floor].
  - intros Hv. pose proof (int_nonpos v Hv). lia.
Qed.

Lemma predict_truncates_witness :
  TrafficVolumePredictor.predict (TrafficVolumePredictor.mk negative_model [] [])
    example_input = Ok 0%Z
  /\ inject_Z (Z.max 0 (int (7 # 4))) <= 7 # 4
  /\ 7 # 4 < inject_Z (Z.max 0 (int (7 # 4)) + 1).
Proof.
  split.
  - rewrite (proj1 (predict_truncates (TrafficVolumePredictor.mk negative_model [] [])
                      example_input)). reflexivity.
  - apply (proj1 (proj2 (proj2 (predict_truncates
             (TrafficVolumePredictor.mk negative_model [] []) example_input) (7 # 4)))).
    vm_compute; discriminate.
Defined.

(** C6 fails as stated: an artifact whose preprocessor produces eight
    columns and whose regressor expects three is accepted by the
    constructor, which returns a predictor holding it. *)
Lemma init_accepts_mismatched_artifact :
  ColumnTransformer.n_features_out (Pipeline.preprocessor mismatched_model) = 8%nat
  /\ RandomForestRegressor.n_features_in_ (Pipeline.regressor mismatched_model) = 3%nat
  /\ matching mismatched_model = false
  /\ exists self,
       TrafficVolumePredictor.__init__
         (single_file "traffic_volume_model.pkl" mismatched_model)
         "traffic_volume_model.pkl" = Ok self
       /\ TrafficVolumePredictor.model self = mismatched_model.
Proof.
  split; [reflexivity|]. split; [reflexivity|]. split; [reflexivity|].
  eexists; split; reflexivity.
Qed.

(** ** Columns outside the feature set *)

Lemma select_agree (c : string) (cols : list string) (r1 r2 : row) :
  agree_except c r1 r2 -> ~ In c cols -> select cols r1 = select cols r2.
Proof.
  intros Ha; induction cols as [|c0 cols IH]; simpl; intros Hn; [reflexivity|].
  rewrite (Ha c0) by (intros ->; apply Hn; left; reflexivity).
  rewrite IH by (intros Hin; apply Hn; right; exact Hin).
  reflexivity.
Qed.

Lemma size_zero_iff (r : row) : Nat.eqb (size r) 0 = true <-> r = ∅.
Proof. rewrite Nat.eqb_eq. apply map_size_empty_iff. Qed.

Lemma size_zero_agree (r1 r2 : row) :
  (r1 = ∅ <-> r2 = ∅) -> Nat.eqb (size r1) 0 = Nat.eqb (size r2) 0.
Proof.
  intros H. destruct (Nat.eqb (size r1) 0) eqn:E1, (Nat.eqb (size r2) 0) eqn:E2;
    try reflexivity.
  - apply size_zero_iff, H, size_zero_iff in E1. congruence.
  - apply size_zero_iff, H, size_zero_iff in E2. congruence.
Qed.

Lemma transform_agree (c : string) (ct : ColumnTransformer.t) (r1 r2 : row) :
  agree_except c r1 r2 -> ~ In c numeric_features -> ~ In c categorical_features ->
  (r1 = ∅ <-> r2 = ∅) ->
  ColumnTransformer.transform ct r1 = ColumnTransformer.transform ct r2.
Proof.
  intros Ha Hn Hc He. unfold ColumnTransformer.transform.
  rewrite (size_zero_agree r1 r2 He).
  rewrite (traverse_ext (ColumnTransformer.get_cell r1) (ColumnTransformer.get_cell r2)
             numeric_features).
  2:{ intros x Hx. unfold ColumnTransformer.get_cell.
      rewrite (Ha x) by (intros ->; apply Hn, Hx). reflexivity. }
  rewrite (traverse_ext (ColumnTransformer.get_cell r1) (ColumnTransformer.get_cell r2)
             categorical_features).
  2:{ intros x Hx. unfold ColumnTransformer.get_cell.
      rewrite (Ha x) by (intros ->; apply Hc, Hx). reflexivity. }
  reflexivity.
Qed.

Lemma not_in_strings (c : string) (cols : list string) :
  forallb (fun c' => negb (String.eqb c c')) cols = true -> ~ In c cols.
Proof.
  intros H Hin. rewrite forallb_forall in H. specialize (H c Hin).
  rewrite String.eqb_refl in H. discriminate.
Qed.

(** Rows with the same cells in the eight columns of the preprocessor
    are transformed and predicted alike: what one returns the other
    returns, and they raise alike too unless exactly one of them has no
    cell at all, which the preprocessor refuses with an exception of its
    own. *)
Lemma transform_same_cells (ct : ColumnTransformer.t) (r1 r2 : row) :
  (forall c, In c (numeric_features ++ categorical_features) -> r1 !! c = r2 !! c) ->
  (forall x, ColumnTransformer.transform ct r1 = Ok x ->
             ColumnTransformer.transform ct r2 = Ok x)
  /\ ((r1 = ∅ <-> r2 = ∅) ->
      ColumnTransformer.transform ct r1 = ColumnTransformer.transform ct r2).
Proof.
  intros Ha.
  assert (Hs : Nat.eqb (size r1) 0 = Nat.eqb (size r2) 0 ->
               ColumnTransformer.transform ct r1 = ColumnTransformer.transform ct r2).
  { intros E. unfold ColumnTransformer.transform. rewrite E.
    rewrite (traverse_ext (ColumnTransformer.get_cell r1) (ColumnTransformer.get_cell r2)
               numeric_features).
    2:{ intros x Hx. unfold ColumnTransformer.get_cell.
        rewrite (Ha x) by (apply in_or_app; left; exact Hx). reflexivity. }
    rewrite (traverse_ext (ColumnTransformer.get_cell r1) (ColumnTransformer.get_cell r2)
               categorical_features).
    2:{ intros x Hx. unfold ColumnTransformer.get_cell.
        rewrite (Ha x) by (apply in_or_app; right; exact Hx). reflexivity. }
    reflexivity. }
  split.
  - intros x H. rewrite <- Hs; [exact H|].
    destruct (r1 !! "temp"%string) as [v|] eqn:E1.
    + rewrite (size_nonzero r1 _ v E1). symmetry. apply (size_nonzero r2 "temp"%string v).
      rewrite <- (Ha "temp"%string) by (simpl; tauto). exact E1.
    + exfalso. unfold ColumnTransformer.transform in H.
      destruct (Nat.eqb (size r1) 0); [discriminate|].
      assert (E : traverse (ColumnTransformer.get_cell r1) numeric_features = Raise KeyError).
      { unfold numeric_features; cbn [traverse]. unfold ColumnTransformer.get_cell.
        rewrite E1. reflexivity. }
      rewrite E in H. discriminate.
  - intros He. apply Hs, size_zero_agree, He.
Qed.

Lemma predict_same_cells (self : TrafficVolumePredictor.t) (r1 r2 : row) :
  (forall c, In c (numeric_features ++ categorical_features) -> r1 !! c = r2 !! c) ->
  (forall x,
      ColumnTransformer.transform
        (Pipeline.preprocessor (TrafficVolumePredictor.model self)) r1 = Ok x <->
      ColumnTransformer.transform
        (Pipeline.preprocessor (TrafficVolumePredictor.model self)) r2 = Ok x)
  /\ (forall v,
        Pipeline.predict (TrafficVolumePredictor.model self) [r1] = Ok v <->
        Pipeline.predict (TrafficVolumePredictor.model self) [r2] = Ok v)
  /\ (forall n,
        TrafficVolumePredictor.predict self r1 = Ok n <->
        TrafficVolumePredictor.predict self r2 = Ok n)
  /\ ((r1 = ∅ <-> r2 = ∅) ->
      ColumnTransformer.transform
        (Pipeline.preprocessor (TrafficVolumePredictor.model self)) r1
      = ColumnTransformer.transform
          (Pipeline.preprocessor (TrafficVolumePredictor.model self)) r2
      /\ Pipeline.predict (TrafficVolumePredictor.model self) [r1]
         = Pipeline.predict (TrafficVolumePredictor.model self) [r2]
      /\ TrafficVolumePredictor.predict self r1 = TrafficVolumePredictor.predict self r2).
Proof.
  intros Ha.
  set (m := TrafficVolumePredictor.model self).
  assert (Hb : forall c, In c (numeric_features ++ categorical_features) ->
                         r2 !! c = r1 !! c) by (intros c Hc; symmetry; apply Ha, Hc).
  destruct (transform_same_cells (Pipeline.preprocessor m) r1 r2 Ha) as (H12 & Heq).
  destruct (transform_same_cells (Pipeline.preprocessor m) r2 r1 Hb) as (H21 & _).
  assert (Hrow : forall ra rb,
             (forall x, ColumnTransformer.transform (Pipeline.preprocessor m) ra = Ok x ->
                        ColumnTransformer.transform (Pipeline.preprocessor m) rb = Ok x) ->
             forall v, Pipeline.predict_row m ra = Ok v -> Pipeline.predict_row m rb = Ok v).
  { intros ra rb H v. unfold Pipeline.predict_row.
    destruct (ColumnTransformer.transform (Pipeline.preprocessor m) ra) as [x|e] eqn:E;
      [|discriminate].
    rewrite (H x eq_refl). trivial. }
  assert (Hp : forall ra rb,
             (forall v, Pipeline.predict_row m ra = Ok v -> Pipeline.predict_row m rb = Ok v) ->
             forall v, Pipeline.predict m [ra] = Ok v -> Pipeline.predict m [rb] = Ok v).
  { intros ra rb H v. unfold Pipeline.predict; cbn [traverse].
    destruct (Pipeline.predict_row m ra) as [p|e] eqn:E; [|discriminate].
    rewrite (H p eq_refl). trivial. }
  assert (Hn : forall ra rb,
             (forall v, Pipeline.predict_row m ra = Ok v -> Pipeline.predict_row m rb = Ok v) ->
             forall n, TrafficVolumePredictor.predict self ra = Ok n ->
                       TrafficVolumePredictor.predict self rb = Ok n).
  { intros ra rb H n. rewrite !predict_unfold. fold m.
    destruct (Pipeline.predict_row m ra) as [p|e] eqn:E; [|discriminate].
    rewrite (H p eq_refl). trivial. }
  split; [|split; [|split]].
  - intros x; split; [apply H12 | apply H21].
  - intros v; split; apply Hp, Hrow; assumption.
  - intros n; split; apply Hn, Hrow; assumption.
  - intros He. specialize (Heq He).
    assert (Hr : Pipeline.predict_row m r1 = Pipeline.predict_row m r2)
      by (unfold Pipeline.predict_row; rewrite Heq; reflexivity).
    split; [exact Heq|]. split.
    + unfold Pipeline.predict; cbn [traverse]. rewrite Hr. reflexivity.
    + rewrite !predict_unfold. fold m. rewrite Hr. reflexivity.
Qed.

Lemma agree_except_cells (c : string) (cols : list string) (r1 r2 : row) :
  agree_except c r1 r2 -> ~ In c cols -> forall c', In c' cols -> r1 !! c' = r2 !! c'.
Proof. intros Ha Hn c' Hc. apply Ha. intros ->. apply Hn, Hc. Qed.

(** C10.  Two rows that are identical except in their [clouds_all] cell
    have the same feature selection, and for every model the same
    preprocessed vector, the same model output and the same [predict]
    result: [clouds_all] is no column of the feature set nor of the
    preprocessor.  Where the rows give no output they raise the same
    exception as well, unless exactly one of them has no cell at all
    (the other then holds [clouds_all] only): a frame with no column is
    refused with an exception of its own. *)
Theorem prediction_ignores_clouds_all (self : TrafficVolumePredictor.t) (r1 r2 : row) :
  agree_except "clouds_all" r1 r2 ->
  features r1 = features r2
  /\ (forall x,
        ColumnTransformer.transform
          (Pipeline.preprocessor (TrafficVolumePredictor.model self)) r1 = Ok x <->
        ColumnTransformer.transform
          (Pipeline.preprocessor (TrafficVolumePredictor.model self)) r2 = Ok x)
  /\ (forall v,
        Pipeline.predict (TrafficVolumePredictor.model self) [r1] = Ok v <->
        Pipeline.predict (TrafficVolumePredictor.model self) [r2] = Ok v)
  /\ (forall n,
        TrafficVolumePredictor.predict self r1 = Ok n <->
        TrafficVolumePredictor.predict self r2 = Ok n)
  /\ ((r1 = ∅ <-> r2 = ∅) ->
      ColumnTransformer.transform
        (Pipeline.preprocessor (TrafficVolumePredictor.model self)) r1
      = ColumnTransformer.transform
          (Pipeline.preprocessor (TrafficVolumePredictor.model self)) r2
      /\ Pipeline.predict (TrafficVolumePredictor.model self) [r1]
         = Pipeline.predict (TrafficVolumePredictor.model self) [r2]
      /\ TrafficVolumePredictor.predict self r1 = TrafficVolumePredictor.predict self r2).
Proof.
  intros Ha. split.
  - apply (select_agree "clouds_all"); [exact Ha | apply not_in_strings; reflexivity].
  - apply predict_same_cells.
    apply (agree_except_cells "clouds_all"); [exact Ha | apply not_in_strings; reflexivity].
Qed.

Lemma prediction_ignores_clouds_all_witness :
  agree_except "clouds_all" (<["clouds_all" := VInt 40]> example_input)
                            (<["clouds_all" := VInt 90]> example_input)
  /\ TrafficVolumePredictor.predict (TrafficVolumePredictor.mk negative_model [] [])
       (<["clouds_all" := VInt 40]> example_input) = Ok 0%Z
  /\ TrafficVolumePredictor.predict (TrafficVolumePredictor.mk negative_model [] [])
       (<["clouds_all" := VInt 90]> example_input) = Ok 0%Z.
Proof.
  assert (Ha : agree_except "clouds_all" (<["clouds_all" := VInt 40]> example_input)
                                         (<["clouds_all" := VInt 90]> example_input)).
  { intros c Hc. rewrite !lookup_insert_ne by congruence. reflexivity. }
  split; [exact Ha|].
  assert (H1 : TrafficVolumePredictor.predict (TrafficVolumePredictor.mk negative_model [] [])
                 (<["clouds_all" := VInt 40]> example_input) = Ok 0%Z)
    by (vm_compute; reflexivity).
  split; [exact H1|].
  destruct (prediction_ignores_clouds_all (TrafficVolumePredictor.mk negative_model [] [])
              _ _ Ha) as (_ & _ & _ & Hn & _).
  apply Hn, H1.
Defined.

(** The one pair of rows equal outside [clouds_all] that raise
    differently: the row with no cell, and the row with that cell only. *)
Lemma empty_row_raises_its_own_exception :
  agree_except "clouds_all" ∅ (<["clouds_all" := VInt 40]> ∅)
  /\ TrafficVolumePredictor.predict (TrafficVolumePredictor.mk negative_model [] []) ∅
     = Raise TypeError
  /\ TrafficVolumePredictor.predict (TrafficVolumePredictor.mk negative_model [] [])
       (<["clouds_all" := VInt 40]> ∅)
     = Raise KeyError.
Proof.
  split; [|split; vm_compute; reflexivity].
  intros c Hc. rewrite lookup_insert_ne by congruence. reflexivity.
Qed.

(** ** Training does not read [clouds_all] either *)

Lemma traverse_agree {A : Type} (f : row -> result A) (c : string) (X1 X2 : list row) :
  (forall r1 r2, agree_except c r1 r2 -> f r1 = f r2) ->
  Forall2 (agree_except c) X1 X2 -> traverse f X1 = traverse f X2.
Proof.
  intros Hf H; induction H as [|r1 r2 X1 X2 Hr _ IH]; simpl; [reflexivity|].
  rewrite (Hf r1 r2 Hr), IH. reflexivity.
Qed.

Lemma traverse_agree_in {A : Type} (f : row -> result A) (c : string)
  (X1 X2 : list row) :
  Forall2 (agree_except c) X1 X2 ->
  (forall r1 r2, In r1 X1 -> In r2 X2 -> agree_except c r1 r2 -> f r1 = f r2) ->
  traverse f X1 = traverse f X2.
Proof.
  intros H; induction H as [|r1 r2 X1 X2 Hr _ IH]; intros Hf; simpl; [reflexivity|].
  rewrite (Hf r1 r2 (or_introl eq_refl) (or_introl eq_refl) Hr).
  rewrite IH; [reflexivity|].
  intros a b Ha Hb. apply Hf; right; assumption.
Qed.

Lemma numeric_row_nonempty (r : row) (xn : list Q) :
  traverse (ColumnTransformer.get_numeric r) numeric_features = Ok xn -> r <> ∅.
Proof.
  intros H ->. unfold numeric_features in H. cbn [traverse] in H.
  assert (E : ColumnTransformer.get_numeric ∅ "temp" = Raise KeyError) by reflexivity.
  rewrite E in H. discriminate.
Qed.

Lemma numeric_frame_nonempty (X : list row) (Xn : list (list Q)) (r : row) :
  ColumnTransformer.numeric_frame X = Ok Xn -> In r X -> r <> ∅.
Proof.
  unfold ColumnTransformer.numeric_frame. intros H Hin.
  destruct (traverse_In _ X Xn r H Hin) as (xn & Hx & _).
  apply (numeric_row_nonempty r xn Hx).
Qed.

Lemma fit_ignores_clouds_all (np_sqrt : Q -> Q) (rng : nat -> nat -> nat)
  (best_split : nat -> list (list Q * Q) -> option (nat * Q))
  (X1 X2 : list row) (y : list Q) :
  Forall2 (agree_except "clouds_all") X1 X2 ->
  Pipeline.fit np_sqrt rng best_split X1 y = Pipeline.fit np_sqrt rng best_split X2 y.
Proof.
  intros H.
  assert (Hn : ~ In "clouds_all"%string numeric_features)
    by (apply not_in_strings; reflexivity).
  assert (Hc : ~ In "clouds_all"%string categorical_features)
    by (apply not_in_strings; reflexivity).
  assert (Hnum : ColumnTransformer.numeric_frame X1 = ColumnTransformer.numeric_frame X2).
  { apply (traverse_agree _ "clouds_all"); [|exact H].
    intros r1 r2 Hr. apply traverse_ext. intros c Hin.
    unfold ColumnTransformer.get_numeric, ColumnTransformer.get_cell.
    rewrite (Hr c) by (intros ->; apply Hn, Hin). reflexivity. }
  assert (Hcat : ColumnTransformer.categorical_frame X1
                 = ColumnTransformer.categorical_frame X2).
  { apply (traverse_agree _ "clouds_all"); [|exact H].
    intros r1 r2 Hr. apply traverse_ext. intros c Hin.
    unfold ColumnTransformer.get_cell.
    rewrite (Hr c) by (intros ->; apply Hc, Hin). reflexivity. }
  assert (Hfit : ColumnTransformer.fit np_sqrt X1 = ColumnTransformer.fit np_sqrt X2).
  { unfold ColumnTransformer.fit. rewrite Hnum, Hcat. reflexivity. }
  unfold Pipeline.fit. rewrite Hfit.
  destruct (ColumnTransformer.fit np_sqrt X2) as [ct|e] eqn:E2; [|reflexivity].
  cbn [mbind result_bind].
  unfold ColumnTransformer.fit in E2.
  destruct (ColumnTransformer.numeric_frame X2) as [Xn|e] eqn:En; [|discriminate].
  rewrite (traverse_agree_in (ColumnTransformer.transform ct) "clouds_all" X1 X2 H);
    [reflexivity|].
  intros r1 r2 H1 H2 Hr. apply (transform_agree "clouds_all"); try assumption.
  split; intros E; exfalso.
  - apply (numeric_frame_nonempty X1 Xn r1 Hnum H1 E).
  - apply (numeric_frame_nonempty X2 Xn r2 En H2 E).
Qed.

(** ** Sums, means and variances *)

Lemma inject_nat_succ (n : nat) :
  inject_Z (Z.of_nat (S n)) == inject_Z (Z.of_nat n) + 1.
Proof. rewrite Nat2Z.inj_succ, <- Z.add_1_r, inject_Z_plus. reflexivity. Qed.

Lemma inject_nat_nonneg (n : nat) : 0 <= inject_Z (Z.of_nat n).
Proof. unfold Qle, inject_Z; simpl; lia. Qed.

Lemma inject_nat_pos (n : nat) : (0 < n)%nat -> 0 < inject_Z (Z.of_nat n).
Proof. intros H; unfold Qlt, inject_Z; simpl; lia. Qed.

Lemma qsum_app (xs ys : list Q) : qsum (xs ++ ys) == qsum xs + qsum ys.
Proof. induction xs as [|x xs IH]; simpl; [ring | rewrite IH; ring]. Qed.

Lemma qsum_nonneg (xs : list Q) : (forall x, In x xs -> 0 <= x) -> 0 <= qsum xs.
Proof.
  induction xs as [|x xs IH]; simpl; intros H; [apply Qle_refl|].
  assert (0 <= x) by (apply H; left; reflexivity).
  assert (0 <= qsum xs) by (apply IH; intros y Hy; apply H; right; exact Hy).
  lra.
Qed.



Lemma mean_nonneg (xs : list Q) : (forall x, In x xs -> 0 <= x) -> 0 <= mean xs.
Proof.
  intros H. unfold mean, Qdiv.
  apply Qmult_le_0_compat; [apply qsum_nonneg, H|].
  apply Qinv_le_0_compat, inject_nat_nonneg.
Qed.

Lemma square_nonneg (a : Q) : 0 <= a * a.
Proof.
  destruct (Qlt_le_dec a 0) as [Hn|Hp].
  - assert (E : a * a == (- a) * (- a)) by ring.
    rewrite E. apply Qmult_le_0_compat; lra.
  - apply Qmult_le_0_compat; exact Hp.
Qed.

Lemma variance_nonneg (xs : list Q) : 0 <= variance xs.
Proof.
  unfold variance. apply mean_nonneg. intros x Hx.
  apply in_map_iff in Hx. destruct Hx as (y & <- & _). apply square_nonneg.
Qed.


(** ** The scaler *)

Lemma nth_map_seq {A : Type} (g : nat -> A) (n j : nat) (d : A) :
  (j < n)%nat -> nth j (map g (seq 0 n)) d = g j.
Proof.
  intros H. rewrite (nth_indep _ d (g 0%nat)) by (rewrite length_map, length_seq; exact H).
  rewrite (map_nth g (seq 0 n) 0%nat j), seq_nth by exact H. reflexivity.
Qed.

Lemma standardize_all_nth (ms ss xs v : list Q) (j : nat) :
  StandardScaler.standardize_all ms ss xs = Ok v -> (j < length xs)%nat ->
  nth j v 0 = (nth j xs 0 - nth j ms 0) / nth j ss 0.
Proof.
  revert ss xs v j; induction ms as [|m ms IH]; intros [|s ss] [|x xs] v j H Hj;
    simpl in H; try discriminate; simpl in Hj; try lia.
  unfold StandardScaler.standardize in H.
  destruct (Qeq_bool s 0); simpl in H; [discriminate|].
  destruct (StandardScaler.standardize_all ms ss xs) as [ys|e] eqn:E; simpl in H;
    [|discriminate].
  inversion H; subst; clear H.
  destruct j as [|j]; simpl; [reflexivity|].
  apply (IH ss xs ys j E). lia.
Qed.


Lemma fit_inv (np_sqrt : Q -> Q) (X : list (list Q)) (st : StandardScaler.t) :
  StandardScaler.fit np_sqrt X = Ok st ->
  exists x0 X', X = x0 :: X' /\ rectangular (length x0) X = true
    /\ st = {| StandardScaler.mean_ := map mean (columns (length x0) X);
               StandardScaler.var_ := map variance (columns (length x0) X);
               StandardScaler.scale_ :=
                 map (StandardScaler.column_scale np_sqrt)
                     (columns (length x0) X) |}.
Proof.
  unfold StandardScaler.fit. destruct X as [|x0 X']; [discriminate|].
  destruct (rectangular (length x0) (x0 :: X')) eqn:E; [|discriminate].
  intros H; inversion H; subst. exists x0, X'. repeat split. exact E.
Qed.

Section Scaler.
Variable np_sqrt : Q -> Q.
Hypothesis np_sqrt_pos : forall x : Q, 0 < x -> 0 < np_sqrt x.

(** A column of zero variance counts as constant. *)
Lemma zero_variance_is_constant (var mean : Q) (n : nat) :
  var == 0 -> StandardScaler.is_constant_feature var mean n = true.
Proof.
  intros Hv. unfold StandardScaler.is_constant_feature. cbv zeta.
  apply Qle_bool_iff. rewrite Hv.
  set (a := inject_Z (Z.of_nat n) * mean * StandardScaler.eps).
  pose proof (square_nonneg a) as Ha.
  assert (E : inject_Z (Z.of_nat n) * StandardScaler.eps * 0 + a * a == a * a) by ring.
  rewrite E. exact Ha.
Qed.

(** A column that does not count as constant has a positive variance. *)
Lemma not_constant_positive (xs : list Q) :
  StandardScaler.is_constant_feature (variance xs) (mean xs) (length xs) = false ->
  0 < variance xs.
Proof.
  intros H. pose proof (variance_nonneg xs) as Hn.
  apply Qle_lteq in Hn. destruct Hn as [Hn|Hn]; [exact Hn|].
  rewrite zero_variance_is_constant in H by (symmetry; exact Hn). discriminate.
Qed.

Lemma column_scale_zero_variance (xs : list Q) :
  variance xs == 0 -> StandardScaler.column_scale np_sqrt xs = 1.
Proof.
  intros Hv. unfold StandardScaler.column_scale.
  rewrite (zero_variance_is_constant _ _ _ Hv). reflexivity.
Qed.

Lemma handle_zeros_nonzero (xs : list Q) :
  nonzero (StandardScaler.column_scale np_sqrt xs) = true.
Proof using np_sqrt_pos.
  unfold StandardScaler.column_scale, StandardScaler.handle_zeros_in_scale, nonzero.
  destruct (StandardScaler.is_constant_feature _ _ _) eqn:E; [reflexivity|].
  apply negb_true_iff. destruct (Qeq_bool (np_sqrt (variance xs)) 0) eqn:E2; [|reflexivity].
  apply Qeq_bool_iff in E2.
  pose proof (np_sqrt_pos _ (not_constant_positive xs E)) as Hv.
  rewrite E2 in Hv. exfalso; apply (Qlt_irrefl 0), Hv.
Qed.

Lemma fit_scales_nonzero (X : list (list Q)) (st : StandardScaler.t) :
  StandardScaler.fit np_sqrt X = Ok st ->
  forallb nonzero (StandardScaler.scale_ st) = true.
Proof using np_sqrt_pos.
  intros H. apply fit_inv in H. destruct H as (x0 & X' & _ & _ & ->). simpl.
  apply forallb_forall. intros s Hs. apply in_map_iff in Hs.
  destruct Hs as (c & <- & _). apply handle_zeros_nonzero.
Qed.

(** C7.  On every training matrix with a column of zero variance,
    [fit] succeeds and gives that column the scale 1 in place of its
    zero standard deviation; [transform] then succeeds on every sample
    of the fitted width, and the standardized value of that column is
    the value minus the column's mean. *)
Theorem zero_variance_scale_is_one (X : list (list Q)) (n j : nat) :
  X <> [] -> rectangular n X = true -> (j < n)%nat ->
  variance (column j X) == 0 ->
  exists st,
    StandardScaler.fit np_sqrt X = Ok st
    /\ nth j (StandardScaler.var_ st) 0 == 0
    /\ nth j (StandardScaler.scale_ st) 0 = 1
    /\ forall x, length x = n ->
         exists v, StandardScaler.transform st x = Ok v
                   /\ length v = n
                   /\ nth j v 0 == nth j x 0 - nth j (StandardScaler.mean_ st) 0.
Proof using np_sqrt_pos.
  intros Hne Hrect Hj Hvar.
  destruct X as [|x0 X'] eqn:EX; [contradiction|]. rewrite <- EX in *.
  assert (Hx0 : length x0 = n).
  { rewrite EX in Hrect. simpl in Hrect. apply andb_prop in Hrect.
    destruct Hrect as [H0 _]. apply Nat.eqb_eq, H0. }
  assert (Hfit : StandardScaler.fit np_sqrt X
                 = Ok {| StandardScaler.mean_ := map mean (columns n X);
                         StandardScaler.var_ := map variance (columns n X);
                         StandardScaler.scale_ :=
                           map (StandardScaler.column_scale np_sqrt) (columns n X) |}).
  { unfold StandardScaler.fit. rewrite EX, Hx0, <- EX, Hrect. reflexivity. }
  eexists; split; [exact Hfit|]. simpl.
  assert (Hscale : nth j (map (StandardScaler.column_scale np_sqrt) (columns n X)) 0 = 1).
  { unfold columns. rewrite map_map, nth_map_seq by exact Hj.
    apply column_scale_zero_variance, Hvar. }
  split; [|split; [exact Hscale|]].
  - unfold columns. rewrite map_map, nth_map_seq by exact Hj. exact Hvar.
  - intros x Hx. unfold StandardScaler.transform; simpl.
    destruct (standardize_all_ok (map mean (columns n X))
                (map (StandardScaler.column_scale np_sqrt)
                     (columns n X)) x) as (v & Hv & Lv).
    + unfold columns. rewrite !length_map, length_seq. congruence.
    + unfold columns. rewrite !length_map, length_seq. congruence.
    + apply (fit_scales_nonzero X _ Hfit).
    + exists v. split; [exact Hv|]. split; [congruence|].
      rewrite (standardize_all_nth _ _ _ _ j Hv) by lia.
      rewrite Hscale. field.
Qed.

End Scaler.

Lemma qsum_zero_all (xs : list Q) :
  (forall x, In x xs -> 0 <= x) -> qsum xs == 0 -> forall x, In x xs -> x == 0.
Proof.
  induction xs as [|a xs IH]; simpl; intros Hn Hs x Hx; [contradiction|].
  assert (Ha : 0 <= a) by (apply Hn; left; reflexivity).
  assert (Hr : 0 <= qsum xs) by (apply qsum_nonneg; intros y Hy; apply Hn; right; exact Hy).
  destruct Hx as [<-|Hx]; [lra|].
  apply IH; [intros y Hy; apply Hn; right; exact Hy | lra | exact Hx].
Qed.

(** A column of zero variance is constant: every entry is the mean. *)
Lemma variance_zero_all_mean (xs : list Q) :
  variance xs == 0 -> forall x, In x xs -> x == mean xs.
Proof.
  intros Hv x Hx.
  assert (Hlen : 0 < inject_Z (Z.of_nat (length xs))).
  { apply inject_nat_pos. destruct xs; [contradiction | simpl; lia]. }
  set (sq := map (fun y => (y - mean xs) * (y - mean xs)) xs).
  assert (Hs : qsum sq == 0).
  { assert (Hm : mean sq == 0) by exact Hv.
    unfold mean in Hm.
    assert (Ls : length sq = length xs) by (subst sq; apply length_map).
    rewrite Ls in Hm.
    assert (E : qsum sq == (qsum sq / inject_Z (Z.of_nat (length xs)))
                           * inject_Z (Z.of_nat (length xs))).
    { field. intros E0; rewrite E0 in Hlen; apply (Qlt_irrefl 0), Hlen. }
    rewrite E, Hm. ring. }
  assert (Hz : (x - mean xs) * (x - mean xs) == 0).
  { apply (qsum_zero_all sq).
    - intros s Hin. apply in_map_iff in Hin. destruct Hin as (y & <- & _).
      apply square_nonneg.
    - exact Hs.
    - apply in_map_iff. exists x. split; [reflexivity | exact Hx]. }
  apply Qmult_integral in Hz. lra.
Qed.




Section ScalerStd.
Variable np_sqrt : Q -> Q.
Hypothesis np_sqrt_pos : forall x : Q, 0 < x -> 0 < np_sqrt x.


End ScalerStd.

(** ** Fitting the preprocessor *)

Lemma sqrt_down_pos (x : Q) : 0 < x -> 0 < sqrt_down x.
Proof.
  destruct x as [n d]; unfold Qlt, sqrt_down; simpl; intros H.
  rewrite Z.mul_1_r in *.
  assert (0 < Z.sqrt (n * Z.pos d * 4 ^ 26))%Z; [|lia].
  apply Z.sqrt_pos. lia.
Qed.


Lemma traverse_ok_each {A B : Type} (f : A -> result B) (l : list A) (ys : list B) :
  traverse f l = Ok ys -> forall x, In x l -> is_ok (f x) = true.
Proof.
  intros H x Hx. destruct (traverse_In f l ys x H Hx) as (y & Hy & _).
  rewrite Hy; reflexivity.
Qed.

Lemma traverse_image {A B : Type} (f : A -> result B) (l : list A) (ys : list B) (y : B) :
  traverse f l = Ok ys -> In y ys -> exists x, In x l /\ f x = Ok y.
Proof.
  revert ys; induction l as [|a l IH]; simpl; intros ys H Hin.
  - inversion H; subst; contradiction.
  - destruct (f a) as [b|e] eqn:E; simpl in H; [|discriminate].
    destruct (traverse f l) as [zs|e]; simpl in H; [|discriminate].
    inversion H; subst; clear H. destruct Hin as [<-|Hin].
    + exists a; split; [left; reflexivity | exact E].
    + destruct (IH zs eq_refl Hin) as (x & Hx & Hf).
      exists x; split; [right; exact Hx | exact Hf].
Qed.

Lemma frame_row_length {A : Type} (f : row -> string -> result A) (cols : list string)
  (X : list row) (M : list (list A)) :
  traverse (fun r => traverse (f r) cols) X = Ok M ->
  forall x, In x M -> length x = length cols.
Proof.
  intros H x Hx. destruct (traverse_image _ X M x H Hx) as (r & _ & Hr).
  eapply traverse_length; eauto.
Qed.

(** What a fitted preprocessor is made of. *)
Lemma preprocessor_fit_inv (np_sqrt : Q -> Q) (X : list row) (ct : ColumnTransformer.t) :
  ColumnTransformer.fit np_sqrt X = Ok ct ->
  exists Xn Xc s e,
    ColumnTransformer.numeric_frame X = Ok Xn
    /\ ColumnTransformer.categorical_frame X = Ok Xc
    /\ StandardScaler.fit np_sqrt Xn = Ok s
    /\ OneHotEncoder.fit OneHotEncoder.unknown_ignore Xc = Ok e
    /\ ct = {| ColumnTransformer.num := s; ColumnTransformer.cat := e |}.
Proof.
  unfold ColumnTransformer.fit. intros H.
  destruct (ColumnTransformer.numeric_frame X) as [Xn|e0]; [|discriminate].
  destruct (ColumnTransformer.categorical_frame X) as [Xc|e0]; [|discriminate].
  inv_bind H. rename a into s, Ha into Hs.
  inv_bind H. rename a into e, Ha into He.
  inversion H; subst ct. exists Xn, Xc, s, e. repeat split; assumption.
Qed.

Lemma fit_rows_well_formed (np_sqrt : Q -> Q) (X : list row) (ct : ColumnTransformer.t) :
  ColumnTransformer.fit np_sqrt X = Ok ct -> forall r, In r X -> well_formed r = true.
Proof.
  intros H r Hr.
  destruct (preprocessor_fit_inv np_sqrt X ct H) as (Xn & Xc & _ & _ & HXn & HXc & _).
  unfold well_formed. apply andb_true_intro; split; apply forallb_forall; intros c Hc.
  - destruct (traverse_In _ X Xn r HXn Hr) as (xn & Hxn & _).
    eapply traverse_ok_each; eauto.
  - destruct (traverse_In _ X Xc r HXc Hr) as (xc & Hxc & _).
    eapply traverse_ok_each; eauto.
Qed.

Lemma encoder_fit_inv (hu : OneHotEncoder.handle_unknown_t) (X : list (list value))
  (e : OneHotEncoder.t) :
  OneHotEncoder.fit hu X = Ok e ->
  exists x0 X', X = x0 :: X'
    /\ e = {| OneHotEncoder.handle_unknown := hu;
              OneHotEncoder.categories_ :=
                map OneHotEncoder.unique (OneHotEncoder.columns (length x0) X) |}.
Proof.
  unfold OneHotEncoder.fit. destruct X as [|x0 X']; [discriminate|].
  destruct (forallb _ (x0 :: X')); [|discriminate].
  destruct (forallb OneHotEncoder.uniform _); [|discriminate].
  intros H; inversion H; subst. exists x0, X'. split; reflexivity.
Qed.

(** ** The rows a fitted preprocessor can read *)

Lemma insert_sorted_In (a v : value) (l : list value) :
  In a (OneHotEncoder.insert_sorted v l) -> a = v \/ In a l.
Proof.
  induction l as [|c l IH]; simpl.
  - intros [<-|[]]; left; reflexivity.
  - destruct (value_leb v c); simpl.
    + intros [<-|[<-|H]]; [left; reflexivity | right; left; reflexivity
                          | right; right; exact H].
    + intros [<-|H]; [right; left; reflexivity|].
      destruct (IH H) as [->|H']; [left; reflexivity | right; right; exact H'].
Qed.

(** The categories of a column are among its cells. *)
Lemma unique_In (a : value) (col : list value) :
  In a (OneHotEncoder.unique col) -> In a col.
Proof.
  induction col as [|v col IH]; simpl; [intros []|].
  destruct (OneHotEncoder.known (OneHotEncoder.unique col) v).
  - intros H. right. apply IH, H.
  - intros H. apply insert_sorted_In in H. destruct H as [->|H];
      [left; reflexivity | right; apply IH, H].
Qed.

(** A cell of a uniformly typed column can be looked up in categories
    taken from that column. *)
Lemma compatible_in_uniform (col cats : list value) (v : value) :
  OneHotEncoder.uniform col = true -> In v col ->
  (forall c, In c cats -> In c col) ->
  compatible cats v = true.
Proof.
  unfold OneHotEncoder.uniform, compatible. intros Hu Hv Hc.
  destruct (is_num v) eqn:Ev; [|reflexivity]. cbn [negb orb].
  apply orb_true_iff in Hu. destruct Hu as [Hu|Hu].
  - rewrite forallb_forall in Hu |- *. intros c Hin. apply Hu, Hc, Hin.
  - rewrite forallb_forall in Hu. specialize (Hu v Hv). rewrite Ev in Hu. discriminate.
Qed.

Lemma in_combine_nth {A B : Type} (l1 : list A) (l2 : list B) (a : A) (b : B) :
  In (a, b) (combine l1 l2) ->
  exists j, nth_error l1 j = Some a /\ nth_error l2 j = Some b.
Proof.
  revert l2; induction l1 as [|x l1 IH]; intros [|y l2] H; simpl in H; try contradiction.
  destruct H as [H|H].
  - inversion H; subst. exists 0%nat. split; reflexivity.
  - destruct (IH l2 H) as (j & H1 & H2). exists (S j). split; assumption.
Qed.

Lemma traverse_incl {A B : Type} (f : A -> result B) (l l' : list A) (ys ys' : list B) :
  traverse f l = Ok ys -> traverse f l' = Ok ys' -> incl l' l -> incl ys' ys.
Proof.
  intros H H' Hi y Hy.
  destruct (traverse_image f l' ys' y H' Hy) as (x & Hx & Hf).
  destruct (traverse_In f l ys x H (Hi x Hx)) as (y' & Hf' & Hy').
  congruence.
Qed.

Lemma nth_error_nth_default {A : Type} (l : list A) (j : nat) (a d : A) :
  nth_error l j = Some a -> nth j l d = a.
Proof.
  revert j; induction l as [|x l IH]; intros [|j] H; simpl in *; try discriminate.
  - congruence.
  - apply IH, H.
Qed.

(** A row can be read when it is well formed and each cell of a
    categorical column can be looked up in the categories of the
    column. *)
Lemma readable_intro (ct : ColumnTransformer.t) (r : row) :
  well_formed r = true ->
  (forall j c cats v,
     nth_error categorical_features j = Some c ->
     nth_error (OneHotEncoder.categories_ (ColumnTransformer.cat ct)) j = Some cats ->
     r !! c = Some v ->
     compatible cats v = true) ->
  readable ct r = true.
Proof.
  intros Hw H. unfold readable. rewrite Hw. cbn [andb].
  apply forallb_forall. intros [c cats] Hin. cbn [fst snd].
  destruct (in_combine_nth _ _ c cats Hin) as (j & Hc & Hcats).
  destruct (well_formed_cells r Hw) as (xc & Hxc & _).
  destruct (traverse_nth _ _ _ j c Hxc Hc) as (v & _ & Hg).
  unfold ColumnTransformer.get_cell in Hg.
  destruct (r !! c) as [v'|] eqn:Ev; [|discriminate].
  apply (H j c cats v' Hc Hcats Ev).
Qed.

(** A preprocessor fitted on rows of a uniformly typed frame reads every
    well-formed row of the frame. *)
Lemma fit_reads_frame (np_sqrt : Q -> Q) (X' X : list row) (ct : ColumnTransformer.t)
  (r : row) :
  ColumnTransformer.fit np_sqrt X' = Ok ct ->
  incl X' X ->
  uniform_categories X = true ->
  In r X -> well_formed r = true ->
  readable ct r = true.
Proof.
  intros Hfit Hincl Hu Hr Hw.
  destruct (preprocessor_fit_inv np_sqrt X' ct Hfit)
    as (Xn' & Xc' & sc & en & _ & HXc' & _ & Hen & ->).
  apply encoder_fit_inv in Hen. destruct Hen as (c0 & Xc0 & EXc' & ->).
  assert (L0 : length c0 = length categorical_features).
  { apply (frame_row_length _ _ X' Xc' HXc'). rewrite EXc'; left; reflexivity. }
  rewrite L0. unfold uniform_categories in Hu.
  destruct (ColumnTransformer.categorical_frame X) as [Xc|e] eqn:HXc; [|discriminate].
  pose proof (traverse_incl _ X X' Xc Xc' HXc HXc' Hincl) as Hsub.
  apply readable_intro; [exact Hw|].
  cbn [ColumnTransformer.cat OneHotEncoder.categories_].
  intros j c cats v Hc Hcats Hv.
  assert (Hj : (j < length categorical_features)%nat)
    by (apply nth_error_Some; rewrite Hc; discriminate).
  unfold OneHotEncoder.columns in Hcats, Hu.
  rewrite nth_error_map in Hcats.
  rewrite nth_error_map in Hcats.
  assert (Es : nth_error (seq 0 (length categorical_features)) j = Some j).
  { rewrite nth_error_seq. apply Nat.ltb_lt in Hj. rewrite Hj. reflexivity. }
  rewrite Es in Hcats. cbn [option_map] in Hcats. inversion Hcats; subst cats; clear Hcats.
  destruct (traverse_In _ X Xc r HXc Hr) as (xc & Hxc & Hin).
  destruct (traverse_nth _ _ _ j c Hxc Hc) as (v' & Hv' & Hg).
  unfold ColumnTransformer.get_cell in Hg. rewrite Hv in Hg. inversion Hg; subst v'.
  apply (compatible_in_uniform (OneHotEncoder.column j Xc)).
  - rewrite forallb_forall in Hu. apply Hu. apply in_map_iff. exists j.
    split; [reflexivity | apply in_seq; lia].
  - unfold OneHotEncoder.column. apply in_map_iff. exists xc.
    split; [apply (nth_error_nth_default _ _ _ _ Hv') | exact Hin].
  - intros a Ha. apply unique_In in Ha. unfold OneHotEncoder.column in Ha |- *.
    apply in_map_iff in Ha. destruct Ha as (x & <- & Hx).
    apply in_map_iff. exists x. split; [reflexivity | apply Hsub, Hx].
Qed.

(** The frame a preprocessor was fitted on is uniformly typed. *)
Lemma fit_uniform (np_sqrt : Q -> Q) (X : list row) (ct : ColumnTransformer.t) :
  ColumnTransformer.fit np_sqrt X = Ok ct -> uniform_categories X = true.
Proof.
  intros Hfit.
  destruct (preprocessor_fit_inv np_sqrt X ct Hfit)
    as (Xn & Xc & sc & en & _ & HXc & _ & Hen & _).
  unfold uniform_categories. rewrite HXc.
  pose proof (frame_row_length _ _ X Xc HXc) as Rc.
  unfold OneHotEncoder.fit in Hen. destruct Xc as [|c0 Xc']; [discriminate|].
  destruct (forallb _ (c0 :: Xc')); [|discriminate].
  rewrite (Rc c0) in Hen by (left; reflexivity).
  destruct (forallb OneHotEncoder.uniform _); [reflexivity | discriminate].
Qed.

(** A fitted preprocessor reads every row it was fitted on. *)
Lemma fit_reads_training (np_sqrt : Q -> Q) (X : list row) (ct : ColumnTransformer.t)
  (r : row) :
  ColumnTransformer.fit np_sqrt X = Ok ct -> In r X -> readable ct r = true.
Proof.
  intros Hfit Hr.
  apply (fit_reads_frame np_sqrt X X ct r Hfit); [apply incl_refl | | exact Hr |].
  - apply (fit_uniform np_sqrt X ct Hfit).
  - apply (fit_rows_well_formed np_sqrt X ct Hfit r Hr).
Qed.

Section Preprocessor.
Variable np_sqrt : Q -> Q.
Hypothesis np_sqrt_pos : forall x : Q, 0 < x -> 0 < np_sqrt x.

(** Every state that [fit] returns has the fitted shape. *)
Lemma fit_fitted (X : list row) (ct : ColumnTransformer.t) :
  ColumnTransformer.fit np_sqrt X = Ok ct -> fitted_preprocessor ct = true.
Proof using np_sqrt_pos.
  intros H.
  destruct (preprocessor_fit_inv np_sqrt X ct H) as (Xn & Xc & s & e & HXn & HXc & Hs & He & ->).
  clear H.
  pose proof (fit_scales_nonzero np_sqrt np_sqrt_pos Xn s Hs) as Hnz.
  apply fit_inv in Hs. destruct Hs as (x0 & Xn' & EXn & _ & ->).
  apply encoder_fit_inv in He. destruct He as (c0 & Xc' & EXc & ->).
  assert (L0 : length x0 = length numeric_features).
  { apply (frame_row_length _ _ X Xn HXn). rewrite EXn; left; reflexivity. }
  assert (L1 : length c0 = length categorical_features).
  { apply (frame_row_length _ _ X Xc HXc). rewrite EXc; left; reflexivity. }
  unfold fitted_preprocessor; cbn [ColumnTransformer.num ColumnTransformer.cat
    StandardScaler.mean_ StandardScaler.scale_ OneHotEncoder.categories_].
  simpl in Hnz. rewrite Hnz.
  unfold columns, OneHotEncoder.columns. rewrite !length_map, !length_seq, L0, L1.
  reflexivity.
Qed.

(** C3, amended.  For every preprocessor state returned by [fit] and
    every row it can read (well formed, and with no number in a
    categorical column whose categories are strings) whose value in a
    categorical column is none of the categories recorded for that
    column, [transform] returns (it does not raise): three standardized
    values followed by the five one-hot blocks, and the block of that
    column is the all-zero vector over its categories. *)
Theorem unseen_category_all_zero (X : list row) (ct : ColumnTransformer.t) (r : row)
  (j : nat) (c : string) (cats : list value) (v : value) :
  ColumnTransformer.fit np_sqrt X = Ok ct ->
  readable ct r = true ->
  nth_error categorical_features j = Some c ->
  nth_error (OneHotEncoder.categories_ (ColumnTransformer.cat ct)) j = Some cats ->
  r !! c = Some v ->
  OneHotEncoder.known cats v = false ->
  exists a bs,
    ColumnTransformer.transform ct r = Ok (a ++ concat bs)
    /\ length a = length numeric_features
    /\ length bs = length categorical_features
    /\ nth_error bs j = Some (repeat 0 (length cats)).
Proof using np_sqrt_pos.
  intros Hfit Hrd Hc Hcats Hv Hunk.
  pose proof (fit_fitted X ct Hfit) as Hf.
  destruct (transform_ok ct r Hf Hrd) as (x & Hx & _).
  destruct (transform_inv ct r x Hx) as (xn & xc & a & bs & Hxn & Hxc & Ha & Hbs & ->).
  destruct (fitted_preprocessor_parts ct Hf) as (Hm & Hs & Hnz & Hl & Hu).
  exists a, bs. split; [exact Hx|]. split; [|split].
  - unfold StandardScaler.transform in Ha. apply standardize_all_length in Ha. congruence.
  - apply encode_blocks_length in Hbs. destruct Hbs as [Hb _]. congruence.
  - destruct (traverse_nth _ _ _ j c Hxc Hc) as (v' & Hv' & Hg).
    unfold ColumnTransformer.get_cell in Hg. rewrite Hv in Hg. inversion Hg; subst v'.
    destruct (encode_blocks_nth _ _ _ _ j cats v Hbs Hcats Hv') as (b & Hb & He).
    rewrite Hb. f_equal. rewrite Hu in He.
    unfold OneHotEncoder.encode in He.
    destruct (is_num v && negb (forallb is_num cats)); [discriminate|].
    rewrite Hunk in He. inversion He. reflexivity.
Qed.


End Preprocessor.

(** ** Growing a tree never runs out of fuel *)

Lemma partition_lengths {A : Type} (p : A -> bool) (l : list A) :
  (length (List.filter p l) + length (List.filter (fun x => negb (p x)) l))%nat = length l.
Proof.
  induction l as [|a l IH]; simpl; [reflexivity|].
  destruct (p a); simpl; lia.
Qed.

(** With at least as much fuel as samples, the tree grown does not depend
    on the fuel: [fit] passes the number of samples, and every split
    leaves each side at least one sample short of its parent. *)
Lemma build_fuel_enough (best_split : nat -> list (list Q * Q) -> option (nat * Q))
  (k f1 f2 : nat) (D : list (list Q * Q)) :
  (length D <= f1)%nat -> (length D <= f2)%nat ->
  RandomForestRegressor.build best_split k f1 D
  = RandomForestRegressor.build best_split k f2 D.
Proof.
  revert f2 D; induction f1 as [|f1 IH]; intros f2 D H1 H2.
  - destruct D; [|simpl in H1; lia]. destruct f2; reflexivity.
  - destruct f2 as [|f2].
    + destruct D; [reflexivity | simpl in H2; lia].
    + cbn [RandomForestRegressor.build].
      destruct (Nat.ltb (length D) 2 || Qeq_bool (variance (map snd D)) 0); [reflexivity|].
      destruct (best_split k D) as [[f th]|]; [|reflexivity].
      pose proof (partition_lengths
                    (fun s : list Q * Q => Qle_bool (nth f (fst s) 0) th) D) as Hp.
      cbv beta in Hp. cbv zeta.
      set (L := List.filter (fun s => Qle_bool _ th) D) in *.
      set (R := List.filter (fun s => negb _) D) in *.
      destruct (Nat.eqb (length L) 0) eqn:EL; [reflexivity|].
      destruct (Nat.eqb (length R) 0) eqn:ER; [reflexivity|].
      apply Nat.eqb_neq in EL, ER. simpl.
      f_equal; apply IH; lia.
Qed.

(** ** Training *)

Lemma traverse_all {A B : Type} (f : A -> result B) (P : B -> Prop) (l : list A) :
  (forall x, In x l -> exists y, f x = Ok y /\ P y) ->
  exists ys, traverse f l = Ok ys /\ length ys = length l /\ forall y, In y ys -> P y.
Proof.
  induction l as [|x l IH]; simpl; intros H.
  - exists []; repeat split; intros y [].
  - destruct (H x (or_introl eq_refl)) as (y & Hy & Py).
    destruct IH as (ys & Hys & Ly & Pys); [intros z Hz; apply H; right; exact Hz|].
    rewrite Hy, Hys; simpl. exists (y :: ys). repeat split; [simpl; lia|].
    intros z [<-|Hz]; [exact Py | apply Pys, Hz].
Qed.

Lemma bootstrap_length (rng : nat -> nat -> nat) (k : nat) (D : list (list Q * Q)) :
  length (RandomForestRegressor.bootstrap rng k D) = length D.
Proof. unfold RandomForestRegressor.bootstrap. rewrite length_map, length_seq. reflexivity. Qed.

Lemma bootstrap_In (rng : nat -> nat -> nat) (k : nat) (D : list (list Q * Q))
  (s : list Q * Q) :
  In s (RandomForestRegressor.bootstrap rng k D) -> In s D.
Proof.
  unfold RandomForestRegressor.bootstrap. intros H. apply in_map_iff in H.
  destruct H as (i & <- & Hi). apply in_seq in Hi.
  apply nth_In. apply Nat.mod_upper_bound. lia.
Qed.


Lemma forest_fit_ok (rng : nat -> nat -> nat)
  (best_split : nat -> list (list Q * Q) -> option (nat * Q))
  (n_estimators n : nat) (X : list (list Q)) (y : list Q) :
  X <> [] -> (forall x, In x X -> length x = n) -> length y = length X ->
  n_estimators <> 0%nat ->
  RandomForestRegressor.fit rng best_split n_estimators X y
  = Ok {| RandomForestRegressor.estimators_ :=
            map (fun k => RandomForestRegressor.build best_split k (length X)
                            (RandomForestRegressor.bootstrap rng k (combine X y)))
                (seq 0 n_estimators);
          RandomForestRegressor.n_features_in_ := n |}.
Proof.
  intros Hne Hlen Hy Hn. unfold RandomForestRegressor.fit.
  destruct X as [|x0 X'] eqn:EX; [contradiction|]. rewrite <- EX in *.
  assert (L0 : length x0 = n) by (apply Hlen; rewrite EX; left; reflexivity).
  assert (Hr : rectangular (length x0) X = true).
  { apply forallb_forall. intros x Hx. apply Nat.eqb_eq. rewrite L0. apply Hlen, Hx. }
  rewrite Hr; simpl. rewrite Hy, Nat.eqb_refl; simpl.
  apply Nat.eqb_neq in Hn. rewrite Hn, L0. reflexivity.
Qed.


(** ** Float sums of one value *)










Lemma squared_errors_length (ys ps : list Q) :
  length ys = length ps -> length (squared_errors ys ps) = length ys.
Proof.
  revert ps; induction ys as [|a ys IH]; intros [|b ps] H; simpl in *; try lia.
  f_equal. apply IH. lia.
Qed.

Section Training.
Variable np_sqrt : Q -> Q.
Hypothesis np_sqrt_pos : forall x : Q, 0 < x -> 0 < np_sqrt x.
Hypothesis np_sqrt_zero : forall x : Q, x == 0 -> np_sqrt x == 0.
Variable rng : nat -> nat -> nat.
Variable best_split : nat -> list (list Q * Q) -> option (nat * Q).

(** The preprocessor can be fitted on every trainable frame. *)
Lemma preprocessor_fit_ok (X : list row) :
  trainable X = true -> exists ct, ColumnTransformer.fit np_sqrt X = Ok ct.
Proof.
  unfold trainable. intros H.
  apply andb_prop in H; destruct H as [H Hu].
  apply andb_prop in H; destruct H as [Hne Hwf].
  apply negb_true_iff, Nat.eqb_neq in Hne.
  rewrite forallb_forall in Hwf.
  destruct (traverse_ok_all (fun r => traverse (ColumnTransformer.get_numeric r)
                                        numeric_features) X) as [Xn HXn].
  { intros r Hr. destruct (well_formed_numeric r (Hwf r Hr)) as (xn & -> & _). reflexivity. }
  unfold uniform_categories in Hu.
  destruct (ColumnTransformer.categorical_frame X) as [Xc|] eqn:HXc; [|discriminate].
  unfold ColumnTransformer.fit, ColumnTransformer.numeric_frame. rewrite HXn, HXc; simpl.
  pose proof (traverse_length _ _ _ HXn) as LXn.
  pose proof (traverse_length _ _ _ HXc) as LXc.
  pose proof (frame_row_length _ _ X Xn HXn) as Rn.
  pose proof (frame_row_length _ _ X Xc HXc) as Rc.
  destruct Xn as [|x0 Xn']; [simpl in LXn; lia|].
  destruct Xc as [|c0 Xc']; [simpl in LXc; lia|].
  unfold StandardScaler.fit.
  assert (Hrect : rectangular (length x0) (x0 :: Xn') = true).
  { apply forallb_forall. intros x Hx. apply Nat.eqb_eq.
    rewrite (Rn x Hx), (Rn x0) by (left; reflexivity). reflexivity. }
  rewrite Hrect; cbn [mbind result_bind].
  unfold OneHotEncoder.fit.

  assert (Hrc : forallb (fun x => Nat.eqb (length x) (length c0)) (c0 :: Xc') = true).
  { apply forallb_forall. intros x Hx. apply Nat.eqb_eq.
    rewrite (Rc x Hx), (Rc c0) by (left; reflexivity). reflexivity. }
  rewrite Hrc. rewrite (Rc c0) by (left; reflexivity). rewrite Hu. simpl. eauto.
Qed.


End Training.

(** ** Feature importances *)

Lemma add_at_length (f : nat) (d : Q) (v : list Q) : length (add_at f d v) = length v.
Proof.
  revert f; induction v as [|a v IH]; intros [|f]; simpl; try reflexivity.
  f_equal; apply IH.
Qed.

Lemma vadd_length (u v : list Q) : length u = length v -> length (vadd u v) = length u.
Proof.
  revert v; induction u as [|a u IH]; intros [|b v] H; simpl in *; try lia.
  f_equal; apply IH; lia.
Qed.

Lemma impurity_decreases_length (nf : nat) (t : tree) :
  length (impurity_decreases nf t) = nf.
Proof.
  induction t as [v i n | f th i n l IHl r IHr]; cbn [impurity_decreases].
  - apply repeat_length.
  - rewrite add_at_length, vadd_length; congruence.
Qed.

Lemma tree_feature_importances_length (nf : nat) (t : tree) :
  length (tree_feature_importances nf t) = nf.
Proof.
  unfold tree_feature_importances.
  destruct (Qlt_le_dec _ _); rewrite ?length_map; apply impurity_decreases_length.
Qed.

Lemma fold_vadd_length (nf : nat) (vs : list (list Q)) :
  (forall v, In v vs -> length v = nf) ->
  length (fold_right vadd (repeat 0 nf) vs) = nf.
Proof.
  induction vs as [|v vs IH]; simpl; intros H; [apply repeat_length|].
  assert (Hl : length (fold_right vadd (repeat 0 nf) vs) = nf)
    by (apply IH; intros u Hu; apply H; right; exact Hu).
  rewrite vadd_length; [apply H; left; reflexivity|].
  rewrite Hl. apply H; left; reflexivity.
Qed.

Lemma qsum_map_div (s : Q) (m : list Q) : qsum (map (fun v => v / s) m) == qsum m / s.
Proof.
  induction m as [|a m IH]; simpl.
  - unfold Qdiv. ring.
  - rewrite IH. unfold Qdiv. ring.
Qed.

Lemma qsum_repeat_zero (n : nat) : qsum (repeat 0 n) == 0.
Proof. induction n as [|n IH]; simpl; [reflexivity | rewrite IH; ring]. Qed.

(** What the regressor's importances are: one score per feature; all
    zeros when no tree has a split, and otherwise summing to 1. *)
Lemma feature_importances_spec (rf : RandomForestRegressor.t) (imps : list Q) :
  RandomForestRegressor.feature_importances_ rf = Some imps ->
  length imps = RandomForestRegressor.n_features_in_ rf
  /\ (has_split rf -> qsum imps == 1)
  /\ (~ has_split rf -> imps = repeat 0 (RandomForestRegressor.n_features_in_ rf)).
Proof.
  unfold RandomForestRegressor.feature_importances_, has_split.
  set (nf := RandomForestRegressor.n_features_in_ rf).
  set (split_trees := List.filter _ _).
  assert (Hst : forall t, In t split_trees <->
            In t (RandomForestRegressor.estimators_ rf) /\ (1 < node_count t)%nat).
  { intros t. subst split_trees. rewrite filter_In, Nat.ltb_lt. reflexivity. }
  destruct (map (tree_feature_importances nf) split_trees) as [|v0 vs] eqn:E.
  - intros H; inversion H; subst; clear H.
    split; [apply repeat_length|]. split.
    + intros (t & Ht). apply Hst in Ht. destruct split_trees; [contradiction | discriminate].
    + reflexivity.
  - set (m := RandomForestRegressor.vmean nf (v0 :: vs)).
    destruct (Qeq_bool (qsum m) 0) eqn:Es; [discriminate|].
    intros H; inversion H; subst; clear H.
    split; [|split].
    + rewrite length_map. subst m. unfold RandomForestRegressor.vmean.
      rewrite length_map. apply fold_vadd_length.
      intros v Hv. rewrite <- E in Hv. apply in_map_iff in Hv.
      destruct Hv as (t & <- & _). apply tree_feature_importances_length.
    + intros _. rewrite qsum_map_div. field.
      intros Hz. apply Qeq_bool_iff in Hz. congruence.
    + intros Hn. exfalso. apply Hn.
      destruct split_trees as [|t ts] eqn:Et; [discriminate|].
      exists t. apply Hst. left; reflexivity.
Qed.

Lemma names_out_length (cols : list string) (cats : list (list value))
  (ns : list feature_name) :
  names_out cols cats = Ok ns -> length ns = length (concat cats).
Proof.
  revert cats ns; induction cols as [|c cols IH]; intros [|vs cats] ns H;
    simpl in H; try discriminate.
  - inversion H; reflexivity.
  - destruct (names_out cols cats) as [ns0|] eqn:E; simpl in H; [|discriminate].
    inversion H; subst; clear H. simpl.
    rewrite !length_app, length_map. f_equal. apply IH, E.
Qed.

Lemma names_out_ok (cols : list string) (cats : list (list value)) :
  length cats = length cols -> exists ns, names_out cols cats = Ok ns.
Proof.
  revert cats; induction cols as [|c cols IH]; intros [|vs cats] H; simpl in *;
    try discriminate.
  - eauto.
  - destruct (IH cats) as (ns & ->); [lia|]. simpl. eauto.
Qed.

Lemma insert_desc_sum (e : feature_name * Q) (l : list (feature_name * Q)) :
  qsum (scores (insert_desc e l)) == snd e + qsum (scores l).
Proof.
  unfold scores. induction l as [|h l IH]; simpl; [reflexivity|].
  destruct (Qle_bool (snd h) (snd e)); simpl; [reflexivity|].
  rewrite IH. ring.
Qed.

Lemma sort_values_desc_sum (l : list (feature_name * Q)) :
  qsum (scores (sort_values_desc l)) == qsum (scores l).
Proof.
  induction l as [|e l IH]; simpl; [reflexivity|].
  rewrite insert_desc_sum, IH. reflexivity.
Qed.

Lemma insert_desc_length (e : feature_name * Q) (l : list (feature_name * Q)) :
  length (insert_desc e l) = S (length l).
Proof.
  induction l as [|h l IH]; simpl; [reflexivity|].
  destruct (Qle_bool (snd h) (snd e)); simpl; [reflexivity | f_equal; exact IH].
Qed.

Lemma sort_values_desc_length (l : list (feature_name * Q)) :
  length (sort_values_desc l) = length l.
Proof.
  induction l as [|e l IH]; simpl; [reflexivity|].
  rewrite insert_desc_length, IH. reflexivity.
Qed.

Lemma insert_desc_In (e a : feature_name * Q) (l : list (feature_name * Q)) :
  In a (insert_desc e l) -> a = e \/ In a l.
Proof.
  induction l as [|h l IH]; simpl.
  - intros [<-|[]]; left; reflexivity.
  - destruct (Qle_bool (snd h) (snd e)); simpl.
    + intros [<-|H]; [left; reflexivity | right; exact H].
    + intros [<-|H]; [right; left; reflexivity|].
      destruct (IH H) as [->|H']; [left; reflexivity | right; right; exact H'].
Qed.

Lemma insert_desc_descending (e : feature_name * Q) (l : list (feature_name * Q)) :
  descending l -> descending (insert_desc e l).
Proof.
  unfold descending. induction l as [|h l IH]; simpl; intros H.
  - constructor; constructor.
  - inversion H as [|? ? Hl Hh]; subst.
    destruct (Qle_bool (snd h) (snd e)) eqn:E.
    + apply Qle_bool_iff in E. constructor; [exact H|].
      constructor; [exact E|].
      rewrite List.Forall_forall in *. intros b Hb. specialize (Hh b Hb). simpl in Hh. lra.
    + assert (Hlt : snd e < snd h).
      { apply Qnot_le_lt. intros Hle. apply Qle_bool_iff in Hle. congruence. }
      constructor; [apply IH, Hl|].
      rewrite List.Forall_forall in *. intros b Hb.
      destruct (insert_desc_In e b l Hb) as [->|Hb']; [lra | apply Hh, Hb'].
Qed.

Lemma sort_values_desc_descending (l : list (feature_name * Q)) :
  descending (sort_values_desc l).
Proof.
  induction l as [|e l IH]; simpl; [constructor | apply insert_desc_descending, IH].
Qed.

Lemma descending_split (n : nat) (l : list (feature_name * Q)) :
  descending l ->
  descending (firstn n l)
  /\ forall a b, In a (firstn n l) -> In b (skipn n l) -> snd b <= snd a.
Proof.
  unfold descending. revert n; induction l as [|h l IH]; intros [|n] H; simpl.
  - split; [constructor | intros a b []].
  - split; [constructor | intros a b []].
  - split; [constructor | intros a b []].
  - inversion H as [|? ? Hl Hh]; subst.
    destruct (IH n Hl) as (Hs & Hab). split.
    + constructor; [exact Hs|].
      rewrite List.Forall_forall in *. intros b Hb. apply Hh.
      rewrite <- (firstn_skipn n l). apply in_or_app; left; exact Hb.
    + intros a b [<-|Ha] Hb.
      * rewrite List.Forall_forall in Hh. apply Hh.
        rewrite <- (firstn_skipn n l). apply in_or_app; right; exact Hb.
      * apply Hab; assumption.
Qed.

Lemma scores_combine (names : list feature_name) (imps : list Q) :
  length names = length imps -> scores (combine names imps) = imps.
Proof.
  unfold scores. revert imps; induction names as [|n names IH]; intros [|i imps] H;
    simpl in *; try discriminate; [reflexivity|].
  f_equal. apply IH. lia.
Qed.

(** C5 fails as stated.  On an artifact of eleven features whose forest
    splits once on each, every feature scores 1/11 and the ten scores
    that [get_feature_importance] returns sum to 10/11, further than
    1e-6 from 1.  On the model trained on [small_frame], whose trees are
    single leaves, every score is 0 and so is the sum. *)
Lemma returned_importances_do_not_sum_to_one :
  (exists top,
     TrafficVolumePredictor.get_feature_importance
       (TrafficVolumePredictor.mk eleven_feature_model [] []) = Ok (Some top)
     /\ length top = 10%nat
     /\ qsum (scores top) == 10 # 11
     /\ 1 # 1000000 < Qabs (qsum (scores top) - 1))
  /\ (exists m top,
        Pipeline.fit sqrt_down rng_identity no_split small_frame small_target = Ok m
        /\ TrafficVolumePredictor.get_feature_importance
             (TrafficVolumePredictor.mk m [] []) = Ok (Some top)
        /\ qsum (scores top) == 0).
Proof.
  split.
  - eexists. split; [vm_compute; reflexivity|].
    split; [reflexivity|]. split; vm_compute; reflexivity.
  - eexists. eexists. split; [vm_compute; reflexivity|].
    split; [vm_compute; reflexivity|]. vm_compute; reflexivity.
Qed.

(** C5, amended.  For an artifact whose preprocessor is fitted and
    matches its regressor, and whose importance vector is finite:
    [get_feature_importance] returns, with their names, the ten highest
    of the regressor's scores (all of them when there are at most ten) in
    descending order.  The regressor's scores sum to 1 when some tree has
    a split and are all 0 otherwise; the returned scores sum to that
    total less the scores of the features left out, so to the total
    itself when there are at most ten features. *)
Theorem returned_importances_are_top_ten (self : TrafficVolumePredictor.t)
  (imps : list Q) :
  let m := TrafficVolumePredictor.model self in
  let rf := Pipeline.regressor m in
  fitted_preprocessor (Pipeline.preprocessor m) = true ->
  matching m = true ->
  RandomForestRegressor.feature_importances_ rf = Some imps ->
  exists names,
    length names = length imps
    /\ let ranked := sort_values_desc (combine names imps) in
       TrafficVolumePredictor.get_feature_importance self = Ok (Some (firstn 10 ranked))
       /\ length (firstn 10 ranked) = Nat.min 10 (length imps)
       /\ descending (firstn 10 ranked)
       /\ (forall a b, In a (firstn 10 ranked) -> In b (skipn 10 ranked) ->
                       snd b <= snd a)
       /\ qsum (scores (firstn 10 ranked)) + qsum (scores (skipn 10 ranked))
          == qsum imps
       /\ (has_split rf -> qsum imps == 1)
       /\ (~ has_split rf -> forall s, In s imps -> s = 0)
       /\ ((length imps <= 10)%nat -> qsum (scores (firstn 10 ranked)) == qsum imps).
Proof.
  intros m rf Hf Hm Himps.
  destruct (fitted_preprocessor_parts _ Hf) as (Lm & _ & _ & Lc & _).
  destruct (feature_importances_spec rf imps Himps) as (Li & Hsum & Hzero).
  destruct (names_out_ok categorical_features
              (OneHotEncoder.categories_ (ColumnTransformer.cat (Pipeline.preprocessor m))) Lc)
    as (ns & Hns).
  pose proof (names_out_length _ _ _ Hns) as Lns.
  set (names := map Numeric numeric_features ++ ns).
  assert (Ln : length names = length imps).
  { subst names. rewrite length_app, length_map, Lns, Li.
    unfold matching in Hm. apply Nat.eqb_eq in Hm. fold m in Hm. fold rf in Hm. rewrite Hm.
    unfold ColumnTransformer.n_features_out. rewrite Lm. reflexivity. }
  exists names. split; [exact Ln|]. cbv zeta.
  set (ranked := sort_values_desc (combine names imps)).
  assert (Lr : length ranked = length imps).
  { subst ranked. rewrite sort_values_desc_length, length_combine, Ln. apply Nat.min_id. }
  assert (Hd : descending ranked) by apply sort_values_desc_descending.
  destruct (descending_split 10 ranked Hd) as (Hd1 & Hd2).
  assert (Hs : qsum (scores (firstn 10 ranked)) + qsum (scores (skipn 10 ranked))
               == qsum imps).
  { rewrite <- qsum_app. unfold scores. rewrite <- map_app, firstn_skipn.
    fold (scores ranked). subst ranked.
    rewrite sort_values_desc_sum, scores_combine by exact Ln. reflexivity. }
  split; [|split; [|split; [exact Hd1|split; [exact Hd2|split; [exact Hs|split;
    [exact Hsum|split]]]]]].
  - unfold TrafficVolumePredictor.get_feature_importance. fold m. rewrite Hns.
    cbn [mbind result_bind]. fold names. fold rf. rewrite Himps.
    unfold Series. rewrite <- Ln, Nat.eqb_refl. reflexivity.
  - rewrite length_firstn, Lr. reflexivity.
  - intros Hn s Hin. rewrite (Hzero Hn) in Hin. apply repeat_spec in Hin. exact Hin.
  - intros Hle. rewrite <- Hs.
    rewrite (skipn_all2 ranked) by lia. simpl. ring.
Qed.

Lemma returned_importances_are_top_ten_witness :
  fitted_preprocessor (Pipeline.preprocessor eleven_feature_model) = true
  /\ matching eleven_feature_model = true
  /\ exists imps names,
       RandomForestRegressor.feature_importances_ (Pipeline.regressor eleven_feature_model)
       = Some imps
       /\ TrafficVolumePredictor.get_feature_importance
            (TrafficVolumePredictor.mk eleven_feature_model [] [])
          = Ok (Some (firstn 10 (sort_values_desc (combine names imps))))
       /\ qsum imps == 1.
Proof.
  split; [reflexivity|]. split; [reflexivity|].
  pose (imps := match RandomForestRegressor.feature_importances_
                         (Pipeline.regressor eleven_feature_model) with
               | Some l => l
               | None => []
               end).
  exists imps.
  assert (Hi : RandomForestRegressor.feature_importances_
                 (Pipeline.regressor eleven_feature_model) = Some imps).
  { vm_compute. reflexivity. }
  destruct (returned_importances_are_top_ten
              (TrafficVolumePredictor.mk eleven_feature_model [] []) _
              eq_refl eq_refl Hi) as (names & _ & Hg & _ & _ & _ & _ & Hs & _).
  exists names. split; [exact Hi|]. split; [exact Hg|].
  apply Hs. exists (stump 0). split; [left; reflexivity | simpl; lia].
Defined.

(** ** Instances *)

Lemma varied_preprocessor_fit :
  ColumnTransformer.fit sqrt_down varied_frame = Ok varied_preprocessor.
Proof. vm_compute. reflexivity. Qed.

Lemma zero_variance_scale_is_one_witness :
  rectangular 3 small_matrix = true
  /\ variance (column 1 small_matrix) == 0
  /\ exists st,
       StandardScaler.fit sqrt_down small_matrix = Ok st
       /\ nth 1 (StandardScaler.scale_ st) 0 = 1
       /\ exists v, StandardScaler.transform st [20; 7; 2] = Ok v /\ nth 1 v 0 == 7.
Proof.
  split; [reflexivity|]. split; [reflexivity|].
  destruct (zero_variance_scale_is_one sqrt_down sqrt_down_pos small_matrix 3 1)
    as (st & Hfit & _ & Hs & Ht).
  - discriminate.
  - reflexivity.
  - repeat constructor.
  - reflexivity.
  - exists st. split; [exact Hfit|]. split; [exact Hs|].
    destruct (Ht [20; 7; 2] eq_refl) as (v & Hv & _ & Hj).
    exists v. split; [exact Hv|]. rewrite Hj.
    assert (E : StandardScaler.fit sqrt_down small_matrix
                = Ok {| StandardScaler.mean_ := map mean (columns 3 small_matrix);
                        StandardScaler.var_ := map variance (columns 3 small_matrix);
                        StandardScaler.scale_ :=
                          map (StandardScaler.column_scale sqrt_down)
                              (columns 3 small_matrix) |})
      by reflexivity.
    rewrite E in Hfit. inversion Hfit; subst st. vm_compute. reflexivity.
Defined.

Lemma unseen_category_all_zero_witness :
  well_formed (<["hour" := VInt 5]> example_input) = true
  /\ OneHotEncoder.known [VInt 3; VInt 17] (VInt 5) = false
  /\ exists a bs,
       ColumnTransformer.transform varied_preprocessor (<["hour" := VInt 5]> example_input)
       = Ok (a ++ concat bs)
       /\ nth_error bs 3 = Some [0; 0].
Proof.
  split; [reflexivity|]. split; [reflexivity|].
  destruct (unseen_category_all_zero sqrt_down sqrt_down_pos varied_frame
              varied_preprocessor (<["hour" := VInt 5]> example_input)
              3 "hour" [VInt 3; VInt 17] (VInt 5))
    as (a & bs & Ht & _ & _ & Hb).
  - exact varied_preprocessor_fit.
  - reflexivity.
  - reflexivity.
  - reflexivity.
  - reflexivity.
  - reflexivity.
  - exists a, bs. split; [exact Ht | exact Hb].
Defined.


(** A column within rounding error of a constant one counts as constant
    and gets the scale 1 as well, although its variance is not 0. *)
Lemma near_constant_column_scale :
  0 < variance (column 0 near_constant_matrix)
  /\ exists st,
       StandardScaler.fit sqrt_down near_constant_matrix = Ok st
       /\ StandardScaler.scale_ st = [1]
       /\ ~ scales_are_deviations st (length near_constant_matrix).
Proof.
  split; [vm_compute; reflexivity|].
  eexists. split; [reflexivity|]. split; [vm_compute; reflexivity|].
  intros H. specialize (H 0%nat). cbn [StandardScaler.mean_ length map columns seq] in H.
  assert (E : nth 0 (StandardScaler.var_
                       {| StandardScaler.mean_ := map mean (columns 1 near_constant_matrix);
                          StandardScaler.var_ := map variance (columns 1 near_constant_matrix);
                          StandardScaler.scale_ :=
                            map (StandardScaler.column_scale sqrt_down)
                                (columns 1 near_constant_matrix) |}) 0 == 0).
  { apply H; [vm_compute; lia | vm_compute; reflexivity]. }
  vm_compute in E. discriminate E.
Qed.



(** C3 fails as stated: a number in a column fitted on strings is no
    category of the column, and the encoder raises on it, as it cannot
    compare the number with its string categories. *)
Lemma unseen_number_among_strings_raises :
  well_formed (<["holiday" := VInt 5]> example_input) = true
  /\ nth_error (OneHotEncoder.categories_ (ColumnTransformer.cat varied_preprocessor)) 0
     = Some [VStr "None"]
  /\ OneHotEncoder.known [VStr "None"] (VInt 5) = false
  /\ ColumnTransformer.fit sqrt_down varied_frame = Ok varied_preprocessor
  /\ ColumnTransformer.transform varied_preprocessor
       (<["holiday" := VInt 5]> example_input) = Raise TypeError.
Proof. repeat split; vm_compute; reflexivity. Qed.

(** ** Selecting the features *)

Lemma select_ok (cols : list string) (r f : row) :
  select cols r = Ok f ->
  (forall c, In c cols -> is_Some (r !! c) /\ f !! c = r !! c)
  /\ (forall c, ~ In c cols -> f !! c = None).
Proof.
  revert f; induction cols as [|c0 cols IH]; simpl; intros f H.
  - inversion H; subst. split; [intros c [] | intros c _; apply lookup_empty].
  - destruct (r !! c0) as [v|] eqn:E; [|discriminate].
    destruct (select cols r) as [acc|e] eqn:Ea; simpl in H; [|discriminate].
    inversion H; subst; clear H.
    destruct (IH acc eq_refl) as (Hin & Hout). split.
    + intros c Hc. destruct (decide (c0 = c)) as [->|Hne].
      * rewrite lookup_insert_eq, E. split; [eauto | reflexivity].
      * rewrite lookup_insert_ne by exact Hne.
        destruct Hc as [Hc|Hc]; [contradiction | apply Hin, Hc].
    + intros c Hc. rewrite lookup_insert_ne by (intros ->; apply Hc; left; reflexivity).
      apply Hout. intros Hin'. apply Hc; right; exact Hin'.
Qed.

Lemma select_raise (cols : list string) (r : row) (e : exception) :
  select cols r = Raise e -> e = KeyError /\ exists c, In c cols /\ r !! c = None.
Proof.
  induction cols as [|c0 cols IH]; simpl; intros H; [discriminate|].
  destruct (r !! c0) as [v|] eqn:E.
  - destruct (select cols r) as [acc|e'] eqn:Ea; simpl in H; [discriminate|].
    inversion H; subst e'. destruct (IH eq_refl) as (He & c & Hc & Hn).
    split; [exact He|]. exists c. split; [right; exact Hc | exact Hn].
  - inversion H; subst. split; [reflexivity|]. exists c0. split; [left; reflexivity | exact E].
Qed.

(** X1.  [features] either returns or raises KeyError.  It raises KeyError
    exactly when one of the ten feature columns is missing from the row;
    otherwise the row it returns holds the ten feature columns, each with
    the cell of the original row, and no other column. *)
Theorem features_keeps_ten_columns (r : row) :
  (forall e, features r = Raise e -> e = KeyError)
  /\ (features r = Raise KeyError <->
      exists c, In c feature_columns /\ r !! c = None)
  /\ (forall f, features r = Ok f ->
        (forall c, In c feature_columns -> is_Some (r !! c) /\ f !! c = r !! c)
        /\ (forall c, ~ In c feature_columns -> f !! c = None)).
Proof.
  unfold features. split; [|split].
  - intros e H. apply (select_raise _ _ _ H).
  - split.
    + intros H. apply (select_raise _ _ _ H).
    + intros (c & Hc & Hn).
      destruct (select feature_columns r) as [f|e] eqn:E.
      * destruct (select_ok _ _ _ E) as (Hin & _).
        destruct (Hin c Hc) as ([v Hv] & _). congruence.
      * destruct (select_raise _ _ _ E) as (-> & _). reflexivity.
  - intros f H. apply select_ok, H.
Qed.

(** ** The derived columns *)

Lemma feature_engineering_lookup (t : Timestamp) (r : row) (c : string) :
  feature_engineering t r !! c =
  if String.eqb c "is_rush_hour" then Some (VInt (is_rush_hour (dt_hour t)))
  else if String.eqb c "is_weekend" then Some (VInt (is_weekend (dt_dayofweek t)))
  else if String.eqb c "month" then Some (VInt (dt_month t))
  else if String.eqb c "day_of_week" then Some (VInt (dt_dayofweek t))
  else if String.eqb c "hour" then Some (VInt (dt_hour t))
  else r !! c.
Proof.
  unfold feature_engineering; cbv zeta.
  repeat match goal with
  | |- context [String.eqb c ?k] =>
      destruct (String.eqb_spec c k) as [->|?];
      [repeat (rewrite lookup_insert_ne by discriminate); apply lookup_insert_eq
      |rewrite (lookup_insert_ne _ k c) by congruence]
  end.
  reflexivity.
Qed.

(** X2.  Feature engineering sets the five derived columns from the
    timestamp alone, overwriting whatever the row held there, and leaves
    every other column as it was; applying it again changes nothing. *)
Theorem feature_engineering_overwrites_derived (t : Timestamp) (r : row) :
  (forall c, ~ In c derived_columns -> feature_engineering t r !! c = r !! c)
  /\ (forall r' c, In c derived_columns ->
        feature_engineering t r !! c = feature_engineering t r' !! c)
  /\ (forall c, In c derived_columns -> is_Some (feature_engineering t r !! c))
  /\ feature_engineering t (feature_engineering t r) = feature_engineering t r.
Proof.
  split; [|split; [|split]].
  - intros c Hc. rewrite feature_engineering_lookup.
    repeat match goal with
    | |- context [String.eqb c ?k] =>
        destruct (String.eqb_spec c k) as [->|?];
        [exfalso; apply Hc; simpl; tauto|]
    end.
    reflexivity.
  - intros r' c Hc. rewrite !feature_engineering_lookup.
    simpl in Hc. destruct Hc as [<-|[<-|[<-|[<-|[<-|[]]]]]]; reflexivity.
  - intros c Hc. rewrite feature_engineering_lookup.
    simpl in Hc. destruct Hc as [<-|[<-|[<-|[<-|[<-|[]]]]]]; simpl; eauto.
  - apply map_eq. intros c. rewrite !feature_engineering_lookup.
    repeat match goal with
    | |- context [String.eqb c ?k] => destruct (String.eqb c k); [reflexivity|]
    end.
    reflexivity.
Qed.

Lemma feature_columns_split (c : string) :
  In c feature_columns <-> In c raw_feature_columns \/ In c derived_columns.
Proof. unfold feature_columns, raw_feature_columns, derived_columns. simpl. tauto. Qed.

(** X3.  After feature engineering, selecting the features succeeds
    exactly when the row has the five columns [holiday], [temp],
    [rain_1h], [snow_1h] and [weather_main], whatever the timestamp, and
    raises KeyError otherwise: the derived columns are never the missing
    ones. *)
Theorem features_after_engineering (t : Timestamp) (r : row) :
  (is_ok (features (feature_engineering t r)) = true <->
   forall c, In c raw_feature_columns -> is_Some (r !! c))
  /\ (features (feature_engineering t r) = Raise KeyError <->
      exists c, In c raw_feature_columns /\ r !! c = None).
Proof.
  assert (Hraw : forall c, In c raw_feature_columns ->
                           feature_engineering t r !! c = r !! c).
  { intros c Hc. rewrite feature_engineering_lookup.
    simpl in Hc. destruct Hc as [<-|[<-|[<-|[<-|[<-|[]]]]]]; reflexivity. }
  assert (Hder : forall c, In c derived_columns ->
                           is_Some (feature_engineering t r !! c)).
  { intros c Hc. rewrite feature_engineering_lookup.
    simpl in Hc. destruct Hc as [<-|[<-|[<-|[<-|[<-|[]]]]]]; simpl; eauto. }
  assert (Hiff : features (feature_engineering t r) = Raise KeyError <->
                 exists c, In c raw_feature_columns /\ r !! c = None).
  { unfold features. split.
    - intros H. destruct (select_raise _ _ _ H) as (_ & c & Hc & Hn).
      apply feature_columns_split in Hc. destruct Hc as [Hc|Hc].
      + exists c. split; [exact Hc|]. rewrite <- (Hraw c Hc). exact Hn.
      + destruct (Hder c Hc) as [v Hv]. congruence.
    - intros (c & Hc & Hn).
      destruct (select feature_columns (feature_engineering t r)) as [f|e] eqn:E.
      + destruct (select_ok _ _ _ E) as (Hin & _).
        destruct (Hin c) as ([v Hv] & _); [apply feature_columns_split; left; exact Hc|].
        rewrite (Hraw c Hc) in Hv. congruence.
      + destruct (select_raise _ _ _ E) as (-> & _). reflexivity. }
  split; [|exact Hiff].
  split.
  - intros H c Hc. destruct (r !! c) as [v|] eqn:E; [eauto|].
    assert (Hk : features (feature_engineering t r) = Raise KeyError)
      by (apply Hiff; eauto).
    rewrite Hk in H. discriminate.
  - intros H. destruct (features (feature_engineering t r)) as [f|e] eqn:E; [reflexivity|].
    unfold features in E. destruct (select_raise _ _ _ E) as (-> & _).
    destruct (proj1 Hiff eq_refl) as (c & Hc & Hn).
    destruct (H c Hc) as [v Hv]. congruence.
Qed.


(** ** What the preprocessor reads *)

(** X4.  The model reads eight columns only: the three numeric and the
    five categorical columns of the preprocessor.  Rows that agree on
    these have the same preprocessed vector, model output and [predict]
    result, so the [is_weekend] and [is_rush_hour] entries of the input,
    present or absent, consistent with [day_of_week] and [hour] or not,
    have no effect on the prediction.  Where such rows give no output
    they raise the same exception, unless exactly one of them has no
    cell at all. *)
Theorem prediction_reads_eight_columns (self : TrafficVolumePredictor.t) (r1 r2 : row) :
  (forall c, In c (numeric_features ++ categorical_features) -> r1 !! c = r2 !! c) ->
  (forall x,
      ColumnTransformer.transform
        (Pipeline.preprocessor (TrafficVolumePredictor.model self)) r1 = Ok x <->
      ColumnTransformer.transform
        (Pipeline.preprocessor (TrafficVolumePredictor.model self)) r2 = Ok x)
  /\ (forall v,
        Pipeline.predict (TrafficVolumePredictor.model self) [r1] = Ok v <->
        Pipeline.predict (TrafficVolumePredictor.model self) [r2] = Ok v)
  /\ (forall n,
        TrafficVolumePredictor.predict self r1 = Ok n <->
        TrafficVolumePredictor.predict self r2 = Ok n)
  /\ ((r1 = ∅ <-> r2 = ∅) ->
      ColumnTransformer.transform
        (Pipeline.preprocessor (TrafficVolumePredictor.model self)) r1
      = ColumnTransformer.transform
          (Pipeline.preprocessor (TrafficVolumePredictor.model self)) r2
      /\ Pipeline.predict (TrafficVolumePredictor.model self) [r1]
         = Pipeline.predict (TrafficVolumePredictor.model self) [r2]
      /\ TrafficVolumePredictor.predict self r1 = TrafficVolumePredictor.predict self r2).
Proof. apply predict_same_cells. Qed.

Lemma prediction_reads_eight_columns_witness :
  TrafficVolumePredictor.predict (TrafficVolumePredictor.mk negative_model [] [])
    (<["is_weekend" := VInt 1]> (delete "is_rush_hour" example_input))
  = TrafficVolumePredictor.predict (TrafficVolumePredictor.mk negative_model [] [])
      example_input.
Proof.
  destruct (prediction_reads_eight_columns (TrafficVolumePredictor.mk negative_model [] [])
              (<["is_weekend" := VInt 1]> (delete "is_rush_hour" example_input))
              example_input) as (_ & _ & _ & He).
  - intros c Hc. simpl in Hc.
    destruct Hc as [<-|[<-|[<-|[<-|[<-|[<-|[<-|[<-|[]]]]]]]]]; reflexivity.
  - apply He. split; intros E; exfalso.
    + apply (insert_non_empty (delete "is_rush_hour" example_input)
               "is_weekend"%string (VInt 1)), E.
    + apply (f_equal (fun r : row => r !! "temp"%string)) in E. discriminate E.
Defined.

Lemma traverse_fail {A B : Type} (f : A -> result B) (l : list A) (e0 : exception) :
  (forall x e, In x l -> f x = Raise e -> e = e0) ->
  forallb (fun x => is_ok (f x)) l = false ->
  traverse f l = Raise e0.
Proof.
  induction l as [|x l IH]; simpl; intros He H; [discriminate|].
  destruct (f x) as [y|e] eqn:E; simpl in *.
  - rewrite IH; [reflexivity | | exact H].
    intros z e Hz. apply He. right; exact Hz.
  - f_equal. apply (He x e); [left; reflexivity | exact E].
Qed.
















(** ** Categories and one-hot blocks *)

Lemma Qeq_bool_sym (x y : Q) : Qeq_bool x y = Qeq_bool y x.
Proof.
  destruct (Qeq_bool x y) eqn:E1, (Qeq_bool y x) eqn:E2; try reflexivity.
  - apply Qeq_bool_iff in E1. symmetry in E1. apply Qeq_bool_iff in E1. congruence.
  - apply Qeq_bool_iff in E2. symmetry in E2. apply Qeq_bool_iff in E2. congruence.
Qed.

Lemma value_eqb_sym (a b : value) : value_eqb a b = value_eqb b a.
Proof.
  destruct a as [x|s], b as [y|t]; simpl; try reflexivity.
  - apply Qeq_bool_sym.
  - apply String.eqb_sym.
Qed.

Lemma value_eqb_trans (a b c : value) :
  value_eqb a b = true -> value_eqb b c = true -> value_eqb a c = true.
Proof.
  destruct a as [x|s], b as [y|t], c as [z|u]; simpl; try discriminate.
  - intros H1 H2. apply Qeq_bool_iff in H1, H2. apply Qeq_bool_iff.
    rewrite H1. exact H2.
  - intros H1 H2. apply String.eqb_eq in H1, H2. apply String.eqb_eq. congruence.
Qed.

Lemma known_iff (cats : list value) (v : value) :
  OneHotEncoder.known cats v = true <-> exists c, In c cats /\ value_eqb c v = true.
Proof. unfold OneHotEncoder.known. apply existsb_exists. Qed.

Lemma known_compat (cats : list value) (a v : value) :
  value_eqb a v = true -> OneHotEncoder.known cats a = OneHotEncoder.known cats v.
Proof.
  intros H.
  destruct (OneHotEncoder.known cats a) eqn:Ea, (OneHotEncoder.known cats v) eqn:Ev;
    try reflexivity.
  - apply known_iff in Ea. destruct Ea as (c & Hc & Hca).
    assert (OneHotEncoder.known cats v = true); [|congruence].
    apply known_iff. exists c. split; [exact Hc | eapply value_eqb_trans; eauto].
  - apply known_iff in Ev. destruct Ev as (c & Hc & Hcv).
    assert (OneHotEncoder.known cats a = true); [|congruence].
    apply known_iff. exists c. split; [exact Hc|].
    apply (value_eqb_trans c v a Hcv). rewrite value_eqb_sym. exact H.
Qed.

Lemma known_insert_sorted (a v : value) (l : list value) :
  OneHotEncoder.known (OneHotEncoder.insert_sorted a l) v
  = value_eqb a v || OneHotEncoder.known l v.
Proof.
  unfold OneHotEncoder.known.
  induction l as [|c l IH]; simpl; [reflexivity|].
  destruct (value_leb a c); simpl; [reflexivity|].
  rewrite IH.
  destruct (value_eqb a v), (value_eqb c v); reflexivity.
Qed.

Lemma known_unique (col : list value) (v : value) :
  OneHotEncoder.known (OneHotEncoder.unique col) v = OneHotEncoder.known col v.
Proof.
  induction col as [|a col IH]; [reflexivity|].
  change (OneHotEncoder.unique (a :: col))
    with (if OneHotEncoder.known (OneHotEncoder.unique col) a
          then OneHotEncoder.unique col
          else OneHotEncoder.insert_sorted a (OneHotEncoder.unique col)).
  change (OneHotEncoder.known (a :: col) v)
    with (value_eqb a v || OneHotEncoder.known col v).
  destruct (OneHotEncoder.known (OneHotEncoder.unique col) a) eqn:Ea.
  - rewrite IH. destruct (value_eqb a v) eqn:Eav; [|reflexivity].
    rewrite <- IH, <- (known_compat _ a v Eav), Ea. reflexivity.
  - rewrite known_insert_sorted, IH. reflexivity.
Qed.

Lemma distinct_insert_sorted (a : value) (l : list value) :
  distinct l = true -> OneHotEncoder.known l a = false ->
  distinct (OneHotEncoder.insert_sorted a l) = true.
Proof.
  induction l as [|c l IH]; simpl; intros Hd Hk; [reflexivity|].
  apply andb_prop in Hd. destruct Hd as [Hc Hd].
  apply orb_false_iff in Hk. destruct Hk as [Hca Hk].
  destruct (value_leb a c); simpl.
  - unfold OneHotEncoder.known at 1. simpl. rewrite Hca. fold (OneHotEncoder.known l a).
    rewrite Hk, Hc, Hd. reflexivity.
  - rewrite known_insert_sorted, value_eqb_sym, Hca. simpl. rewrite Hc. simpl.
    apply IH; assumption.
Qed.

Lemma distinct_unique (col : list value) : distinct (OneHotEncoder.unique col) = true.
Proof.
  induction col as [|a col IH]; [reflexivity|].
  change (OneHotEncoder.unique (a :: col))
    with (if OneHotEncoder.known (OneHotEncoder.unique col) a
          then OneHotEncoder.unique col
          else OneHotEncoder.insert_sorted a (OneHotEncoder.unique col)).
  destruct (OneHotEncoder.known (OneHotEncoder.unique col) a) eqn:Ea; [exact IH|].
  apply distinct_insert_sorted; assumption.
Qed.

Lemma one_hot_unknown (cats : list value) (v : value) :
  OneHotEncoder.known cats v = false ->
  OneHotEncoder.one_hot cats v = OneHotEncoder.zeros (length cats).
Proof.
  induction cats as [|c cats IH]; simpl; intros H; [reflexivity|].
  apply orb_false_iff in H. destruct H as [Hc H]. rewrite Hc.
  unfold OneHotEncoder.zeros in *. simpl. f_equal. apply IH, H.
Qed.

Lemma one_hot_sum (cats : list value) (v : value) :
  distinct cats = true -> OneHotEncoder.known cats v = true ->
  qsum (OneHotEncoder.one_hot cats v) == 1.
Proof.
  induction cats as [|c cats IH]; simpl; intros Hd Hk; [discriminate|].
  apply andb_prop in Hd. destruct Hd as [Hc Hd]. apply negb_true_iff in Hc.
  destruct (value_eqb c v) eqn:Ecv.
  - rewrite (known_compat cats c v Ecv) in Hc.
    fold (OneHotEncoder.one_hot cats v).
    rewrite (one_hot_unknown cats v Hc). unfold OneHotEncoder.zeros.
    rewrite qsum_repeat_zero. ring.
  - simpl in Hk. fold (OneHotEncoder.one_hot cats v).
    rewrite (IH Hd Hk). ring.
Qed.

Lemma one_hot_bits (cats : list value) (v : value) (q : Q) :
  In q (OneHotEncoder.one_hot cats v) -> q = 0 \/ q = 1.
Proof.
  unfold OneHotEncoder.one_hot. intros H. apply in_map_iff in H.
  destruct H as (c & <- & _). destruct (value_eqb c v); auto.
Qed.

Lemma encoder_fit_uniform (hu : OneHotEncoder.handle_unknown_t) (X : list (list value))
  (e : OneHotEncoder.t) (cats : list value) :
  OneHotEncoder.fit hu X = Ok e -> In cats (OneHotEncoder.categories_ e) ->
  exists col, cats = OneHotEncoder.unique col /\ OneHotEncoder.uniform col = true.
Proof.
  unfold OneHotEncoder.fit. destruct X as [|x0 X']; [discriminate|].
  destruct (forallb _ (x0 :: X')); [|discriminate].
  destruct (forallb OneHotEncoder.uniform _) eqn:Hu; [|discriminate].
  intros H; inversion H; subst; clear H. cbn [OneHotEncoder.categories_].
  intros Hin. apply in_map_iff in Hin. destruct Hin as (col & <- & Hcol).
  exists col. split; [reflexivity|]. rewrite forallb_forall in Hu. apply Hu, Hcol.
Qed.

Lemma value_eqb_is_num (a b : value) : value_eqb a b = true -> is_num a = is_num b.
Proof. destruct a, b; simpl; intros H; try reflexivity; discriminate. Qed.

(** A value that is one of the categories of a uniformly typed column
    can be looked up in them. *)
Lemma known_compatible (col : list value) (v : value) :
  OneHotEncoder.uniform col = true ->
  OneHotEncoder.known (OneHotEncoder.unique col) v = true ->
  compatible (OneHotEncoder.unique col) v = true.
Proof.
  intros Hu Hk. apply known_iff in Hk. destruct Hk as (c & Hc & Hcv).
  apply value_eqb_is_num in Hcv. apply unique_In in Hc.
  unfold compatible. destruct (is_num v) eqn:Ev; [|reflexivity]. cbn [negb orb].
  unfold OneHotEncoder.uniform in Hu. apply orb_true_iff in Hu. destruct Hu as [Hu|Hu].
  - rewrite forallb_forall in Hu |- *. intros a Ha. apply Hu, unique_In, Ha.
  - rewrite forallb_forall in Hu. specialize (Hu c Hc). rewrite Hcv in Hu. discriminate.
Qed.

Lemma encode_known (hu : OneHotEncoder.handle_unknown_t) (cats : list value) (v : value) :
  compatible cats v = true -> OneHotEncoder.known cats v = true ->
  OneHotEncoder.encode hu cats v = Ok (OneHotEncoder.one_hot cats v).
Proof.
  intros Hc Hk. unfold OneHotEncoder.encode. rewrite Hk.
  unfold compatible in Hc. destruct (is_num v), (forallb is_num cats);
    try reflexivity; discriminate.
Qed.

(** X7.  In an encoder returned by [fit] no category is recorded twice,
    so the block of a value that is one of the categories is a proper
    one-hot vector: as long as the category list, every entry 0 or 1, a 1
    at the position of the matching category, and the entries summing to
    exactly 1. *)
Theorem seen_category_block_is_one_hot (hu : OneHotEncoder.handle_unknown_t)
  (X : list (list value)) (enc : OneHotEncoder.t) (cats : list value) (v : value) :
  OneHotEncoder.fit hu X = Ok enc ->
  In cats (OneHotEncoder.categories_ enc) ->
  OneHotEncoder.known cats v = true ->
  distinct cats = true
  /\ exists b,
       OneHotEncoder.encode hu cats v = Ok b
       /\ length b = length cats
       /\ (forall q, In q b -> q = 0 \/ q = 1)
       /\ (forall i c, nth_error cats i = Some c ->
             nth_error b i = Some (if value_eqb c v then 1 else 0))
       /\ qsum b == 1.
Proof.
  intros Hfit Hin Hk.
  destruct (encoder_fit_uniform hu X enc cats Hfit Hin) as (col & -> & Hu).
  pose proof (distinct_unique col) as Hd.
  split; [exact Hd|].
  exists (OneHotEncoder.one_hot (OneHotEncoder.unique col) v).
  split; [apply encode_known; [apply known_compatible; assumption | exact Hk]|].
  split; [apply length_map|].
  split; [intros q; apply one_hot_bits|].
  split; [|apply one_hot_sum; assumption].
  intros i c Hi. unfold OneHotEncoder.one_hot. rewrite nth_error_map, Hi. reflexivity.
Qed.

Lemma Forall2_of_nth {A B : Type} (P : A -> B -> Prop) (da : A) (db : B)
  (l1 : list A) (l2 : list B) :
  length l1 = length l2 ->
  (forall j, (j < length l1)%nat -> P (nth j l1 da) (nth j l2 db)) ->
  Forall2 P l1 l2.
Proof.
  revert l2; induction l1 as [|a l1 IH]; intros [|b l2] Hl H; simpl in *; try lia.
  - constructor.
  - constructor.
    + apply (H 0%nat). lia.
    + apply IH; [lia|]. intros j Hj. apply (H (S j)). lia.
Qed.

Lemma encode_blocks_known (hu : OneHotEncoder.handle_unknown_t)
  (cats : list (list value)) (x : list value) :
  Forall2 (fun c v => compatible c v = true /\ OneHotEncoder.known c v = true) cats x ->
  exists bs, OneHotEncoder.encode_blocks hu cats x = Ok bs.
Proof.
  intros H; induction H as [|c v cats x [Hc Hk] _ IH]; simpl; [eauto|].
  rewrite (encode_known hu c v Hc Hk). simpl.
  destruct IH as (bs & ->). simpl. eauto.
Qed.

(** X8.  The categories that [fit] records for a column are exactly the
    values observed in that column of the training data.  So every
    training row is encoded without meeting an unknown category, and
    [transform] returns on it even under [handle_unknown='error']. *)
Theorem fitted_categories_are_observed (hu : OneHotEncoder.handle_unknown_t)
  (X : list (list value)) (enc : OneHotEncoder.t) :
  OneHotEncoder.fit hu X = Ok enc ->
  (forall j cats v,
     nth_error (OneHotEncoder.categories_ enc) j = Some cats ->
     (OneHotEncoder.known cats v = true <->
      exists x, In x X /\ value_eqb (nth j x (VStr "")) v = true))
  /\ (forall x, In x X -> exists b, OneHotEncoder.transform enc x = Ok b).
Proof.
  intros Hfit. unfold OneHotEncoder.fit in Hfit.
  destruct X as [|x0 X'] eqn:EX; [discriminate|]. rewrite <- EX in *.
  destruct (forallb (fun x => Nat.eqb (length x) (length x0)) X) eqn:Hlen; [|discriminate].
  destruct (forallb OneHotEncoder.uniform _) eqn:Hu; [|discriminate].
  inversion Hfit; subst enc; clear Hfit. simpl.
  set (n := length x0) in *.
  assert (Hcat : forall j, (j < n)%nat ->
            nth j (map OneHotEncoder.unique (OneHotEncoder.columns n X)) []
            = OneHotEncoder.unique (OneHotEncoder.column j X)).
  { intros j Hj. unfold OneHotEncoder.columns. rewrite map_map.
    apply (nth_map_seq (fun i => OneHotEncoder.unique (OneHotEncoder.column i X))).
    exact Hj. }
  assert (Hobs : forall j v,
            OneHotEncoder.known (OneHotEncoder.unique (OneHotEncoder.column j X)) v = true
            <-> exists x, In x X /\ value_eqb (nth j x (VStr "")) v = true).
  { intros j v. rewrite known_unique, known_iff. unfold OneHotEncoder.column. split.
    - intros (c & Hc & Hcv). apply in_map_iff in Hc. destruct Hc as (x & <- & Hx). eauto.
    - intros (x & Hx & Hv). exists (nth j x (VStr "")). split; [|exact Hv].
      apply in_map_iff. eauto. }
  split.
  - intros j cats v Hj.
    assert (Hjn : (j < n)%nat).
    { assert (Hs : nth_error (map OneHotEncoder.unique (OneHotEncoder.columns n X)) j
                   <> None) by congruence.
      apply nth_error_Some in Hs. unfold OneHotEncoder.columns in Hs.
      rewrite !length_map, length_seq in Hs. exact Hs. }
    apply (nth_error_nth _ _ []) in Hj. rewrite (Hcat j Hjn) in Hj. subst cats.
    apply Hobs.
  - intros x Hx. unfold OneHotEncoder.transform. simpl.
    assert (Lx : length x = n).
    { rewrite forallb_forall in Hlen. apply Nat.eqb_eq, Hlen, Hx. }
    destruct (encode_blocks_known hu
                (map OneHotEncoder.unique (OneHotEncoder.columns n X)) x) as (bs & ->).
    + apply (Forall2_of_nth _ [] (VStr "")).
      * unfold OneHotEncoder.columns. rewrite !length_map, length_seq. congruence.
      * intros j Hj. unfold OneHotEncoder.columns in Hj.
        rewrite !length_map, length_seq in Hj.
        rewrite (Hcat j Hj).
        assert (Hk : OneHotEncoder.known
                       (OneHotEncoder.unique (OneHotEncoder.column j X))
                       (nth j x (VStr "")) = true).
        { apply Hobs. exists x. split; [exact Hx|].
          destruct (nth j x (VStr "")) as [q|s]; simpl;
            [apply Qeq_bool_refl | apply String.eqb_refl]. }
        split; [|exact Hk]. apply known_compatible; [|exact Hk].
        rewrite forallb_forall in Hu. apply Hu. unfold OneHotEncoder.columns.
        apply in_map_iff. exists j. split; [reflexivity | apply in_seq; lia].
    + simpl. eauto.
Qed.


Lemma seen_category_block_is_one_hot_witness :
  OneHotEncoder.known [VInt 3; VInt 17] (VInt 17) = true
  /\ exists b,
       OneHotEncoder.encode OneHotEncoder.unknown_ignore [VInt 3; VInt 17] (VInt 17) = Ok b
       /\ qsum b == 1.
Proof.
  split; [reflexivity|].
  destruct (seen_category_block_is_one_hot OneHotEncoder.unknown_ignore small_categories
              {| OneHotEncoder.handle_unknown := OneHotEncoder.unknown_ignore;
                 OneHotEncoder.categories_ := [[VStr "None"]; [VInt 3; VInt 17]] |}
              [VInt 3; VInt 17] (VInt 17))
    as (_ & b & Hb & _ & _ & _ & Hs).
  - reflexivity.
  - right; left; reflexivity.
  - reflexivity.
  - exists b. split; [exact Hb | exact Hs].
Defined.

Lemma fitted_categories_are_observed_witness :
  exists enc b,
    OneHotEncoder.fit OneHotEncoder.unknown_error small_categories = Ok enc
    /\ OneHotEncoder.transform enc [VStr "None"; VInt 3] = Ok b.
Proof.
  eexists.
  destruct (proj2 (fitted_categories_are_observed OneHotEncoder.unknown_error
                     small_categories _ eq_refl) [VStr "None"; VInt 3]) as (b & Hb).
  - right; left; reflexivity.
  - exists b. split; [reflexivity | exact Hb].
Defined.

(** ** Standardized columns *)

Lemma qsum_map_ext (f g : Q -> Q) (l : list Q) :
  (forall a, In a l -> f a == g a) -> qsum (map f l) == qsum (map g l).
Proof.
  induction l as [|a l IH]; simpl; intros H; [reflexivity|].
  rewrite (H a) by (left; reflexivity).
  rewrite IH by (intros b Hb; apply H; right; exact Hb). reflexivity.
Qed.

Lemma qsum_map_affine (m s : Q) (l : list Q) :
  qsum (map (fun a => (a - m) / s) l)
  == (qsum l - inject_Z (Z.of_nat (length l)) * m) / s.
Proof.
  induction l as [|a l IH].
  - simpl. unfold Qdiv. ring.
  - cbn [map qsum fold_right length]. fold (qsum (map (fun a => (a - m) / s) l)).
    fold (qsum l). rewrite IH, inject_nat_succ. unfold Qdiv. ring.
Qed.

Lemma mean_standardized (s : Q) (l : list Q) :
  l <> [] -> mean (map (fun a => (a - mean l) / s) l) == 0.
Proof.
  intros Hne. unfold mean at 1. rewrite qsum_map_affine, length_map.
  assert (Hn : ~ inject_Z (Z.of_nat (length l)) == 0).
  { intros E. pose proof (inject_nat_pos (length l)) as Hp.
    destruct l; [contradiction|]. specialize (Hp ltac:(simpl; lia)).
    rewrite E in Hp. apply (Qlt_irrefl 0), Hp. }
  assert (E : qsum l - inject_Z (Z.of_nat (length l)) * mean l == 0).
  { unfold mean. field. exact Hn. }
  rewrite E. unfold Qdiv. ring.
Qed.

Lemma variance_standardized (s : Q) (l : list Q) :
  l <> [] -> ~ s == 0 ->
  variance (map (fun a => (a - mean l) / s) l) == variance l / (s * s).
Proof.
  intros Hne Hs.
  pose proof (mean_standardized s l Hne) as Hm.
  set (f := fun a => (a - mean l) / s) in *.
  set (sq := fun a => (a - mean l) * (a - mean l)).
  assert (E1 : qsum (map (fun y => (y - mean (map f l)) * (y - mean (map f l))) (map f l))
               == qsum (map sq l) / (s * s)).
  { rewrite map_map.
    rewrite (qsum_map_ext _ (fun a => sq a / (s * s))).
    - rewrite <- (map_map sq (fun v => v / (s * s))). apply qsum_map_div.
    - intros a _. rewrite Hm. unfold f, sq. field. exact Hs. }
  change (variance (map f l))
    with (qsum (map (fun y => (y - mean (map f l)) * (y - mean (map f l))) (map f l))
          / inject_Z (Z.of_nat (length
              (map (fun y => (y - mean (map f l)) * (y - mean (map f l))) (map f l))))).
  change (variance l)
    with (qsum (map sq l) / inject_Z (Z.of_nat (length (map sq l)))).
  rewrite E1, !length_map. unfold Qdiv. ring.
Qed.


Lemma traverse_map_rel {A B C : Type} (f : A -> result B) (g : B -> C) (h : A -> C)
  (l : list A) (ys : list B) :
  traverse f l = Ok ys ->
  (forall x y, In x l -> f x = Ok y -> g y = h x) ->
  map g ys = map h l.
Proof.
  revert ys; induction l as [|x l IH]; simpl; intros ys H Hr.
  - inversion H; reflexivity.
  - destruct (f x) as [y|e] eqn:E; simpl in H; [|discriminate].
    destruct (traverse f l) as [zs|e]; simpl in H; [|discriminate].
    inversion H; subst; clear H. simpl. f_equal.
    + apply Hr; [left; reflexivity | exact E].
    + apply IH; [reflexivity|]. intros z w Hz. apply Hr. right; exact Hz.
Qed.

Lemma standardize_unstandardize (ms ss vs : list Q) :
  length ms = length vs -> length ss = length vs -> forallb nonzero ss = true ->
  exists v', StandardScaler.standardize_all ms ss
               (StandardScaler.unstandardize_all ms ss vs) = Ok v'
             /\ Forall2 Qeq v' vs.
Proof.
  revert ss vs; induction ms as [|m ms IH]; intros [|s ss] [|v vs] Hm Hs Hnz;
    simpl in *; try discriminate.
  - exists []. split; [reflexivity | constructor].
  - apply andb_prop in Hnz. destruct Hnz as [Hz Hnz].
    unfold StandardScaler.standardize. unfold nonzero in Hz.
    destruct (Qeq_bool s 0) eqn:Es; [discriminate|]. cbn [mbind result_bind].
    destruct (IH ss vs) as (v' & -> & Hv'); [lia | lia | exact Hnz |].
    cbn [mbind result_bind]. eexists. split; [reflexivity|]. constructor; [|exact Hv'].
    field. intros E. apply Qeq_bool_iff in E. congruence.
Qed.

Section Standardized.
Variable np_sqrt : Q -> Q.
Hypothesis np_sqrt_pos : forall x : Q, 0 < x -> 0 < np_sqrt x.

(** X9.  Transforming the training matrix with the scaler fitted on it
    succeeds and centres every column: the standardized column has mean
    0.  A constant column becomes all zeros, and a column that does not
    count as constant gets variance 1 whenever [np.sqrt] is exact on its
    variance; a column that counts as constant keeps its variance. *)
Theorem standardized_training_columns (X : list (list Q)) (st : StandardScaler.t) :
  StandardScaler.fit np_sqrt X = Ok st ->
  exists V,
    traverse (StandardScaler.transform st) X = Ok V
    /\ forall j, (j < length (StandardScaler.mean_ st))%nat ->
         mean (column j V) == 0
         /\ (variance (column j X) == 0 -> forall v, In v (column j V) -> v == 0)
         /\ (StandardScaler.is_constant_feature (variance (column j X))
               (mean (column j X)) (length X) = false ->
             np_sqrt (variance (column j X)) * np_sqrt (variance (column j X))
             == variance (column j X) ->
             variance (column j V) == 1)
         /\ (StandardScaler.is_constant_feature (variance (column j X))
               (mean (column j X)) (length X) = true ->
             variance (column j V) == variance (column j X)).
Proof using np_sqrt_pos.
  intros Hfit.
  pose proof (fit_scales_nonzero np_sqrt np_sqrt_pos X st Hfit) as Hnz.
  apply fit_inv in Hfit. destruct Hfit as (x0 & X' & EX & Hrect & ->).
  set (n := length x0) in *. simpl in Hnz |- *.
  assert (Lc : length (columns n X) = n)
    by (unfold columns; rewrite length_map, length_seq; reflexivity).
  assert (Hlen : forall x, In x X -> length x = n).
  { intros x Hx. unfold rectangular in Hrect. rewrite forallb_forall in Hrect.
    apply Nat.eqb_eq, Hrect, Hx. }
  set (ms := map mean (columns n X)) in *.
  set (ss := map (StandardScaler.column_scale np_sqrt)
                 (columns n X)) in *.
  destruct (traverse_all (StandardScaler.standardize_all ms ss) (fun _ => True) X)
    as (V & HV & _ & _).
  { intros x Hx. destruct (standardize_all_ok ms ss x) as (v & Hv & _).
    - subst ms. rewrite length_map, Lc. symmetry. apply Hlen, Hx.
    - subst ss. rewrite length_map, Lc. symmetry. apply Hlen, Hx.
    - exact Hnz.
    - eauto. }
  exists V. split; [exact HV|].
  intros j Hj. subst ms. rewrite length_map, Lc in Hj.
  set (col := column j X).
  set (s := StandardScaler.column_scale np_sqrt col).
  assert (Lcol : length col = length X) by (subst col; unfold column; apply length_map).
  assert (Hcol : column j V = map (fun a => (a - mean col) / s) col).
  { unfold column at 1. subst col. unfold column. rewrite map_map.
    apply (traverse_map_rel _ _ _ _ _ HV).
    intros x v Hx Hv.
    rewrite (standardize_all_nth _ _ _ _ j Hv) by (rewrite (Hlen x Hx); exact Hj).
    subst ss. unfold columns. rewrite !map_map.
    rewrite (nth_map_seq (fun i => mean (column i X))) by exact Hj.
    rewrite (nth_map_seq (fun i => StandardScaler.column_scale np_sqrt (column i X)))
      by exact Hj.
    reflexivity. }
  assert (Hne : col <> []).
  { subst col. unfold column. rewrite EX. discriminate. }
  assert (Hs : ~ s == 0).
  { pose proof (handle_zeros_nonzero np_sqrt np_sqrt_pos col) as Hh.
    fold s in Hh. unfold nonzero in Hh. intros E. apply Qeq_bool_iff in E.
    rewrite E in Hh. discriminate. }
  rewrite Hcol. rewrite <- Lcol. split; [apply mean_standardized, Hne|]. split; [|split].
  - intros Hv v Hin. apply in_map_iff in Hin. destruct Hin as (a & <- & Ha).
    rewrite (variance_zero_all_mean col Hv a Ha). field. exact Hs.
  - intros Hc Hexact. rewrite (variance_standardized s col Hne Hs).
    assert (Es : s = np_sqrt (variance col)).
    { subst s. unfold StandardScaler.column_scale. rewrite Hc. reflexivity. }
    rewrite Es, Hexact. field.
    intros E. pose proof (not_constant_positive col Hc) as Hp.
    rewrite E in Hp. apply (Qlt_irrefl 0), Hp.
  - intros Hc. rewrite (variance_standardized s col Hne Hs).
    assert (Es : s = 1).
    { subst s. unfold StandardScaler.column_scale. rewrite Hc. reflexivity. }
    rewrite Es. field.
Qed.

(** X10.  For a scaler returned by [fit], standardizing what
    [inverse_transform] produced gives back the vector it was produced
    from: [transform] undoes [inverse_transform] on every vector of the
    fitted width. *)
Theorem transform_undoes_inverse_transform (X : list (list Q)) (st : StandardScaler.t)
  (v : list Q) :
  StandardScaler.fit np_sqrt X = Ok st ->
  length v = length (StandardScaler.mean_ st) ->
  exists v',
    StandardScaler.transform st (StandardScaler.inverse_transform st v) = Ok v'
    /\ Forall2 Qeq v' v.
Proof using np_sqrt_pos.
  intros Hfit Hv.
  pose proof (fit_scales_nonzero np_sqrt np_sqrt_pos X st Hfit) as Hnz.
  assert (Hs : length (StandardScaler.scale_ st) = length (StandardScaler.mean_ st)).
  { apply fit_inv in Hfit. destruct Hfit as (x0 & X' & _ & _ & ->). simpl.
    rewrite !length_map. reflexivity. }
  unfold StandardScaler.transform, StandardScaler.inverse_transform.
  apply standardize_unstandardize; [congruence | congruence | exact Hnz].
Qed.

End Standardized.

Lemma standardized_training_columns_witness :
  exists V,
    traverse (StandardScaler.transform
                {| StandardScaler.mean_ := map mean (columns 3 small_matrix);
                   StandardScaler.var_ := map variance (columns 3 small_matrix);
                   StandardScaler.scale_ :=
                     map (StandardScaler.column_scale sqrt_down)
                         (columns 3 small_matrix) |})
             small_matrix = Ok V
    /\ mean (column 0 V) == 0
    /\ variance (column 0 V) == 1.
Proof.
  destruct (standardized_training_columns sqrt_down sqrt_down_pos small_matrix _ eq_refl)
    as (V & HV & Hj).
  exists V. split; [exact HV|].
  destruct (Hj 0%nat) as (Hm & _ & Hv & _).
  - simpl. lia.
  - split; [exact Hm|]. apply Hv.
    + vm_compute. reflexivity.
    + vm_compute. reflexivity.
Defined.

Lemma transform_undoes_inverse_transform_witness :
  exists st v',
    StandardScaler.fit sqrt_down small_matrix = Ok st
    /\ StandardScaler.transform st (StandardScaler.inverse_transform st [1; 0; -1]) = Ok v'
    /\ Forall2 Qeq v' [1; 0; -1].
Proof.
  eexists.
  destruct (transform_undoes_inverse_transform sqrt_down sqrt_down_pos small_matrix _
              [1; 0; -1] eq_refl eq_refl) as (v' & Ht & He).
  exists v'. split; [reflexivity|]. split; [exact Ht | exact He].
Defined.


(** ** When training succeeds *)

Lemma forest_fit_inv (rng : nat -> nat -> nat)
  (best_split : nat -> list (list Q * Q) -> option (nat * Q))
  (n_estimators : nat) (X : list (list Q)) (y : list Q) (rf : RandomForestRegressor.t) :
  RandomForestRegressor.fit rng best_split n_estimators X y = Ok rf ->
  X <> [] /\ length X = length y /\ n_estimators <> 0%nat.
Proof.
  unfold RandomForestRegressor.fit. destruct X as [|x0 X']; [discriminate|].
  destruct (negb (rectangular (length x0) (x0 :: X'))); [discriminate|].
  destruct (Nat.eqb (length (x0 :: X')) (length y)) eqn:El; [|discriminate].
  destruct (Nat.eqb n_estimators 0) eqn:En; [discriminate|].
  intros _. split; [discriminate|]. split; [apply Nat.eqb_eq, El | apply Nat.eqb_neq, En].
Qed.

Lemma preprocessor_fit_trainable (np_sqrt : Q -> Q) (X : list row)
  (ct : ColumnTransformer.t) :
  ColumnTransformer.fit np_sqrt X = Ok ct -> trainable X = true.
Proof.
  intros Hfit.
  pose proof (fit_rows_well_formed np_sqrt X ct Hfit) as Hwf.
  pose proof (fit_uniform np_sqrt X ct Hfit) as Hu.
  destruct (preprocessor_fit_inv np_sqrt X ct Hfit) as (Xn & Xc & sc & en & HXn & _ & Hsc & _).
  unfold trainable. apply andb_true_intro; split; [apply andb_true_intro; split|].
  - apply negb_true_iff, Nat.eqb_neq.
    apply fit_inv in Hsc. destruct Hsc as (x0 & Xn' & -> & _).
    apply traverse_length in HXn. simpl in HXn. lia.
  - apply forallb_forall. exact Hwf.
  - exact Hu.
Qed.

Section Fitting.
Variable np_sqrt : Q -> Q.
Hypothesis np_sqrt_pos : forall x : Q, 0 < x -> 0 < np_sqrt x.
Variable rng : nat -> nat -> nat.
Variable best_split : nat -> list (list Q * Q) -> option (nat * Q).

(** The model that [Pipeline.fit] returns on a trainable frame. *)
Lemma pipeline_fit_ok (X : list row) (y : list Q) :
  trainable X = true -> length y = length X ->
  exists ct Xt,
    ColumnTransformer.fit np_sqrt X = Ok ct
    /\ traverse (ColumnTransformer.transform ct) X = Ok Xt
    /\ Xt <> [] /\ length Xt = length X
    /\ Pipeline.fit np_sqrt rng best_split X y
       = Ok {| Pipeline.preprocessor := ct;
               Pipeline.regressor :=
                 {| RandomForestRegressor.estimators_ :=
                      map (fun k => RandomForestRegressor.build best_split k (length Xt)
                                      (RandomForestRegressor.bootstrap rng k (combine Xt y)))
                          (seq 0 100);
                    RandomForestRegressor.n_features_in_ :=
                      ColumnTransformer.n_features_out ct |} |}.
Proof using np_sqrt_pos.
  intros Htr Hly.
  destruct (preprocessor_fit_ok np_sqrt X Htr) as (ct & Hct).
  pose proof (fit_fitted np_sqrt np_sqrt_pos X ct Hct) as Hf.
  assert (HX : X <> []).
  { unfold trainable in Htr. destruct X; [discriminate | discriminate]. }
  destruct (traverse_all (ColumnTransformer.transform ct)
              (fun x => length x = ColumnTransformer.n_features_out ct) X)
    as (Xt & HXt & LXt & Wt).
  { intros r Hr. apply transform_ok;
      [exact Hf | apply (fit_reads_training np_sqrt X ct r Hct Hr)]. }
  assert (HXt0 : Xt <> []).
  { intros E; subst Xt. destruct X; [contradiction | discriminate]. }
  exists ct, Xt. split; [exact Hct|]. split; [exact HXt|].
  split; [exact HXt0|]. split; [exact LXt|].
  unfold Pipeline.fit. rewrite Hct; cbn [mbind result_bind].
  rewrite HXt; cbn [mbind result_bind].
  rewrite (forest_fit_ok rng best_split 100 (ColumnTransformer.n_features_out ct)
             Xt y HXt0 Wt ltac:(congruence) ltac:(discriminate)).
  reflexivity.
Qed.

Lemma pipeline_fit_inv (X : list row) (y : list Q) (m : Pipeline.t) :
  Pipeline.fit np_sqrt rng best_split X y = Ok m ->
  trainable X = true /\ length y = length X.
Proof.
  intros H. unfold Pipeline.fit in H.
  inv_bind H. rename a into ct, Ha into Hct.
  inv_bind H. rename a into Xt, Ha into HXt.
  inv_bind H. rename a into rf, Ha into Hrf.
  split; [apply (preprocessor_fit_trainable np_sqrt X ct Hct)|].
  apply forest_fit_inv in Hrf. destruct Hrf as (_ & Hl & _).
  apply traverse_length in HXt. congruence.
Qed.



End Fitting.

(** ** Non-negative targets give non-negative predictions *)

Lemma qsum_bounds (lo hi : Q) (xs : list Q) :
  (forall x, In x xs -> lo <= x /\ x <= hi) ->
  inject_Z (Z.of_nat (length xs)) * lo <= qsum xs
  /\ qsum xs <= inject_Z (Z.of_nat (length xs)) * hi.
Proof.
  induction xs as [|x xs IH]; intros H.
  - change (0 * lo <= 0 /\ 0 <= 0 * hi). rewrite !Qmult_0_l. split; apply Qle_refl.
  - cbn [qsum fold_right length]. fold (qsum xs). rewrite inject_nat_succ.
    destruct (H x (or_introl eq_refl)) as (H1 & H2).
    destruct IH as (I1 & I2); [intros z Hz; apply H; right; exact Hz|].
    set (n := inject_Z (Z.of_nat (length xs))) in *.
    assert (E1 : (n + 1) * lo == n * lo + lo) by ring.
    assert (E2 : (n + 1) * hi == n * hi + hi) by ring.
    rewrite E1, E2. split; lra.
Qed.

Lemma mean_bounds (lo hi : Q) (xs : list Q) :
  xs <> [] -> (forall x, In x xs -> lo <= x /\ x <= hi) ->
  lo <= mean xs /\ mean xs <= hi.
Proof.
  intros Hne H. destruct (qsum_bounds lo hi xs H) as (H1 & H2).
  assert (Hp : 0 < inject_Z (Z.of_nat (length xs))).
  { apply inject_nat_pos. destruct xs; [contradiction | simpl; lia]. }
  unfold mean. split.
  - apply Qle_shift_div_l; [exact Hp | lra].
  - apply Qle_shift_div_r; [exact Hp | lra].
Qed.

Lemma build_within (best_split : nat -> list (list Q * Q) -> option (nat * Q))
  (lo hi : Q) (k fuel : nat) (D : list (list Q * Q)) :
  D <> [] -> (forall s, In s D -> lo <= snd s /\ snd s <= hi) ->
  leaves_within lo hi (RandomForestRegressor.build best_split k fuel D).
Proof.
  revert D; induction fuel as [|fuel IH]; intros D Hne Hr.
  - simpl. apply mean_bounds.
    + destruct D; [contradiction | discriminate].
    + intros y Hy. apply in_map_iff in Hy. destruct Hy as (s & <- & Hs). apply Hr, Hs.
  - assert (Hleaf : lo <= mean (map snd D) /\ mean (map snd D) <= hi).
    { apply mean_bounds.
      + destruct D; [contradiction | discriminate].
      + intros y Hy. apply in_map_iff in Hy. destruct Hy as (s & <- & Hs). apply Hr, Hs. }
    cbn [RandomForestRegressor.build].
    destruct (Nat.ltb (length D) 2 || Qeq_bool (variance (map snd D)) 0); [exact Hleaf|].
    destruct (best_split k D) as [[f th]|]; [|exact Hleaf].
    cbv zeta.
    set (L := List.filter (fun s => Qle_bool _ th) D).
    set (R := List.filter (fun s => negb _) D).
    destruct (Nat.eqb (length L) 0) eqn:EL; [exact Hleaf|].
    destruct (Nat.eqb (length R) 0) eqn:ER; [exact Hleaf|].
    apply Nat.eqb_neq in EL, ER. simpl. split; apply IH.
    + intros E. rewrite E in EL. simpl in EL. lia.
    + intros s Hs. apply Hr. subst L. apply filter_In in Hs. apply Hs.
    + intros E. rewrite E in ER. simpl in ER. lia.
    + intros s Hs. apply Hr. subst R. apply filter_In in Hs. apply Hs.
Qed.

Lemma tree_predict_within (lo hi : Q) (t : tree) (x : list Q) :
  leaves_within lo hi t -> lo <= tree_predict t x /\ tree_predict t x <= hi.
Proof.
  induction t as [v i n | f th i n l IHl r IHr]; simpl; intros H; [exact H|].
  destruct H as (Hl & Hr). destruct (Qle_bool (nth f x 0) th); auto.
Qed.

Lemma build_leaf_samples (best_split : nat -> list (list Q * Q) -> option (nat * Q))
  (k fuel : nat) (D : list (list Q * Q)) :
  leaf_samples (RandomForestRegressor.build best_split k fuel D) = length D.
Proof.
  revert D; induction fuel as [|fuel IH]; intros D; [reflexivity|].
  cbn [RandomForestRegressor.build].
  destruct (Nat.ltb (length D) 2 || Qeq_bool (variance (map snd D)) 0); [reflexivity|].
  destruct (best_split k D) as [[f th]|]; [|reflexivity].
  pose proof (partition_lengths (fun s : list Q * Q => Qle_bool (nth f (fst s) 0) th) D)
    as Hp.
  cbv beta in Hp. cbv zeta.
  set (L := List.filter (fun s => Qle_bool _ th) D) in *.
  set (R := List.filter (fun s => negb _) D) in *.
  destruct (Nat.eqb (length L) 0 || Nat.eqb (length R) 0); [reflexivity|].
  simpl. rewrite !IH. exact Hp.
Qed.

Lemma forest_predict_inv (rf : RandomForestRegressor.t) (x : list Q) (v : Q) :
  RandomForestRegressor.predict rf x = Ok v ->
  v = RandomForestRegressor.average
        (map (fun t => tree_predict t x) (RandomForestRegressor.estimators_ rf))
  /\ RandomForestRegressor.estimators_ rf <> [].
Proof.
  unfold RandomForestRegressor.predict. destruct (negb _); [discriminate|].
  destruct (RandomForestRegressor.estimators_ rf) as [|t ts]; [discriminate|].
  intros H; inversion H. split; [reflexivity | discriminate].
Qed.

Lemma upper_bound (ys : list Q) : exists hi, forall t, In t ys -> t <= hi.
Proof.
  induction ys as [|a ys (hi & IH)].
  - exists 0. intros t [].
  - destruct (Qlt_le_dec hi a) as [H|H].
    + exists a. intros t [<-|Ht]; [apply Qle_refl|].
      apply Qle_trans with hi; [apply IH, Ht | apply Qlt_le_weak, H].
    + exists hi. intros t [<-|Ht]; [exact H | apply IH, Ht].
Qed.

Lemma pow2_pos (e : Z) : 0 < pow2 e.
Proof.
  destruct e as [|p|p]; unfold pow2, Qlt; simpl; try lia;
    rewrite ?Z.mul_1_r; apply Z.pow_pos_nonneg; lia.
Qed.

Lemma round_half_even_nonneg (x : Q) : 0 <= x -> (0 <= round_half_even x)%Z.
Proof.
  intros H. unfold round_half_even. cbv zeta.
  assert (Hf : (0 <= Qfloor x)%Z) by (change 0%Z with (Qfloor 0); apply Qfloor_resp_le, H).
  destruct (Qcompare _ _); [destruct (Z.even _)| |]; lia.
Qed.

(** Rounding to float64 keeps a number that is not negative so. *)
Lemma binary64_nonneg (x : Q) : 0 <= x -> 0 <= binary64 x.
Proof.
  intros H. unfold binary64. cbv zeta.
  assert (Hx : 0 <= Qred x) by (rewrite Qred_correct; exact H).
  destruct (Qnum (Qred x)) eqn:En; [apply Qle_refl | |];
    (apply Qle_bool_iff in Hx; rewrite Hx; rewrite Qred_correct;
     apply Qmult_le_0_compat;
     [change 0 with (inject_Z 0); rewrite <- Zle_Qle; apply round_half_even_nonneg;
      apply Qle_shift_div_l; [apply pow2_pos | rewrite Qmult_0_l; apply Qabs_nonneg]
     |apply Qlt_le_weak, pow2_pos]).
Qed.

Lemma float_sum_nonneg (ps : list Q) :
  (forall p, In p ps -> 0 <= p) -> 0 <= float_sum ps.
Proof.
  unfold float_sum. intros H.
  assert (G : forall a, 0 <= a -> 0 <= fold_left (fun acc x => binary64 (acc + x)) ps a).
  { induction ps as [|p ps IH]; intros a Ha; simpl; [exact Ha|].
    apply IH; [intros q Hq; apply H; right; exact Hq|].
    apply binary64_nonneg.
    pose proof (H p (or_introl eq_refl)) as Hp. lra. }
  apply G, Qle_refl.
Qed.

Lemma average_nonneg (ps : list Q) :
  (forall p, In p ps -> 0 <= p) -> 0 <= RandomForestRegressor.average ps.
Proof.
  intros H. unfold RandomForestRegressor.average. apply binary64_nonneg.
  pose proof (float_sum_nonneg ps H) as Hs.
  destruct ps as [|p ps].
  - unfold Qdiv, Qinv. simpl. rewrite Qmult_0_r. apply Qle_refl.
  - apply Qle_shift_div_l; [apply inject_nat_pos; simpl; lia|].
    rewrite Qmult_0_l. exact Hs.
Qed.

Section Bounds.
Variable np_sqrt : Q -> Q.
Hypothesis np_sqrt_pos : forall x : Q, 0 < x -> 0 < np_sqrt x.
Variable rng : nat -> nat -> nat.
Variable best_split : nat -> list (list Q * Q) -> option (nat * Q).

(** X12.  A model fitted on traffic volumes none of which is negative
    never outputs a negative value, on every row and for every random
    stream and splitter; so [predict] never has to clamp and returns the
    floor of the model's output. *)
Theorem nonnegative_targets_nonnegative_output (X : list row) (y : list Q)
  (m : Pipeline.t) :
  Pipeline.fit np_sqrt rng best_split X y = Ok m ->
  (forall t, In t y -> 0 <= t) ->
  forall r v,
    Pipeline.predict m [r] = Ok [v] ->
    0 <= v
    /\ forall ws hs,
         TrafficVolumePredictor.predict (TrafficVolumePredictor.mk m ws hs) r
         = Ok (Qfloor v).
Proof using np_sqrt_pos.
  intros Hm Hy r v Hv.
  destruct (upper_bound y) as (hi & Hhi).
  destruct (pipeline_fit_inv np_sqrt rng best_split X y m Hm) as (Htr & Hly).
  destruct (pipeline_fit_ok np_sqrt np_sqrt_pos rng best_split X y Htr Hly)
    as (ct & Xt & _ & _ & HXt0 & LXt & Hfit).
  assert (Em : {| Pipeline.preprocessor := ct;
                  Pipeline.regressor :=
                    {| RandomForestRegressor.estimators_ :=
                         map (fun k => RandomForestRegressor.build best_split k
                                         (length Xt)
                                         (RandomForestRegressor.bootstrap rng k
                                            (combine Xt y)))
                             (seq 0 100);
                       RandomForestRegressor.n_features_in_ :=
                         ColumnTransformer.n_features_out ct |} |} = m)
    by congruence.
  clear Hm Hfit.
  set (D := combine Xt y) in *.
  assert (HD : D <> []).
  { subst D. destruct Xt as [|x0 Xt']; [contradiction|].
    destruct y as [|y0 y']; [simpl in *; lia | discriminate]. }
  assert (HDr : forall s, In s D -> 0 <= snd s /\ snd s <= hi).
  { intros [x t] Hs. apply in_combine_r in Hs. split; [apply Hy, Hs | apply Hhi, Hs]. }
  assert (H0 : 0 <= v).
  { rewrite <- Em in Hv. unfold Pipeline.predict in Hv. cbn [traverse] in Hv.
    inv_bind Hv. inversion Hv; subst a; clear Hv.
    unfold Pipeline.predict_row in Ha. inv_bind Ha.
    apply forest_predict_inv in Ha. destruct Ha as (-> & Hne).
    cbn [Pipeline.regressor RandomForestRegressor.estimators_] in *.
    apply average_nonneg.
    intros p Hp. apply in_map_iff in Hp. destruct Hp as (t & <- & Ht).
    apply in_map_iff in Ht. destruct Ht as (k & <- & _).
    apply (tree_predict_within 0 hi), build_within.
    + intros E. apply (f_equal (@length _)) in E. rewrite bootstrap_length in E.
      destruct D; [contradiction | discriminate].
    + intros s Hs. apply HDr, (bootstrap_In rng k), Hs. }
  split; [exact H0|].
  intros ws hs. unfold TrafficVolumePredictor.predict. cbv zeta.
  cbn [TrafficVolumePredictor.model]. rewrite Hv. cbn [mbind result_bind]. f_equal.
  rewrite (int_floor_nonneg v H0). apply Z.max_r.
  change 0%Z with (Qfloor 0). apply Qfloor_resp_le, H0.
Qed.

End Bounds.


(** ** Instances for training *)

Lemma varied_model_fit :
  Pipeline.fit sqrt_down rng_identity no_split varied_frame varied_target
  = Ok varied_model.
Proof. vm_compute. reflexivity. Qed.

Lemma varied_model_output :
  Pipeline.predict varied_model [example_input] = Ok [varied_output].
Proof. vm_compute. reflexivity. Qed.


Lemma nonnegative_targets_nonnegative_output_witness :
  0 <= varied_output
  /\ TrafficVolumePredictor.predict (TrafficVolumePredictor.mk varied_model [] [])
       example_input
     = Ok (Qfloor varied_output).
Proof.
  destruct (nonnegative_targets_nonnegative_output sqrt_down sqrt_down_pos rng_identity
              no_split varied_frame varied_target varied_model varied_model_fit)
    with (r := example_input) (v := varied_output) as (H0 & Hp).
  - intros t Ht. simpl in Ht. destruct Ht as [<-|[<-|[]]]; vm_compute; discriminate.
  - exact varied_model_output.
  - split; [exact H0 | apply Hp].
Defined.

(** X13.  Every tree that the forest's [fit] grows holds each of the [n]
    bootstrap draws in exactly one leaf: the sample counts of its leaves
    add up to the number of training rows.  [fit] returns as many trees
    as asked for and records the width of the training matrix. *)
Theorem fitted_trees_hold_every_draw (rng : nat -> nat -> nat)
  (best_split : nat -> list (list Q * Q) -> option (nat * Q))
  (n_estimators : nat) (X : list (list Q)) (y : list Q) (rf : RandomForestRegressor.t) :
  RandomForestRegressor.fit rng best_split n_estimators X y = Ok rf ->
  length (RandomForestRegressor.estimators_ rf) = n_estimators
  /\ (forall x, In x X -> length x = RandomForestRegressor.n_features_in_ rf)
  /\ (forall t, In t (RandomForestRegressor.estimators_ rf) ->
        leaf_samples t = length X).
Proof.
  intros H. pose proof (forest_fit_inv _ _ _ _ _ _ H) as (_ & Hl & _).
  unfold RandomForestRegressor.fit in H. destruct X as [|x0 X'] eqn:EX; [discriminate|].
  rewrite <- EX in *.
  destruct (rectangular (length x0) X) eqn:Hr; [|discriminate]. cbn [negb] in H.
  destruct (negb (Nat.eqb (length X) (length y))); [discriminate|].
  destruct (Nat.eqb n_estimators 0); [discriminate|].
  assert (E : rf = {| RandomForestRegressor.estimators_ :=
                        map (fun k => RandomForestRegressor.build best_split k (length X)
                                        (RandomForestRegressor.bootstrap rng k
                                           (combine X y)))
                            (seq 0 n_estimators);
                      RandomForestRegressor.n_features_in_ := length x0 |})
    by congruence.
  subst rf. cbn [RandomForestRegressor.estimators_ RandomForestRegressor.n_features_in_].
  split; [rewrite length_map, length_seq; reflexivity|]. split.
  - intros x Hx. unfold rectangular in Hr. rewrite forallb_forall in Hr.
    apply Nat.eqb_eq, Hr, Hx.
  - intros t Ht. apply in_map_iff in Ht. destruct Ht as (k & <- & _).
    rewrite build_leaf_samples, bootstrap_length, length_combine, <- Hl.
    apply Nat.min_id.
Qed.

Lemma fitted_trees_hold_every_draw_witness :
  exists rf,
    RandomForestRegressor.fit rng_identity (fun _ _ => Some (0%nat, 1)) 3
      [[0]; [2]; [1]] [10; 30; 20] = Ok rf
    /\ forall t, In t (RandomForestRegressor.estimators_ rf) -> leaf_samples t = 3%nat.
Proof.
  eexists. split; [reflexivity|].
  apply (fitted_trees_hold_every_draw rng_identity (fun _ _ => Some (0%nat, 1)) 3
           [[0]; [2]; [1]] [10; 30; 20] _ eq_refl).
Defined.


(** ** Evaluation metrics *)

Lemma squared_errors_nonneg (ys ps : list Q) (e : Q) :
  In e (squared_errors ys ps) -> 0 <= e.
Proof.
  revert ps; induction ys as [|a ys IH]; intros [|b ps] H; simpl in H; try contradiction.
  destruct H as [<-|H]; [apply square_nonneg | apply (IH ps H)].
Qed.

Lemma squared_errors_zero_iff (ys ps : list Q) :
  length ys = length ps ->
  (qsum (squared_errors ys ps) == 0 <-> Forall2 Qeq ys ps).
Proof.
  revert ps; induction ys as [|a ys IH]; intros [|b ps] Hl; simpl in Hl; try discriminate.
  - simpl. split; [constructor | reflexivity].
  - cbn [squared_errors qsum fold_right]. fold (qsum (squared_errors ys ps)).
    pose proof (square_nonneg (a - b)) as Hsq.
    assert (Hrest : 0 <= qsum (squared_errors ys ps))
      by (apply qsum_nonneg; intros e He; apply (squared_errors_nonneg ys ps e He)).
    split.
    + intros H.
      assert (H1 : (a - b) * (a - b) == 0) by lra.
      assert (H2 : qsum (squared_errors ys ps) == 0) by lra.
      constructor.
      * apply Qmult_integral in H1. lra.
      * apply IH; [lia | exact H2].
    + intros H. inversion H as [|? ? ? ? Hab Hr]; subst.
      apply IH in Hr; [|lia]. rewrite Hr, Hab. ring.
Qed.

Lemma mean_squared_error_ok (y_true y_pred : list Q) :
  length y_true = length y_pred -> y_true <> [] ->
  exists mse,
    mean_squared_error y_true y_pred = Ok mse
    /\ 0 <= mse
    /\ (mse == 0 <-> Forall2 Qeq y_true y_pred).
Proof.
  unfold mean_squared_error.
  intros Hl Hne. rewrite Hl, Nat.eqb_refl. cbn [negb]. rewrite <- Hl.
  destruct (Nat.eqb (length y_true) 0) eqn:E0.
  { apply Nat.eqb_eq in E0. destruct y_true; [contradiction | discriminate]. }
  eexists. split; [reflexivity|].
  assert (Hp : 0 < inject_Z (Z.of_nat (length (squared_errors y_true y_pred)))).
  { rewrite squared_errors_length by exact Hl. apply inject_nat_pos.
    apply Nat.eqb_neq in E0. lia. }
  split.
  - apply mean_nonneg. intros e He. apply (squared_errors_nonneg _ _ e He).
  - rewrite <- (squared_errors_zero_iff y_true y_pred Hl). unfold mean. split.
    + intros H.
      assert (E : qsum (squared_errors y_true y_pred)
                  == (qsum (squared_errors y_true y_pred)
                      / inject_Z (Z.of_nat (length (squared_errors y_true y_pred))))
                     * inject_Z (Z.of_nat (length (squared_errors y_true y_pred)))).
      { field. intros Ez. rewrite Ez in Hp. apply (Qlt_irrefl 0), Hp. }
      rewrite E, H. ring.
    + intros H. rewrite H. unfold Qdiv. ring.
Qed.

(** X14.  [mean_squared_error] raises ValueError when the two lists
    differ in length or are empty.  Otherwise it returns a value that is
    never negative, and that is 0 exactly when every prediction equals
    its target. *)
Theorem mean_squared_error_zero_iff_exact (y_true y_pred : list Q) :
  (length y_true <> length y_pred \/ y_true = [] ->
   mean_squared_error y_true y_pred = Raise ValueError)
  /\ (length y_true = length y_pred -> y_true <> [] ->
      exists mse,
        mean_squared_error y_true y_pred = Ok mse
        /\ 0 <= mse
        /\ (mse == 0 <-> Forall2 Qeq y_true y_pred)).
Proof.
  split; [|apply mean_squared_error_ok].
  unfold mean_squared_error. intros [H|H].
  - apply Nat.eqb_neq in H. rewrite H. reflexivity.
  - subst. destruct y_pred; reflexivity.
Qed.

Lemma mean_squared_error_zero_iff_exact_witness :
  exists mse,
    mean_squared_error [3; 5] [3; 4] = Ok mse /\ 0 <= mse /\ ~ mse == 0.
Proof.
  destruct (proj2 (mean_squared_error_zero_iff_exact [3; 5] [3; 4]) eq_refl)
    as (mse & Hm & Hn & Hz).
  - discriminate.
  - exists mse. split; [exact Hm|]. split; [exact Hn|].
    intros E. apply Hz in E. inversion E as [|? ? ? ? _ Hr]; subst.
    inversion Hr as [|? ? ? ? H54 _]; subst. vm_compute in H54. discriminate.
Defined.






(** ** The train/test split *)

Lemma n_test_samples_eq (n : nat) : n_test_samples n = ((n + 4) / 5)%nat.
Proof.
  unfold n_test_samples, Qceiling, Qfloor.
  assert (E : forall z : Z, (0 <= z)%Z ->
     (- (Qnum (- ((1 # 5) * inject_Z z)) / Zpos (Qden (- ((1 # 5) * inject_Z z)))))%Z
     = ((z + 4) / 5)%Z).
  { intros z Hz. cbn [Qopp Qmult inject_Z Qnum Qden]. rewrite Pos.mul_1_r, Z.mul_1_l.
    pose proof (Z.div_mod (- z) 5 ltac:(lia)) as H1.
    pose proof (Z.mod_pos_bound (- z) 5 ltac:(lia)) as H2.
    pose proof (Z.div_mod (z + 4) 5 ltac:(lia)) as H3.
    pose proof (Z.mod_pos_bound (z + 4) 5 ltac:(lia)) as H4.
    lia. }
  destruct ((1 # 5) * inject_Z (Z.of_nat n)) as [a b] eqn:Eab.
  specialize (E (Z.of_nat n) ltac:(lia)). rewrite Eab in E. cbn [Qopp Qnum Qden] in E.
  cbn [Qopp Qnum Qden]. rewrite E.
  rewrite <- (Nat2Z.id ((n + 4) / 5)). f_equal.
  rewrite Nat2Z.inj_div, Nat2Z.inj_add. reflexivity.
Qed.

Lemma take_rows_ok {A : Type} (X : list A) (ind : list nat) :
  Forall (fun i => (i < length X)%nat) ind ->
  exists l, take_rows X ind = Ok l /\ map Some l = map (nth_error X) ind.
Proof.
  unfold take_rows. induction ind as [|i ind IH]; intros H.
  - exists []. split; reflexivity.
  - inversion H as [|? ? Hi Hr]; subst. destruct (IH Hr) as (l & El & Ml).
    destruct (nth_error X i) as [x|] eqn:Ex.
    + exists (x :: l). cbn [traverse]. rewrite Ex. cbn [mbind result_bind].
      rewrite El. cbn [mbind result_bind]. split; [reflexivity|].
      cbn [map]. rewrite Ex, Ml. reflexivity.
    + apply nth_error_None in Ex. lia.
Qed.

Lemma map_Some_inj {A : Type} (l l' : list A) : map Some l = map Some l' -> l = l'.
Proof.
  revert l'; induction l as [|a l IH]; intros [|b l'] H; simpl in H;
    try discriminate; [reflexivity|].
  injection H as -> H. f_equal. apply IH, H.
Qed.

Lemma nth_error_combine {A B : Type} (X : list A) (y : list B) (i : nat) a b :
  nth_error X i = Some a -> nth_error y i = Some b ->
  nth_error (combine X y) i = Some (a, b).
Proof.
  revert y i; induction X as [|x X IH]; intros [|c y] [|i] Ha Hb; simpl in *;
    try discriminate.
  - congruence.
  - apply IH; assumption.
Qed.

Lemma combine_rows {A B : Type} (X : list A) (y : list B) (ind : list nat)
      (xs : list A) (ys : list B) :
  map Some xs = map (nth_error X) ind ->
  map Some ys = map (nth_error y) ind ->
  map Some (combine xs ys) = map (nth_error (combine X y)) ind.
Proof.
  revert xs ys; induction ind as [|i ind IH]; intros [|a xs] [|b ys] Hx Hy;
    simpl in *; try discriminate; [reflexivity|].
  injection Hx as Ha Hx. injection Hy as Hb Hy.
  rewrite (nth_error_combine X y i a b) by (symmetry; assumption).
  f_equal. apply IH; assumption.
Qed.

Lemma map_nth_error_seq {A : Type} (l : list A) :
  map (nth_error l) (seq 0 (length l)) = map Some l.
Proof.
  induction l as [|a l IH]; [reflexivity|].
  cbn [length seq map nth_error]. f_equal.
  rewrite <- seq_shift, map_map. exact IH.
Qed.

Section Splitting.
Variable permutation : nat -> list nat.
Hypothesis permutation_spec : forall n, Permutation (permutation n) (seq 0 n).

Lemma train_test_split_ok {A B : Type} (X : list A) (y : list B) :
  length X = length y -> (2 <= length X)%nat ->
  exists X_train X_test y_train y_test,
    train_test_split permutation X y = Ok (X_train, X_test, y_train, y_test)
    /\ length X_test = ((length X + 4) / 5)%nat
    /\ length X_train = (length X - length X_test)%nat
    /\ length y_train = length X_train
    /\ length y_test = length X_test
    /\ Permutation (combine X_train y_train ++ combine X_test y_test)
                   (combine X y).
Proof using permutation_spec.
  unfold train_test_split. cbv zeta. rewrite n_test_samples_eq.
  set (n := length X).
  intros Hl Hn. rewrite <- Hl, Nat.eqb_refl. cbn [negb].
  set (k := ((n + 4) / 5)%nat).
  assert (Hk : (k * 5 <= n + 4)%nat).
  { unfold k. pose proof (Nat.div_mod_eq (n + 4) 5). lia. }
  assert (Hk' : (n + 4 < (k + 1) * 5)%nat).
  { unfold k. pose proof (Nat.div_mod_eq (n + 4) 5).
    pose proof (Nat.mod_upper_bound (n + 4) 5 ltac:(lia)). lia. }
  assert (Hkn : (k < n)%nat) by lia.
  destruct (Nat.eqb (n - k) 0) eqn:E0; [apply Nat.eqb_eq in E0; lia|].
  pose proof (permutation_spec n) as Hp.
  assert (Hlen : length (permutation n) = n)
    by (rewrite (Permutation_length Hp); apply length_seq).
  assert (Hall : Forall (fun i => (i < n)%nat) (permutation n)).
  { apply List.Forall_forall. intros i Hi.
    apply (Permutation_in _ Hp), in_seq in Hi. lia. }
  assert (Etr : firstn (n - k) (skipn k (permutation n)) = skipn k (permutation n)).
  { apply firstn_all2. rewrite length_skipn. lia. }
  rewrite Etr.
  assert (Hboth : Forall (fun i => (i < n)%nat) (firstn k (permutation n))
                  /\ Forall (fun i => (i < n)%nat) (skipn k (permutation n))).
  { apply List.Forall_app. rewrite firstn_skipn. exact Hall. }
  destruct Hboth as [Hte Htr].
  destruct (take_rows_ok X _ Htr) as (X_train & EXtr & MXtr).
  destruct (take_rows_ok X _ Hte) as (X_test & EXte & MXte).
  assert (Hte' : Forall (fun i => (i < length y)%nat) (firstn k (permutation n)))
    by (rewrite <- Hl; exact Hte).
  assert (Htr' : Forall (fun i => (i < length y)%nat) (skipn k (permutation n)))
    by (rewrite <- Hl; exact Htr).
  destruct (take_rows_ok y _ Htr') as (y_train & Eytr & Mytr).
  destruct (take_rows_ok y _ Hte') as (y_test & Eyte & Myte).
  exists X_train, X_test, y_train, y_test.
  rewrite EXtr. cbn [mbind result_bind]. rewrite EXte. cbn [mbind result_bind].
  rewrite Eytr. cbn [mbind result_bind]. rewrite Eyte. cbn [mbind result_bind].
  assert (LXte : length X_test = k).
  { rewrite <- (length_map Some), MXte, length_map, length_firstn. lia. }
  assert (LXtr : length X_train = (n - k)%nat).
  { rewrite <- (length_map Some), MXtr, length_map, length_skipn. lia. }
  assert (Lyte : length y_test = k).
  { rewrite <- (length_map Some), Myte, length_map, length_firstn. lia. }
  assert (Lytr : length y_train = (n - k)%nat).
  { rewrite <- (length_map Some), Mytr, length_map, length_skipn. lia. }
  split; [reflexivity|]. split; [exact LXte|]. split; [lia|].
  split; [lia|]. split; [lia|].
  pose proof (combine_rows X y _ _ _ MXtr Mytr) as Ctr.
  pose proof (combine_rows X y _ _ _ MXte Myte) as Cte.
  assert (Hidx : Permutation (skipn k (permutation n) ++ firstn k (permutation n))
                             (seq 0 (length (combine X y)))).
  { rewrite length_combine, <- Hl, Nat.min_id. fold n.
    rewrite Permutation_app_comm, firstn_skipn. exact Hp. }
  apply (Permutation_map (nth_error (combine X y))) in Hidx.
  rewrite map_app, <- Ctr, <- Cte, <- map_app, map_nth_error_seq in Hidx.
  apply Permutation_sym, Permutation_map_inv in Hidx.
  destruct Hidx as (l3 & E3 & P3). apply map_Some_inj in E3. subst l3.
  exact P3.
Qed.

Lemma train_test_split_raises {A B : Type} (X : list A) (y : list B) :
  length X <> length y \/ (length X <= 1)%nat ->
  train_test_split permutation X y = Raise ValueError.
Proof.
  unfold train_test_split. cbv zeta. rewrite n_test_samples_eq.
  set (n := length X).
  intros [H|H].
  - destruct (Nat.eqb (length y) n) eqn:E; [apply Nat.eqb_eq in E; congruence|].
    reflexivity.
  - destruct (negb (Nat.eqb (length y) n)); [reflexivity|].
    assert (E : (n - (n + 4) / 5 = 0)%nat).
    { destruct n as [|[|k]]; [reflexivity | reflexivity | lia]. }
    rewrite E. reflexivity.
Qed.

(** X16.  With a generator whose [permutation(n)] is a rearrangement of
    [0 .. n-1], [train_test_split] raises ValueError when the features
    and the target differ in length or there are fewer than two rows.
    Otherwise it returns; the test part has [ceil(n / 5)] rows and the
    training part the rest; features and targets stay aligned, and the
    two parts together hold every (row, target) pair of the data exactly
    once. *)
Theorem train_test_split_partitions {A B : Type} (X : list A) (y : list B) :
  (length X <> length y \/ (length X <= 1)%nat ->
   train_test_split permutation X y = Raise ValueError)
  /\ (length X = length y -> (2 <= length X)%nat ->
      exists X_train X_test y_train y_test,
        train_test_split permutation X y = Ok (X_train, X_test, y_train, y_test)
        /\ length X_test = ((length X + 4) / 5)%nat
        /\ length X_train = (length X - length X_test)%nat
        /\ length y_train = length X_train
        /\ length y_test = length X_test
        /\ Permutation (combine X_train y_train ++ combine X_test y_test)
                       (combine X y)).
Proof using permutation_spec.
  split; [apply train_test_split_raises | apply train_test_split_ok].
Qed.

End Splitting.

Lemma reversed_permutation (n : nat) : Permutation (reversed n) (seq 0 n).
Proof. unfold reversed. apply Permutation_sym, Permutation_rev. Qed.

Lemma train_test_split_partitions_witness :
  exists X_train X_test y_train y_test,
    train_test_split reversed small_frame small_target
    = Ok (X_train, X_test, y_train, y_test)
    /\ length X_test = 1%nat /\ length X_train = 3%nat.
Proof.
  destruct (proj2 (train_test_split_partitions reversed reversed_permutation
                     small_frame small_target) eq_refl)
    as (a & b & c & d & E & L1 & L2 & _).
  - simpl. lia.
  - exists a, b, c, d. split; [exact E|]. split; [exact L1|].
    rewrite L2, L1. reflexivity.
Defined.


(** ** The predictor's two methods *)

Lemma clamp_int_monotone (v1 v2 : Q) :
  v1 <= v2 -> (Z.max 0 (int v1) <= Z.max 0 (int v2))%Z.
Proof.
  intros H. rewrite !clamp_int_floor.
  pose proof (Qfloor_resp_le _ _ H). lia.
Qed.

(** X17.  [predict] preserves the order of the model's outputs: when the
    model's raw output for one input is at most its raw output for
    another, so is the returned count.  Truncation and the clamp at
    zero never swap two predictions. *)
Theorem predict_preserves_order (self : TrafficVolumePredictor.t) (r1 r2 : row)
  (v1 v2 : Q) :
  Pipeline.predict (TrafficVolumePredictor.model self) [r1] = Ok [v1] ->
  Pipeline.predict (TrafficVolumePredictor.model self) [r2] = Ok [v2] ->
  v1 <= v2 ->
  exists n1 n2,
    TrafficVolumePredictor.predict self r1 = Ok n1
    /\ TrafficVolumePredictor.predict self r2 = Ok n2
    /\ (n1 <= n2)%Z.
Proof.
  intros H1 H2 Hle. unfold TrafficVolumePredictor.predict. cbv zeta.
  rewrite H1, H2. cbn [mbind result_bind].
  eexists. eexists. split; [reflexivity|]. split; [reflexivity|].
  apply clamp_int_monotone, Hle.
Qed.

Lemma predict_preserves_order_witness :
  Pipeline.fit sqrt_down rng_identity split_on_temp varied_frame varied_target
  = Ok split_model
  /\ Pipeline.predict split_model
       [<["temp" := VNum 10]> (<["hour" := VInt 3]> example_input)] = Ok [300]
  /\ Pipeline.predict split_model [example_input] = Ok [4000]
  /\ exists n1 n2,
       TrafficVolumePredictor.predict (TrafficVolumePredictor.mk split_model [] [])
         (<["temp" := VNum 10]> (<["hour" := VInt 3]> example_input)) = Ok n1
       /\ TrafficVolumePredictor.predict (TrafficVolumePredictor.mk split_model [] [])
            example_input = Ok n2
       /\ (n1 <= n2)%Z.
Proof.
  assert (H1 : Pipeline.predict split_model
                 [<["temp" := VNum 10]> (<["hour" := VInt 3]> example_input)] = Ok [300])
    by (vm_compute; reflexivity).
  assert (H2 : Pipeline.predict split_model [example_input] = Ok [4000])
    by (vm_compute; reflexivity).
  split; [vm_compute; reflexivity|]. split; [exact H1|]. split; [exact H2|].
  apply (predict_preserves_order (TrafficVolumePredictor.mk split_model [] [])
           _ _ 300 4000 H1 H2).
  vm_compute. discriminate.
Defined.

Lemma names_out_raises (cols : list string) (cats : list (list value)) :
  length cats <> length cols -> names_out cols cats = Raise ValueError.
Proof.
  revert cats; induction cols as [|c cols IH]; intros [|vs cats] H; simpl in *;
    try reflexivity; try contradiction.
  rewrite IH by lia. reflexivity.
Qed.

(** X18.  [get_feature_importance] returns exactly when the encoder
    holds one category list per categorical column and the regressor
    was fitted on as many features as there are names, the three numeric
    columns plus every category; in every other case it raises
    ValueError.  The scaler's statistics play no part. *)
Theorem get_feature_importance_returns_iff (self : TrafficVolumePredictor.t) :
  let m := TrafficVolumePredictor.model self in
  let cats := OneHotEncoder.categories_ (ColumnTransformer.cat (Pipeline.preprocessor m)) in
  let nf := RandomForestRegressor.n_features_in_ (Pipeline.regressor m) in
  (is_ok (TrafficVolumePredictor.get_feature_importance self) = true
   <-> length cats = 5%nat /\ nf = (3 + length (concat cats))%nat)
  /\ (is_ok (TrafficVolumePredictor.get_feature_importance self) = false
      -> TrafficVolumePredictor.get_feature_importance self = Raise ValueError).
Proof.
  intros m cats nf. unfold TrafficVolumePredictor.get_feature_importance. cbv zeta.
  fold m. fold cats. fold nf.
  destruct (Nat.eq_dec (length cats) 5%nat) as [E5|N5].
  - destruct (names_out_ok categorical_features cats E5) as (ns & Hns).
    pose proof (names_out_length _ _ _ Hns) as Lns.
    rewrite Hns. cbn [mbind result_bind].
    assert (Ln : length (map Numeric numeric_features ++ ns)
                 = (3 + length (concat cats))%nat).
    { rewrite length_app, length_map, Lns. reflexivity. }
    destruct (RandomForestRegressor.feature_importances_ (Pipeline.regressor m))
      as [imps|] eqn:Ei.
    + destruct (feature_importances_spec _ _ Ei) as (Li & _). fold nf in Li.
      unfold Series. rewrite Li, Ln.
      destruct (Nat.eqb nf (3 + length (concat cats))) eqn:En.
      * apply Nat.eqb_eq in En. cbn [mbind result_bind is_ok].
        split; [|discriminate]. split; [intros _; split; assumption | reflexivity].
      * apply Nat.eqb_neq in En. cbn [mbind result_bind is_ok].
        split; [|reflexivity]. split; [discriminate | intros [_ H]; contradiction].
    + rewrite Ln. destruct (Nat.eqb nf (3 + length (concat cats))) eqn:En.
      * apply Nat.eqb_eq in En. cbn [is_ok].
        split; [|discriminate]. split; [intros _; split; assumption | reflexivity].
      * apply Nat.eqb_neq in En. cbn [is_ok].
        split; [|reflexivity]. split; [discriminate | intros [_ H]; contradiction].
  - rewrite (names_out_raises categorical_features cats N5). cbn [mbind result_bind is_ok].
    split; [|reflexivity]. split; [discriminate | intros [H _]; contradiction].
Qed.


(** ** The training section as a whole *)






Section Training_section.
Variable np_sqrt : Q -> Q.
Hypothesis np_sqrt_pos : forall x : Q, 0 < x -> 0 < np_sqrt x.
Hypothesis np_sqrt_zero : forall x : Q, x == 0 -> np_sqrt x == 0.
Variable rng : nat -> nat -> nat.
Variable best_split : nat -> list (list Q * Q) -> option (nat * Q).
Variable permutation : nat -> list nat.
Hypothesis permutation_spec : forall n, Permutation (permutation n) (seq 0 n).


End Training_section.


(** ** Instances for the selection of features and the importances *)

Lemma features_keeps_ten_columns_witness :
  exists f,
    features example_input = Ok f
    /\ f !! "temp"%string = Some (VNum (45 # 2))
    /\ f !! "clouds_all"%string = None.
Proof.
  destruct (features example_input) as [f|e] eqn:E.
  - destruct (features_keeps_ten_columns example_input) as (_ & _ & H).
    destruct (H f E) as (Hin & Hout). exists f. split; [reflexivity|]. split.
    + rewrite (proj2 (Hin "temp"%string ltac:(simpl; tauto))). reflexivity.
    + apply Hout. simpl. intros H'. decompose [or] H'; discriminate || contradiction.
  - exfalso. vm_compute in E. discriminate.
Defined.

Lemma feature_engineering_overwrites_derived_witness :
  feature_engineering first_timestamp example_input !! "temp"%string
  = Some (VNum (45 # 2))
  /\ feature_engineering first_timestamp
       (feature_engineering first_timestamp example_input)
     = feature_engineering first_timestamp example_input.
Proof.
  destruct (feature_engineering_overwrites_derived first_timestamp example_input)
    as (Hother & _ & _ & Hidem).
  split; [|exact Hidem].
  rewrite Hother; [reflexivity|].
  simpl. intros H'. decompose [or] H'; discriminate || contradiction.
Defined.

Lemma features_after_engineering_witness :
  is_ok (features (feature_engineering first_timestamp example_input)) = true.
Proof.
  apply (proj1 (features_after_engineering first_timestamp example_input)).
  intros c Hc. simpl in Hc.
  decompose [or] Hc; try contradiction; subst c; eexists; reflexivity.
Defined.

Lemma get_feature_importance_returns_iff_witness :
  is_ok (TrafficVolumePredictor.get_feature_importance
           (TrafficVolumePredictor.mk eleven_feature_model [] [])) = true
  /\ TrafficVolumePredictor.get_feature_importance
       (TrafficVolumePredictor.mk mismatched_model [] []) = Raise ValueError.
Proof.
  split.
  - apply (proj1 (get_feature_importance_returns_iff
                    (TrafficVolumePredictor.mk eleven_feature_model [] []))).
    split; reflexivity.
  - apply (proj2 (get_feature_importance_returns_iff
                    (TrafficVolumePredictor.mk mismatched_model [] []))).
    reflexivity.
Defined.


(** ** The constructor and a mismatched artifact *)

Lemma get_feature_importance_mismatch (self : TrafficVolumePredictor.t) :
  fitted_preprocessor (Pipeline.preprocessor (TrafficVolumePredictor.model self)) = true ->
  matching (TrafficVolumePredictor.model self) = false ->
  TrafficVolumePredictor.get_feature_importance self = Raise ValueError.
Proof.
  intros Hf Hm.
  destruct (fitted_preprocessor_parts _ Hf) as (Lm & _ & _ & Lc & _).
  unfold TrafficVolumePredictor.get_feature_importance. cbv zeta.
  destruct (names_out_ok categorical_features _ Lc) as (ns & Hns).
  pose proof (names_out_length _ _ _ Hns) as Lns.
  rewrite Hns. cbn [mbind result_bind].
  unfold matching, ColumnTransformer.n_features_out in Hm. rewrite Lm in Hm.
  assert (Ln : length (map Numeric numeric_features ++ ns)
               = (length numeric_features
                  + length (concat (OneHotEncoder.categories_
                       (ColumnTransformer.cat
                          (Pipeline.preprocessor (TrafficVolumePredictor.model self))))))%nat).
  { rewrite length_app, length_map, Lns. reflexivity. }
  destruct (RandomForestRegressor.feature_importances_ _) as [imps|] eqn:Ei.
  - destruct (feature_importances_spec _ _ Ei) as (Li & _).
    unfold Series. rewrite Li, Ln, Hm. reflexivity.
  - rewrite Ln, Hm. reflexivity.
Qed.

(** C6, amended.  The constructor checks no dimensions: it fails exactly
    when loading the file fails, with the loader's exception, and
    otherwise returns a predictor holding the loaded artifact, whether
    or not the preprocessor's output width matches the regressor's
    input width.  A mismatch shows when a method is called: [predict]
    raises ValueError (the regressor's input validation) on every input
    that the preprocessor transforms, and with a fitted preprocessor
    [get_feature_importance] raises ValueError (there are not as many
    names as importances). *)
Theorem init_checks_no_dimensions (joblib_load : string -> result Pipeline.t)
  (model_path : string) :
  (forall e, joblib_load model_path = Raise e ->
             TrafficVolumePredictor.__init__ joblib_load model_path = Raise e)
  /\ (forall m, joblib_load model_path = Ok m ->
        exists self,
          TrafficVolumePredictor.__init__ joblib_load model_path = Ok self
          /\ TrafficVolumePredictor.model self = m
          /\ (matching m = false ->
              (forall inputs x,
                 ColumnTransformer.transform (Pipeline.preprocessor m) inputs = Ok x ->
                 TrafficVolumePredictor.predict self inputs = Raise ValueError)
              /\ (fitted_preprocessor (Pipeline.preprocessor m) = true ->
                  TrafficVolumePredictor.get_feature_importance self
                  = Raise ValueError))).
Proof.
  unfold TrafficVolumePredictor.__init__. split.
  - intros e H; rewrite H; reflexivity.
  - intros m H; rewrite H; simpl. eexists; split; [reflexivity|]. split; [reflexivity|].
    intros Hm. split.
    + intros inputs x Hx. rewrite predict_unfold; simpl.
      rewrite (predict_row_mismatch m inputs x Hm Hx). reflexivity.
    + intros Hf. apply get_feature_importance_mismatch; [exact Hf | exact Hm].
Qed.

Lemma init_checks_no_dimensions_witness :
  matching mismatched_model = false
  /\ fitted_preprocessor (Pipeline.preprocessor mismatched_model) = true
  /\ is_ok (ColumnTransformer.transform (Pipeline.preprocessor mismatched_model)
              example_input) = true
  /\ exists self,
       TrafficVolumePredictor.__init__
         (single_file "traffic_volume_model.pkl" mismatched_model)
         "traffic_volume_model.pkl" = Ok self
       /\ TrafficVolumePredictor.predict self example_input = Raise ValueError
       /\ TrafficVolumePredictor.get_feature_importance self = Raise ValueError.
Proof.
  split; [reflexivity|]. split; [reflexivity|]. split; [vm_compute; reflexivity|].
  destruct (proj2 (init_checks_no_dimensions
                     (single_file "traffic_volume_model.pkl" mismatched_model)
                     "traffic_volume_model.pkl") mismatched_model eq_refl)
    as (self & Hi & Hmod & Hp).
  exists self; split; [exact Hi|].
  destruct (Hp eq_refl) as (Hpred & Hgfi). split.
  - destruct (ColumnTransformer.transform (Pipeline.preprocessor mismatched_model)
                example_input) as [x|e] eqn:E.
    + apply (Hpred example_input x E).
    + exfalso. vm_compute in E. discriminate.
  - apply Hgfi. reflexivity.
Defined.
